(** * A shallow embedding of the multi-account file manager

    The repository holds two generations of one Express application:

    - the storage gateway of [src/index.js] (and its older copy
      [src/unnamed/part_000]): B2 token cache, listing cache, upload,
      rename-by-copy and delete against the remote object store;
    - the metadata server that follows the [File] schema in
      [src/models/File.js]: the same token cache, plus a MongoDB index of
      files and folders and the video enrichment of uploads.

    JavaScript strings are modelled by [string]; one [ascii] stands for one
    UTF-16 code unit below 256.  Numbers that the code only ever uses as
    integers (timestamps, sizes) are [N] or [Z]. *)

From Stdlib Require Import ZArith NArith QArith Ascii DecimalString DecimalN Sorted.
From stdpp Require Import gmap strings list.

Local Open Scope stdpp_scope.

(** ** JavaScript string primitives used by the handlers *)
Module Js.

Definition code (c : ascii) : N := N_of_ascii c.

Definition is_digit (c : ascii) : bool := (48 <=? code c)%N && (code c <=? 57)%N.
Definition is_lower (c : ascii) : bool := (97 <=? code c)%N && (code c <=? 122)%N.
Definition is_upper (c : ascii) : bool := (65 <=? code c)%N && (code c <=? 90)%N.

(** [[a-z0-9]] under the [i] flag (no [u] flag: only ASCII letters fold
    onto [a-z]), which is also the class [[a-zA-Z0-9]]. *)
Definition is_alnum (c : ascii) : bool := is_lower c || is_upper c || is_digit c.

Fixpoint smap (f : ascii -> ascii) (s : string) : string :=
  match s with
  | EmptyString => EmptyString
  | String c s' => String (f c) (smap f s')
  end.

(** [String.prototype.toLowerCase] on code units below 256: [A-Z] and the
    Latin-1 capitals U+00C0..U+00DE (U+00D7 excepted) move up by 32. *)
Definition lower_char (c : ascii) : ascii :=
  let n := code c in
  if is_upper c || ((192 <=? n)%N && (n <=? 222)%N && negb (n =? 215)%N)
  then ascii_of_N (n + 32) else c.

Definition toLowerCase (s : string) : string := smap lower_char s.

(** [s.replace(/[^a-z0-9]/gi, '_')] and [s.replace(/[^a-zA-Z0-9]/g, '_')]. *)
Definition replace_non_alnum (s : string) : string :=
  smap (fun c => if is_alnum c then c else "_"%char) s.

(** [s.replace(/_/g, ' ')]. *)
Definition underscores_to_spaces (s : string) : string :=
  smap (fun c => if Ascii.eqb c "_" then " "%char else c) s.

(** [s.split(sep)] for a one-character separator: never empty. *)
Fixpoint split (sep : ascii) (s : string) : list string :=
  match s with
  | EmptyString => [EmptyString]
  | String c s' =>
      if Ascii.eqb c sep then EmptyString :: split sep s'
      else match split sep s' with
           | h :: t => String c h :: t
           | [] => [String c EmptyString]
           end
  end.

(** [arr.pop()] on the result of a [split]: the last element, and what
    is left in the array. *)
Definition pop (l : list string) : string := List.last l EmptyString.
Definition popped (l : list string) : list string := List.removelast l.

(** [arr[0]]. *)
Definition first (l : list string) : string := List.hd EmptyString l.

(** [arr.join(sep)]. *)
Definition join (sep : string) (l : list string) : string := String.concat sep l.

Fixpoint drop (n : nat) (s : string) : string :=
  match n, s with
  | O, _ => s
  | S n', String _ s' => drop n' s'
  | S _, EmptyString => EmptyString
  end.

(** Every code unit of [s] satisfies [p]. *)
Fixpoint every (p : ascii -> bool) (s : string) : bool :=
  match s with
  | EmptyString => true
  | String c s' => p c && every p s'
  end.

(** The characters with a meaning of their own in a regular expression
    or in the replacement text of [String.prototype.replace]. *)
Definition is_meta (c : ascii) : bool :=
  existsb (Ascii.eqb c)
    ["\"; "^"; "$"; "."; "|"; "?"; "*"; "+"; "("; ")"; "["; "]"; "{"; "}"]%char.

(** A text that a regular expression matches literally. *)
Definition literal (s : string) : bool := every (fun c => negb (is_meta c)) s.

Definition slash_free (s : string) : bool :=
  every (fun c => negb (Ascii.eqb c "/")) s.

(** What can follow the digits of a storage key: nothing, or a text that
    opens with something else than a digit. *)
Definition no_digit_ahead (s : string) : Prop :=
  match s with
  | EmptyString => True
  | String c _ => is_digit c = false
  end.

(** [s.startsWith(p)]. *)
Definition startsWith (s p : string) : bool := String.prefix p s.

(** First occurrence of [p] in [s]: the text before it and after it. *)
Fixpoint find_first (p s : string) : option (string * string) :=
  if String.prefix p s then Some (EmptyString, drop (String.length p) s)
  else match s with
       | EmptyString => None
       | String c s' =>
           match find_first p s' with
           | Some (b, a) => Some (String c b, a)
           | None => None
           end
       end.

(** [GetSubstitution] for a string pattern (no capture groups): [$$],
    [$&], [$`] and [$'] are expanded, every other character is copied. *)
Fixpoint substitution (matched before after r : string) : string :=
  match r with
  | EmptyString => EmptyString
  | String c r' =>
      if Ascii.eqb c "$" then
        match r' with
        | String d r'' =>
            if Ascii.eqb d "$" then String "$" (substitution matched before after r'')
            else if Ascii.eqb d "&" then matched +:+ substitution matched before after r''
            else if Ascii.eqb d "`" then before +:+ substitution matched before after r''
            else if Ascii.eqb d "'" then after +:+ substitution matched before after r''
            else String c (substitution matched before after r')
        | EmptyString => String c EmptyString
        end
      else String c (substitution matched before after r')
  end.

(** [s.replace(p, r)] with a string pattern: only the first occurrence. *)
Definition replace (s p r : string) : string :=
  match find_first p s with
  | Some (b, a) => b +:+ substitution p b a r +:+ a
  | None => s
  end.

(** White space of [String.prototype.trim] among code units below 256. *)
Definition is_space (c : ascii) : bool :=
  let n := code c in
  ((9 <=? n)%N && (n <=? 13)%N) || (n =? 32)%N || (n =? 160)%N.

Fixpoint trimStart (s : string) : string :=
  match s with
  | EmptyString => EmptyString
  | String c s' => if is_space c then trimStart s' else s
  end.

Fixpoint trimEnd (s : string) : string :=
  match s with
  | EmptyString => EmptyString
  | String c s' =>
      match trimEnd s' with
      | EmptyString => if is_space c then EmptyString else String c EmptyString
      | t => String c t
      end
  end.

Definition trim (s : string) : string := trimEnd (trimStart s).

(** A non-negative integer inside a template literal. *)
Definition decimal (n : N) : string := NilEmpty.string_of_uint (N.to_uint n).

(** An optional string inside a template literal. *)
Definition template (o : option string) : string :=
  match o with
  | Some s => s
  | None => "undefined"
  end.

(** Truthiness of a string-valued request field: [undefined] and the
    empty string are falsy. *)
Definition truthy (o : option string) : bool :=
  match o with
  | Some s => negb (String.eqb s EmptyString)
  | None => false
  end.

(** The names every plain object inherits from [Object.prototype]:
    reading one of them from an object without such a property of its own
    yields the inherited member, an object or a function, never
    [undefined]. *)
Definition object_prototype_names : list string :=
  ["constructor"; "__proto__"; "__defineGetter__"; "__defineSetter__";
   "__lookupGetter__"; "__lookupSetter__"; "hasOwnProperty"; "isPrototypeOf";
   "propertyIsEnumerable"; "toLocaleString"; "toString"; "valueOf"].

Definition inherited (name : string) : bool :=
  existsb (String.eqb name) object_prototype_names.

(** The name of an array index, which [Object.keys] lists before the
    other names: the canonical numeral of an integer below 2^32 - 1. *)
Definition array_index (name : string) : option N :=
  match NilEmpty.uint_of_string name with
  | Some u =>
      let n := N.of_uint u in
      if String.eqb (decimal n) name && (n <? 4294967295)%N then Some n else None
  | None => None
  end.

(** The double quote, as a text. *)
Definition dquote : string := String (ascii_of_N 34) EmptyString.

(** The last portion of a POSIX path, trailing separators ignored. *)
Definition last_portion (p : string) : string :=
  List.last (List.filter (fun s => negb (String.eqb s EmptyString)) (split "/" p))
            EmptyString.

(** Node's [path.extname] (POSIX rules): from the last dot of the last
    portion to its end; empty when there is no dot, when the only dot
    opens the portion, and for the portion [..]. *)
Definition extname (p : string) : string :=
  let b := last_portion p in
  match split "." b with
  | [] | [_] => EmptyString
  | [h; e] => if String.eqb h EmptyString then EmptyString else String "." e
  | segs => if String.eqb b ".." then EmptyString else String "." (pop segs)
  end.

Fixpoint strip_suffix_aux (n : nat) (s : string) : string :=
  match n, s with
  | O, _ => EmptyString
  | S n', String c s' => String c (strip_suffix_aux n' s')
  | S _, EmptyString => EmptyString
  end.

(** Node's [path.basename(p, ext)]: the last portion, without [ext] when
    it ends with it and is not [ext] itself; empty when [ext] is the whole
    of [p]. *)
Definition basename (p ext : string) : string :=
  let b := last_portion p in
  let k := (String.length b - String.length ext)%nat in
  if String.eqb ext EmptyString then b
  else if String.eqb p ext then EmptyString
  else if negb (String.eqb b ext) && String.eqb (drop k b) ext
  then strip_suffix_aux k b else b.

End Js.

(** ** The remote object store and the effects of a handler

    A handler is a function of the process state; everything outside the
    process (the B2 service, the clock, the environment, the bucket
    configuration) is a [World] that answers each remote call from the
    history of the calls made so far. *)
Module B2.

Record authData := {
  apiUrl : string;
  downloadUrl : string;
  authorizationToken : string
}.

Record uploadUrlData := {
  uploadUrl : string;
  uploadAuthorizationToken : string
}.

(** An entry of [b2_list_file_names]. *)
Record remoteFile := {
  rf_fileName : string;
  rf_fileId : string;
  rf_size : N;
  rf_uploadTimestamp : Z;
  rf_contentType : string
}.

(** What the handlers read of an upload or copy result. *)
Record fileInfo := { fi_fileId : option string }.

Record downloadAuth := { da_authorizationToken : string }.

(** What the gateway reads of a bucket description: its name and type,
    [accountInfo.allowed.capExceeded] (absent when a link of that chain is
    missing) and [accountInfo.allowed.capacityBytes]. *)
Record bucketInfo := {
  bi_bucketName : option string;
  bi_bucketType : option string;
  bi_capExceeded : option bool;
  bi_capacityBytes : option N
}.

(** The calls to the store, by the fields the handlers choose.  What a
    call derives from them on the wire (the Basic credentials, the SHA-1 of
    the data, the URI encoding of the file name) is left out. *)
Inductive request :=
| AuthorizeAccount (keyId applicationKey : option string)
| ListFileNames (api authorization : string) (bucketId : option string)
                (prefix : string) (maxFileCount : N)
| GetUploadUrl (api authorization : string) (bucketId : option string)
| UploadFile (url authorization fileName contentType data : string)
| CopyFile (api authorization sourceFileId fileName : string)
           (destinationBucketId : option string)
| DeleteFileVersion (api authorization : string) (fileId : option string)
                    (fileName : string)
| GetDownloadAuthorization (api authorization : string) (bucketId : option string)
                           (fileNamePrefix : string) (validDurationInSeconds : N)
| GetBucketInfo (api authorization : string) (bucketId : option string).

Inductive endpoint :=
| b2_authorize_account | b2_list_file_names | b2_get_upload_url | b2_upload_file
| b2_copy_file | b2_delete_file_version | b2_get_download_authorization
| b2_get_bucket_info.

#[global] Instance endpoint_eq_dec : EqDecision endpoint.
Proof. solve_decision. Defined.

Definition endpoint_of (r : request) : endpoint :=
  match r with
  | AuthorizeAccount _ _ => b2_authorize_account
  | ListFileNames _ _ _ _ _ => b2_list_file_names
  | GetUploadUrl _ _ _ => b2_get_upload_url
  | UploadFile _ _ _ _ _ => b2_upload_file
  | CopyFile _ _ _ _ _ => b2_copy_file
  | DeleteFileVersion _ _ _ _ => b2_delete_file_version
  | GetDownloadAuthorization _ _ _ _ _ => b2_get_download_authorization
  | GetBucketInfo _ _ _ => b2_get_bucket_info
  end.

(** The body of a response: [response.json()] yields a value or throws. *)
Inductive body (A : Type) :=
| Json (a : A)
| Malformed (message : string).
Arguments Json {A} a.
Arguments Malformed {A} message.

Record response (A : Type) := {
  status : N;
  payload : body A
}.
Arguments status {A} r.
Arguments payload {A} r.

(** A status in the range 200-299. *)
Definition accepted (code : N) : bool := (200 <=? code)%N && (code <? 300)%N.

(** [response.ok]. *)
Definition ok {A} (r : response A) : bool := accepted (status r).

(** [fetch] resolves with a response or rejects (network failure). *)
Inductive fetched (A : Type) :=
| Rejects (message : string)
| Resolves (r : response A).
Arguments Rejects {A} message.
Arguments Resolves {A} r.

Record bucket := {
  bucketId : option string;
  bucketName : option string
}.

(** [bucketConfig], a plain object: its own properties, in the order
    [JSON.parse] created them (their names are distinct).  The value of
    a property is [null] ([None]) or truthy: an object with its
    [bucketId] and [bucketName], or any other truthy value, which reads
    as a bucket without fields. *)
Record config := { own : list (string * option bucket) }.

(** What [.bucketId] and [.bucketName] read from an inherited member. *)
Definition inherited_member : bucket := {| bucketId := None; bucketName := None |}.

(** [bucketConfig[name]] where the code tests it and reads its fields:
    the own property, and when there is no own property of that name the
    inherited member of [Object.prototype]; [None] when the value is
    [null] or [undefined]. *)
#[global] Instance config_lookup : Lookup string bucket config :=
  fun name c =>
    match List.find (fun p => String.eqb (fst p) name) (own c) with
    | Some p => snd p
    | None => if Js.inherited name then Some inherited_member else None
    end.

Record World := {
  Date_now : nat -> N;
  env : string -> option string;
  bucketConfig : config;
  on_authorize : list request -> request -> fetched authData;
  on_list : list request -> request -> fetched (list remoteFile);
  on_get_upload_url : list request -> request -> fetched uploadUrlData;
  on_upload : list request -> request -> fetched fileInfo;
  on_copy : list request -> request -> fetched fileInfo;
  on_delete : list request -> request -> fetched unit;
  on_download_auth : list request -> request -> fetched downloadAuth;
  (** the body of a bucket description may be [null] *)
  on_bucket_info : list request -> request -> fetched (option bucketInfo)
}.

Definition status_of {A} (f : fetched A) : option N :=
  match f with
  | Rejects _ => None
  | Resolves r => Some (status r)
  end.

(** The status with which the world answers request [r] after history
    [h] (newest call first); [None] when the call does not resolve. *)
Definition answer_status (W : World) (h : list request) (r : request) : option N :=
  match endpoint_of r with
  | b2_authorize_account => status_of (on_authorize W h r)
  | b2_list_file_names => status_of (on_list W h r)
  | b2_get_upload_url => status_of (on_get_upload_url W h r)
  | b2_upload_file => status_of (on_upload W h r)
  | b2_copy_file => status_of (on_copy W h r)
  | b2_delete_file_version => status_of (on_delete W h r)
  | b2_get_download_authorization => status_of (on_download_auth W h r)
  | b2_get_bucket_info => status_of (on_bucket_info W h r)
  end.

End B2.

(** ** The effect monad: state, and exceptions carrying [error.message] *)
Module Eff.

Inductive outcome (A : Type) :=
| Return (a : A)
| Throw (message : string).
Arguments Return {A} a.
Arguments Throw {A} message.

Section Monad.
Context {S : Type}.

Definition M (A : Type) : Type := S -> outcome A * S.

Definition ret {A} (a : A) : M A := fun st => (Return a, st).

Definition throw {A} (message : string) : M A := fun st => (Throw message, st).

Definition bind {A B} (m : M A) (k : A -> M B) : M B :=
  fun st =>
    match m st with
    | (Return a, st') => k a st'
    | (Throw message, st') => (Throw message, st')
    end.

(** [try { m } catch (error) { h error.message }]. *)
Definition try_catch {A} (m : M A) (h : string -> M A) : M A :=
  fun st =>
    match m st with
    | (Return a, st') => (Return a, st')
    | (Throw message, st') => h message st'
    end.

Definition gets {A} (f : S -> A) : M A := fun st => (Return (f st), st).

Definition modify (f : S -> S) : M unit := fun st => (Return tt, f st).

(** A handler whose whole body sits in a [try]/[catch] that answers:
    it always produces a reply. *)
Definition run {A} (m : M A) (h : string -> A) (st : S) : A * S :=
  match m st with
  | (Return a, st') => (a, st')
  | (Throw message, st') => (h message, st')
  end.
End Monad.

Arguments M S A : clear implicits.

Declare Scope eff_scope.
Delimit Scope eff_scope with eff.
Notation "'let*' x ':=' c1 'in' c2" := (bind c1 (fun x => c2))
  (at level 10, x pattern, c1 at level 100, c2 at level 200) : eff_scope.
Notation "'do' c1 'then' c2" := (bind c1 (fun _ => c2))
  (at level 10, c1 at level 100, c2 at level 200) : eff_scope.

End Eff.

(** [Array.prototype.sort(cmp)]: a stable sort (ECMAScript 2019), so for a
    consistent comparator its result is the one of insertion from the
    right: an element goes before the first one it does not compare
    greater than. *)
Module JsArray.

Fixpoint insert_by {A} (cmp : A -> A -> Z) (x : A) (l : list A) : list A :=
  match l with
  | [] => [x]
  | y :: l' => if (cmp x y <=? 0)%Z then x :: l else y :: insert_by cmp x l'
  end.

Definition sort {A} (cmp : A -> A -> Z) (l : list A) : list A :=
  List.fold_right (insert_by cmp) [] l.

End JsArray.

(** ** The storage gateway of [src/index.js] *)
Module Gateway.
Import B2 Eff.
Local Open Scope eff_scope.

(** An element of the array [listFiles] returns. *)
Record fileView := {
  fileName : string;
  fullFileName : string;
  fileId : string;
  size : N;
  uploadTimestamp : Z;
  contentType : string;
  title : string;
  url : string;
  account : string
}.

Record state := {
  authTokenCache : gmap string authData;
  fileListCache : gmap string (N * list fileView);
  bucketInfoCache : gmap string (N * option bucketInfo);
  calls : list request;
  ticks : nat
}.

Definition FILE_CACHE_TTL : Z := 5 * 60 * 1000.

(** [limits.fileSize] handed to multer, whose middleware runs before the
    upload handler. *)
Definition upload_fileSize_limit : N := 1000 * 1024 * 1024.

Definition set_authTokenCache (f : gmap string authData -> gmap string authData)
    (st : state) : state :=
  {| authTokenCache := f (authTokenCache st);
     fileListCache := fileListCache st;
     bucketInfoCache := bucketInfoCache st;
     calls := calls st;
     ticks := ticks st |}.

Definition set_fileListCache
    (f : gmap string (N * list fileView) -> gmap string (N * list fileView))
    (st : state) : state :=
  {| authTokenCache := authTokenCache st;
     fileListCache := f (fileListCache st);
     bucketInfoCache := bucketInfoCache st;
     calls := calls st;
     ticks := ticks st |}.

Definition set_bucketInfoCache
    (f : gmap string (N * option bucketInfo) -> gmap string (N * option bucketInfo))
    (st : state) : state :=
  {| authTokenCache := authTokenCache st;
     fileListCache := fileListCache st;
     bucketInfoCache := f (bucketInfoCache st);
     calls := calls st;
     ticks := ticks st |}.

Definition log (r : request) (st : state) : state :=
  {| authTokenCache := authTokenCache st;
     fileListCache := fileListCache st;
     bucketInfoCache := bucketInfoCache st;
     calls := r :: calls st;
     ticks := ticks st |}.

Definition tick (st : state) : state :=
  {| authTokenCache := authTokenCache st;
     fileListCache := fileListCache st;
     bucketInfoCache := bucketInfoCache st;
     calls := calls st;
     ticks := S (ticks st) |}.

(** A request field that passes the [!field] validation. *)
Definition present (o : option string) : option string :=
  if Js.truthy o then o else None.

(** Key derivation of [POST /upload]. *)
Definition safeTitle (title : string) : string :=
  Js.toLowerCase (Js.replace_non_alnum title).

Definition upload_fullFilename (title originalname : string) (timestamp : N) : string :=
  let filename := safeTitle title +:+ "_" +:+ Js.decimal timestamp in
  let extension := Js.pop (Js.split "." originalname) in
  filename +:+ "." +:+ extension.

Definition upload_b2FileName (title originalname : string) (timestamp : N) : string :=
  "files/" +:+ upload_fullFilename title originalname timestamp.

(** Key derivation of [POST /rename-file]. *)
Definition rename_newFileName (oldFileName newTitle : string) : string :=
  let oldFileNameParts := Js.split "_" oldFileName in
  let timestamp := Js.first (Js.split "." (Js.pop oldFileNameParts)) in
  let extension := Js.pop (Js.split "." oldFileName) in
  safeTitle newTitle +:+ "_" +:+ timestamp +:+ "." +:+ extension.

(** The callback of [result.files.map] in [listFiles]. *)
Definition view (acct : string) (file : remoteFile) : fileView :=
  let filename := Js.replace (rf_fileName file) "files/" "" in
  let parts := Js.split "_" filename in
  {| fileName := filename;
     fullFileName := rf_fileName file;
     fileId := rf_fileId file;
     size := rf_size file;
     uploadTimestamp := rf_uploadTimestamp file;
     contentType := rf_contentType file;
     title := Js.underscores_to_spaces (Js.join "" (Js.popped parts));
     url := "/files/" +:+ acct +:+ "/" +:+ filename;
     account := acct |}.

(** [(a, b) => b.uploadTimestamp - a.uploadTimestamp]. *)
Definition newest_first (a b : fileView) : Z :=
  (uploadTimestamp b - uploadTimestamp a)%Z.

(** The time-limited direct URL of [GET /files/:account/:filename]. *)
Definition directDownloadUrl (authData : authData) (cfg : bucket)
    (filename token : string) : string :=
  downloadUrl authData +:+ "/file/" +:+ Js.template (bucketName cfg) +:+ "/files/"
    +:+ filename +:+ "?Authorization=" +:+ token.

Inductive reply :=
| JsonError (status : N) (error : string)
| UploadSuccess (url title filename : string) (b2FileId : option string)
| RenameSuccess (newFileName : string) (newFileId : option string)
                (newTitle url : string)
| DeleteSuccess
| Redirect (url : string)
| SendText (status : N) (text : string).

Record uploadedFile := {
  originalname : string;
  mimetype : string;
  buffer : string
}.

Record upload_body := {
  up_account : option string;
  up_title : option string;
  up_file : option uploadedFile
}.

Record rename_body := {
  rn_account : option string;
  rn_fileId : option string;
  rn_oldFileName : option string;
  rn_newTitle : option string
}.

Record delete_body := {
  dl_account : option string;
  dl_fileId : option string;
  dl_fileName : option string
}.

(** What [getBucketInfo] returns: what the store (or the cache) says of
    the bucket, or the object
    [{ bucketName, totalFiles: 0, totalSize: 0, bucketQuota: null,
       usedPercentage: 0 }] it makes up when it cannot ask or is refused. *)
Inductive info :=
| Described (bucketInfo : option bucketInfo)
| Placeholder (bucketName : string).

(** [(totalSize / bucketQuota) * 100], a floating-point number, kept as
    its operands. *)
Record percentage := { of_bytes : N; in_bytes : N }.

(** The usage of a bucket as the pages report it; the home page reports
    no [bucketType]. *)
Record usage := {
  us_bucketName : option string;
  us_bucketType : option string;
  us_totalFiles : nat;
  us_totalSize : N;
  us_bucketQuota : option N;
  us_usedPercentage : option percentage
}.

(** What [GET /api/bucket-info/:account] and [GET /] answer; the home
    page is given by the arguments of [generateHTML]. *)
Inductive page :=
| PageJsonError (status : N) (error : string)
| PageText (status : N) (text : string)
| BucketUsage (u : usage)
| HomePage (accountList : list string) (allFiles : list fileView)
           (bucketInfos : list (string * usage)).

Definition name_of (i : info) : option string :=
  match i with
  | Described (Some b) => bi_bucketName b
  | Described None => None
  | Placeholder n => Some n
  end.

Definition type_of (i : info) : option string :=
  match i with
  | Described (Some b) => bi_bucketType b
  | _ => None
  end.

(** [bucketQuota]: the capacity, when [capExceeded === false]. *)
Definition quota_of (i : info) : option N :=
  match i with
  | Described (Some b) =>
      match bi_capExceeded b with
      | Some false => bi_capacityBytes b
      | _ => None
      end
  | _ => None
  end.

(** [bucketQuota ? (totalSize / bucketQuota) * 100 : null]. *)
Definition used (totalSize : N) (bucketQuota : option N) : option percentage :=
  match bucketQuota with
  | Some q => if (q =? 0)%N then None
              else Some {| of_bytes := totalSize; in_bytes := q |}
  | None => None
  end.

(** [files.reduce((sum, file) => sum + file.size, 0)]. *)
Definition total_size (files : list fileView) : N :=
  List.fold_left (fun sum file => (sum + size file)%N) files 0%N.

(** [Object.keys]: the names that are array indices in ascending order,
    then the other names in the order of their creation. *)
Definition keys (c : config) : list string :=
  let names := List.map fst (own c) in
  List.map Js.decimal
    (JsArray.sort (fun a b => (Z.of_N a - Z.of_N b)%Z)
       (List.flat_map (fun name => match Js.array_index name with
                                   | Some n => [n]
                                   | None => []
                                   end) names))
  ++ List.filter (fun name => match Js.array_index name with
                              | Some _ => false
                              | None => true
                              end) names.

Section Handlers.
Variable W : World.

Definition now : M state N :=
  fun st => (Return (Date_now W (ticks st)), tick st).

Definition fetch {A} (oracle : list request -> request -> fetched A)
    (r : request) : M state (response A) :=
  fun st =>
    match oracle (calls st) r with
    | Rejects message => (Throw message, log r st)
    | Resolves resp => (Return resp, log r st)
    end.

Definition json {A} (r : response A) : M state A :=
  match payload r with
  | Json a => ret a
  | Malformed message => throw message
  end.

(** [bucketConfig[account].bucketId]: a [TypeError] when the account
    has no configuration. *)
Definition bucketId_of (acct : string) : M state (option string) :=
  match bucketConfig W !! acct with
  | Some cfg => ret (bucketId cfg)
  | None => throw "Cannot read properties of undefined (reading 'bucketId')"
  end.

Definition getAuthToken (acct : string) : M state authData :=
  let* cached := gets (fun st => authTokenCache st !! acct) in
  match cached with
  | Some authData => ret authData
  | None =>
      let* keys :=
        if String.eqb acct "account1"
        then ret (env W "ACCOUNT1_KEY_ID", env W "ACCOUNT1_APPLICATION_KEY")
        else if String.eqb acct "account2"
        then ret (env W "ACCOUNT2_KEY_ID", env W "ACCOUNT2_APPLICATION_KEY")
        else throw "Invalid account" in
      let* authResponse :=
        fetch (on_authorize W) (AuthorizeAccount (fst keys) (snd keys)) in
      if negb (ok authResponse) then throw "Failed to authenticate with B2"
      else
        let* authData := json authResponse in
        do modify (set_authTokenCache (insert acct authData)) then
        ret authData
  end.

(** [listFiles] is an [async] function: it runs without interruption
    from one [await] to the next, and while it waits other requests run.
    The [try] block of [listFiles] up to the answer of
    [b2_list_file_names]. *)
Definition listFiles_request (acct : string) : M state (response (list remoteFile)) :=
  let* authData := getAuthToken acct in
  let* bucket := bucketId_of acct in
  fetch (on_list W)
        (ListFileNames (apiUrl authData) (authorizationToken authData)
                       bucket "files/" 1000).

(** The [try] block of [listFiles] from that answer on. *)
Definition listFiles_receive (acct cacheKey : string)
    (response : response (list remoteFile)) : M state (list fileView) :=
  if negb (ok response)
  then throw ("Failed to list files: " +:+ Js.decimal (status response))
  else
    let* result := json response in
    let files := JsArray.sort newest_first (List.map (view acct) result) in
    let* stamp := now in
    do modify (set_fileListCache (insert cacheKey (stamp, files))) then
    ret files.

(** The [try] block of [listFiles], run without another request in
    between. *)
Definition listFiles_fetch (acct cacheKey : string) : M state (list fileView) :=
  let* response := listFiles_request acct in
  listFiles_receive acct cacheKey response.

(** The cache check that opens [listFiles]: the cached listing while it
    is younger than the TTL. *)
Definition cache_lookup (cacheKey : string) : M state (option (list fileView)) :=
  let* entry := gets (fun st => fileListCache st !! cacheKey) in
  match entry with
  | Some (timestamp, files) =>
      let* t := now in
      ret (if (Z.of_N t - Z.of_N timestamp <? FILE_CACHE_TTL)%Z
           then Some files else None)
  | None => ret None
  end.

(** What [listFiles] does when the cache does not answer. *)
Definition refetch (acct : string) : M state (list fileView) :=
  try_catch (listFiles_fetch acct ("files_" +:+ acct)) (fun _ => ret []).

Definition listFiles (acct : string) : state -> list fileView * state :=
  run (let* hit := cache_lookup ("files_" +:+ acct) in
       match hit with
       | Some files => ret files
       | None => refetch acct
       end)
      (fun _ => []).

(** A [listFiles] that was waiting for the store goes on with the answer
    it was given, in the state the requests served meanwhile have left. *)
Definition listFiles_resume (acct : string) (response : response (list remoteFile))
    : state -> list fileView * state :=
  run (try_catch (listFiles_receive acct ("files_" +:+ acct) response)
                 (fun _ => ret []))
      (fun _ => []).

(** [POST /upload]. *)
Definition upload (b : upload_body) : state -> reply * state :=
  run (match present (up_account b), present (up_title b), up_file b with
       | Some acct, Some title, Some file =>
           match bucketConfig W !! acct with
           | None => ret (JsonError 400 "Invalid account selected")
           | Some cfg =>
               let* timestamp := now in
               let fullFilename :=
                 upload_fullFilename title (originalname file) timestamp in
               let b2FileName :=
                 upload_b2FileName title (originalname file) timestamp in
               let fileData := buffer file in
               let* authData := getAuthToken acct in
               let* uploadUrlResponse :=
                 fetch (on_get_upload_url W)
                       (GetUploadUrl (apiUrl authData) (authorizationToken authData)
                                     (bucketId cfg)) in
               if negb (ok uploadUrlResponse)
               then throw "Failed to get upload URL from B2"
               else
                 let* uploadUrlData := json uploadUrlResponse in
                 let* uploadResponse :=
                   fetch (on_upload W)
                         (UploadFile (uploadUrl uploadUrlData)
                            (uploadAuthorizationToken uploadUrlData)
                            b2FileName
                            (if String.eqb (mimetype file) ""
                             then "application/octet-stream" else mimetype file)
                            fileData) in
                 if negb (ok uploadResponse)
                 then throw "Failed to upload file to B2"
                 else
                   let* uploadResult := json uploadResponse in
                   do modify (set_fileListCache (delete ("files_" +:+ acct))) then
                   do modify (set_bucketInfoCache (delete ("bucket_info_" +:+ acct))) then
                   ret (UploadSuccess ("/files/" +:+ acct +:+ "/" +:+ fullFilename)
                          title fullFilename (fi_fileId uploadResult))
           end
       | _, _, _ => ret (JsonError 400 "Missing required fields")
       end)
      (fun message => JsonError 500 message).

(** [POST /rename-file]. *)
Definition rename_file (b : rename_body) : state -> reply * state :=
  run (match present (rn_account b), present (rn_fileId b),
             present (rn_oldFileName b), present (rn_newTitle b) with
       | Some acct, Some fileId, Some oldFileName, Some newTitle =>
           match bucketConfig W !! acct with
           | None => ret (JsonError 400 "Invalid account selected")
           | Some cfg =>
               let newFileName := rename_newFileName oldFileName newTitle in
               let oldB2FileName := "files/" +:+ oldFileName in
               let newB2FileName := "files/" +:+ newFileName in
               let* authData := getAuthToken acct in
               let* copyResponse :=
                 fetch (on_copy W)
                       (CopyFile (apiUrl authData) (authorizationToken authData)
                                 fileId newB2FileName (bucketId cfg)) in
               if negb (ok copyResponse)
               then throw "Failed to copy file with new name"
               else
                 let* copyResult := json copyResponse in
                 let* deleteResponse :=
                   fetch (on_delete W)
                         (DeleteFileVersion (apiUrl authData)
                            (authorizationToken authData) (Some fileId)
                            oldB2FileName) in
                 if negb (ok deleteResponse)
                 then throw "Failed to delete old file version"
                 else
                   do modify (set_fileListCache (delete ("files_" +:+ acct))) then
                   ret (RenameSuccess newFileName (fi_fileId copyResult) newTitle
                          ("/files/" +:+ acct +:+ "/" +:+ newFileName))
           end
       | _, _, _, _ => ret (JsonError 400 "Missing required fields")
       end)
      (fun message => JsonError 500 message).

(** [POST /delete-file]. *)
Definition delete_file (b : delete_body) : state -> reply * state :=
  run (match present (dl_account b), present (dl_fileId b),
             present (dl_fileName b) with
       | Some acct, Some fileId, Some fileName =>
           match bucketConfig W !! acct with
           | None => ret (JsonError 400 "Invalid account selected")
           | Some cfg =>
               let* authData := getAuthToken acct in
               let* deleteResponse :=
                 fetch (on_delete W)
                       (DeleteFileVersion (apiUrl authData)
                          (authorizationToken authData) (Some fileId) fileName) in
               if negb (ok deleteResponse)
               then throw "Failed to delete file from B2"
               else
                 do modify (set_fileListCache (delete ("files_" +:+ acct))) then
                 do modify (set_bucketInfoCache (delete ("bucket_info_" +:+ acct))) then
                 ret DeleteSuccess
           end
       | _, _, _ => ret (JsonError 400 "Missing required fields")
       end)
      (fun message => JsonError 500 message).

(** [GET /files/:account/:filename]. *)
Definition serve_file (acct filename : string) : state -> reply * state :=
  run (match bucketConfig W !! acct with
       | None => ret (SendText 400 "Invalid account")
       | Some cfg =>
           let* authData := getAuthToken acct in
           let* downloadAuthResponse :=
             fetch (on_download_auth W)
                   (GetDownloadAuthorization (apiUrl authData)
                      (authorizationToken authData) (bucketId cfg)
                      ("files/" +:+ filename) 86400) in
           if negb (ok downloadAuthResponse)
           then throw "Failed to get download authorization"
           else
             let* downloadAuthData := json downloadAuthResponse in
             ret (Redirect
                    (directDownloadUrl authData cfg filename
                       (da_authorizationToken downloadAuthData)))
       end)
      (fun message => SendText 500 ("Error serving file: " +:+ message)).

(** Awaiting a function of the gateway that never throws. *)
Definition lift {A} (f : state -> A * state) : M state A :=
  fun st => let (a, st') := f st in (Return a, st').

(** The cache check that opens [getBucketInfo]. *)
Definition info_lookup (cacheKey : string) : M state (option (option bucketInfo)) :=
  let* entry := gets (fun st => bucketInfoCache st !! cacheKey) in
  match entry with
  | Some (timestamp, info) =>
      let* t := now in
      ret (if (Z.of_N t - Z.of_N timestamp <? FILE_CACHE_TTL)%Z
           then Some info else None)
  | None => ret None
  end.

(** [getBucketInfo]; nothing outside its [try] block throws.  The body
    of a refused answer is read as text for the log only. *)
Definition getBucketInfo (acct : string) : state -> info * state :=
  run (let* hit := info_lookup ("bucket_info_" +:+ acct) in
       match hit with
       | Some info => ret (Described info)
       | None =>
           try_catch
             (let* authData := getAuthToken acct in
              match bucketConfig W !! acct with
              | Some cfg =>
                  if Js.truthy (bucketId cfg) then
                    let* response :=
                      fetch (on_bucket_info W)
                            (GetBucketInfo (apiUrl authData)
                               (authorizationToken authData) (bucketId cfg)) in
                    if negb (ok response)
                    then ret (Placeholder
                                (acct +:+ " (error: " +:+ Js.decimal (status response)
                                   +:+ ")"))
                    else
                      let* bucketInfo := json response in
                      let* stamp := now in
                      do modify (set_bucketInfoCache
                                   (insert ("bucket_info_" +:+ acct)
                                      (stamp, bucketInfo))) then
                      ret (Described bucketInfo)
                  else ret (Placeholder (acct +:+ " (unconfigured)"))
              | None => ret (Placeholder (acct +:+ " (unconfigured)"))
              end)
             (fun message =>
                ret (Placeholder (acct +:+ " (error: " +:+ message +:+ ")")))
       end)
      (fun message => Placeholder (acct +:+ " (error: " +:+ message +:+ ")")).

(** [GET /api/bucket-info/:account]. *)
Definition bucket_info (acct : string) : state -> page * state :=
  run (match bucketConfig W !! acct with
       | None => ret (PageJsonError 400 "Invalid account")
       | Some _ =>
           let* bucketInfo := lift (getBucketInfo acct) in
           match bucketInfo with
           | Described None => ret (PageJsonError 500 "Failed to get bucket info")
           | _ =>
               let* files := lift (listFiles acct) in
               let totalSize := total_size files in
               let bucketQuota := quota_of bucketInfo in
               ret (BucketUsage
                      {| us_bucketName := name_of bucketInfo;
                         us_bucketType := type_of bucketInfo;
                         us_totalFiles := List.length files;
                         us_totalSize := totalSize;
                         us_bucketQuota := bucketQuota;
                         us_usedPercentage := used totalSize bucketQuota |})
           end
       end)
      (fun message => PageJsonError 500 message).

(** The loop of [GET /] over the accounts.  Neither [listFiles] nor
    [getBucketInfo] throws, so the [catch] of the loop body is never
    entered. *)
Fixpoint home_accounts (accounts : list string) (allFiles : list fileView)
    (bucketInfos : list (string * usage))
    : M state (list fileView * list (string * usage)) :=
  match accounts with
  | [] => ret (allFiles, bucketInfos)
  | account :: rest =>
      let* files := lift (listFiles account) in
      let allFiles := allFiles ++ files in
      let* bucketInfo := lift (getBucketInfo account) in
      let totalSize := total_size files in
      let summary :=
        match bucketInfo with
        | Described None =>
            {| us_bucketName := Some account; us_bucketType := None;
               us_totalFiles := List.length files; us_totalSize := totalSize;
               us_bucketQuota := None; us_usedPercentage := None |}
        | _ =>
            let bucketQuota := quota_of bucketInfo in
            {| us_bucketName :=
                 Some (if Js.truthy (name_of bucketInfo)
                       then Js.template (name_of bucketInfo) else account);
               us_bucketType := None;
               us_totalFiles := List.length files; us_totalSize := totalSize;
               us_bucketQuota := bucketQuota;
               us_usedPercentage := used totalSize bucketQuota |}
        end in
      home_accounts rest allFiles (bucketInfos ++ [(account, summary)])
  end.

(** [GET /]. *)
Definition home : state -> page * state :=
  run (let accountList := keys (bucketConfig W) in
       let* collected := home_accounts accountList [] [] in
       ret (HomePage accountList
              (JsArray.sort newest_first (fst collected)) (snd collected)))
      (fun message => PageText 500 ("Internal Server Error: " +:+ message)).

(** The boundary operations of the gateway on one account, each run
    from its first statement to its answer, and what they answer. *)
Inductive operation :=
| List (acct : string)
| Upload (b : upload_body)
| Rename (b : rename_body)
| Delete (b : delete_body)
| Serve (acct filename : string).

Inductive result :=
| Files (files : list fileView)
| Reply (r : reply).

Definition perform (op : operation) (st : state) : result * state :=
  match op with
  | List acct => let (files, st') := listFiles acct st in (Files files, st')
  | Upload b => let (r, st') := upload b st in (Reply r, st')
  | Rename b => let (r, st') := rename_file b st in (Reply r, st')
  | Delete b => let (r, st') := delete_file b st in (Reply r, st')
  | Serve acct filename => let (r, st') := serve_file acct filename st in (Reply r, st')
  end.
End Handlers.

(** The functions of the gateway that call the store: the operations on
    one account and [getBucketInfo].  The two pages only invoke
    [listFiles] and [getBucketInfo]. *)
Inductive invocation :=
| Operation (op : operation)
| BucketInfo (acct : string).

Inductive returned :=
| Answer (r : result)
| Info (i : info).

Definition invoke (W : World) (i : invocation) (st : state) : returned * state :=
  match i with
  | Operation op => let (r, st') := perform W op st in (Answer r, st')
  | BucketInfo acct => let (i, st') := getBucketInfo W acct st in (Info i, st')
  end.

(** Invocations run one after the other: the state they leave. *)
Definition invoke_all (W : World) (invocations : list invocation) (st : state)
    : state :=
  List.fold_left (fun st i => snd (invoke W i st)) invocations st.

(** What [GET /] invokes: for each account in turn its listing, then its
    bucket description. *)
Definition home_invocations (W : World) : list invocation :=
  List.flat_map (fun acct => [Operation (List acct); BucketInfo acct])
                (keys (bucketConfig W)).

(** What [GET /api/bucket-info/:account] invokes from state [st]: nothing
    for an account it refuses, the bucket description, and then the
    listing unless the description is [null]. *)
Definition bucket_info_invocations (W : World) (acct : string) (st : state)
    : list invocation :=
  match bucketConfig W !! acct with
  | None => []
  | Some _ =>
      match fst (getBucketInfo W acct st) with
      | Described None => [BucketInfo acct]
      | _ => [BucketInfo acct; Operation (List acct)]
      end
  end.

(** The account a mutating operation acts on. *)
Definition mutated_account (op : operation) : option string :=
  match op with
  | Upload b => present (up_account b)
  | Rename b => present (rn_account b)
  | Delete b => present (dl_account b)
  | List _ | Serve _ _ => None
  end.

Definition succeeded (r : result) : bool :=
  match r with
  | Reply (UploadSuccess _ _ _ _) | Reply (RenameSuccess _ _ _ _)
  | Reply DeleteSuccess | Reply (Redirect _) => true
  | _ => false
  end.

(** An operation that surfaces a failure: an error status, or the empty
    listing of [listFiles]. *)
Definition failed (r : result) : bool :=
  match r with
  | Files [] => true
  | Reply (JsonError _ _) | Reply (SendText _ _) => true
  | _ => false
  end.

(** A function of the gateway that surfaces a failure to its caller: a
    handler answers status 500, [listFiles] returns the empty list,
    [getBucketInfo] a made-up description. *)
Definition surfaced (r : returned) : bool :=
  match r with
  | Answer (Files files) => bool_decide (files = [])
  | Answer (Reply (JsonError status _)) | Answer (Reply (SendText status _)) =>
      (status =? 500)%N
  | Answer (Reply _) => false
  | Info (Placeholder _) => true
  | Info (Described _) => false
  end.

(** The ways the [try] block of [listFiles] fails from state [st0],
    reaching state [st1]: the authorization fails, the listing is
    answered with a status outside 2xx, or anything else throws. *)
Inductive listing_failure (W : World) (acct : string) (st0 : state) : state -> Prop :=
| Unauthorized message st1 :
    getAuthToken W acct st0 = (Throw message, st1) ->
    listing_failure W acct st0 st1
| BadStatus authData st1 bucket r :
    getAuthToken W acct st0 = (Return authData, st1) ->
    bucketId_of W acct st1 = (Return bucket, st1) ->
    on_list W (calls st1)
      (ListFileNames (apiUrl authData) (authorizationToken authData) bucket
         "files/" 1000) = Resolves r ->
    ok r = false ->
    listing_failure W acct st0
      (log (ListFileNames (apiUrl authData) (authorizationToken authData) bucket
              "files/" 1000) st1)
| Thrown message st1 :
    listFiles_fetch W acct ("files_" +:+ acct) st0 = (Throw message, st1) ->
    listing_failure W acct st0 st1.

(** Newest first. *)
Definition newer_or_equal (a b : fileView) : Prop :=
  (uploadTimestamp b <= uploadTimestamp a)%Z.

(** Newest first, and storage keys ascending among equal timestamps. *)
Definition newer_then_by_key (a b : fileView) : Prop :=
  (uploadTimestamp b < uploadTimestamp a)%Z
  \/ (uploadTimestamp a = uploadTimestamp b
      /\ String.leb (fullFileName a) (fullFileName b) = true).

(** Storage keys ascending. *)
Definition key_ascending (a b : fileView) : Prop :=
  String.leb (fullFileName a) (fullFileName b) = true.

(** Every cached listing is newest first. *)
Definition cache_sorted (st : state) : Prop :=
  forall k stamp files,
    fileListCache st !! k = Some (stamp, files) ->
    Sorted.StronglySorted newer_or_equal files.

(** The entries of a listing uploaded at [t], in their order. *)
Definition uploaded_at (t : Z) (l : list fileView) : list fileView :=
  List.filter (fun v => (uploadTimestamp v =? t)%Z) l.

(** The calls made between two states of the process, newest first. *)
Definition new_calls (st st' : state) : list request :=
  List.firstn (List.length (calls st') - List.length (calls st)) (calls st').

(** What an invalidate-and-retry policy would leave in the history of an
    operation: a new authorization, and a second call of the endpoint
    that was rejected. *)
Definition reauthorized (st st' : state) : Prop :=
  exists keyId applicationKey,
    In (AuthorizeAccount keyId applicationKey) (new_calls st st').

Definition retried_once (e : endpoint) (st st' : state) : Prop :=
  List.length
    (List.filter (fun r => bool_decide (endpoint_of r = e)) (new_calls st st'))
  = 2%nat.

(** The keys the [b2_copy_file] calls of a history copy to. *)
Definition copy_targets (h : list request) : list string :=
  List.flat_map (fun r => match r with
                          | CopyFile _ _ _ fileName _ => [fileName]
                          | _ => []
                          end) h.

End Gateway.

(** ** The metadata server of [src/models/File.js]

    The second document of that file is the Express server working on the
    [File] and [Folder] collections.  The document store, the file system
    holding staged uploads and the ffmpeg tools are external: the world
    answers for them. *)
Module Server.
Import B2 Eff.
Local Open Scope eff_scope.

(** A document of the [Folder] collection. *)
Record folder := {
  f_id : N;
  name : string;
  parent : option N;
  path : string;
  f_account : string
}.

(** The [folder] path of a [File] document: [null], an ObjectId (a number
    of twelve bytes), or a text that could not be cast to one, which the
    document keeps until [save] reports it. *)
Inductive reference :=
| NoFolder
| InFolder (id : N)
| NotAnId (text : string).

(** The [duration] path of a [File] document when it is not [null]: a
    number, or a text that could not be cast to one, which the document
    keeps until [save] reports it. *)
Inductive measure :=
| Seconds (q : Q)
| NotANumber (text : string).

(** A document of the [File] collection. *)
Record fileRecord := {
  r_id : N;
  title : string;
  fileName : string;
  fullFileName : string;
  fileId : option string;
  size : N;
  contentType : string;
  account : string;
  url : string;
  thumbnailUrl : option string;
  folderRef : reference;
  duration : option measure;
  uploadTimestamp : N
}.

(** What [ffmpeg.ffprobe] hands to its callback: an error, or the
    metadata, of which the handler reads [format.duration]: a number, a
    text that is no number (ffprobe prints [N/A] for a duration it does
    not know; the decimal numerals have been turned into numbers), or
    nothing. *)
Inductive probe :=
| ProbeFails (message : string)
| Probed (duration : option measure).

Record World := {
  b2 :> B2.World;
  (** a failure of the n-th operation sent to the document store *)
  db_error : nat -> option string;
  (** [$regex] matching of the document store *)
  regex_test : string -> string -> bool;
  (** [ffmpeg.ffprobe(filePath)] *)
  ffprobe : string -> probe;
  (** [ffmpeg(filePath).screenshots]: the image written, or an error *)
  screenshots : string -> option string;
  (** the driver also reads a text of twelve bytes as an ObjectId
      (bson before version 5) *)
  twelve_byte_ids : bool;
  (** what the message of a failed cast says after the path (nothing,
      or [ because of <the name of the error behind it>]), for an
      ObjectId and for a number *)
  cast_reason : string;
  number_cast_reason : string
}.

Record state := {
  authTokenCache : gmap string authData;
  calls : list request;
  ticks : nat;
  dbOps : nat;
  nextId : N;
  files : list fileRecord;
  folders : list folder;
  tempFiles : gmap string string
}.

Definition set_authTokenCache (f : gmap string authData -> gmap string authData)
    (st : state) : state :=
  {| authTokenCache := f (authTokenCache st); calls := calls st; ticks := ticks st;
     dbOps := dbOps st; nextId := nextId st; files := files st;
     folders := folders st; tempFiles := tempFiles st |}.

Definition log (r : request) (st : state) : state :=
  {| authTokenCache := authTokenCache st; calls := r :: calls st; ticks := ticks st;
     dbOps := dbOps st; nextId := nextId st; files := files st;
     folders := folders st; tempFiles := tempFiles st |}.

Definition tick (st : state) : state :=
  {| authTokenCache := authTokenCache st; calls := calls st; ticks := S (ticks st);
     dbOps := dbOps st; nextId := nextId st; files := files st;
     folders := folders st; tempFiles := tempFiles st |}.

Definition db_tick (st : state) : state :=
  {| authTokenCache := authTokenCache st; calls := calls st; ticks := ticks st;
     dbOps := S (dbOps st); nextId := nextId st; files := files st;
     folders := folders st; tempFiles := tempFiles st |}.

Definition fresh_id (st : state) : state :=
  {| authTokenCache := authTokenCache st; calls := calls st; ticks := ticks st;
     dbOps := dbOps st; nextId := N.succ (nextId st); files := files st;
     folders := folders st; tempFiles := tempFiles st |}.

Definition set_files (f : list fileRecord -> list fileRecord) (st : state) : state :=
  {| authTokenCache := authTokenCache st; calls := calls st; ticks := ticks st;
     dbOps := dbOps st; nextId := nextId st; files := f (files st);
     folders := folders st; tempFiles := tempFiles st |}.

Definition set_folders (f : list folder -> list folder) (st : state) : state :=
  {| authTokenCache := authTokenCache st; calls := calls st; ticks := ticks st;
     dbOps := dbOps st; nextId := nextId st; files := files st;
     folders := f (folders st); tempFiles := tempFiles st |}.

Definition set_tempFiles (f : gmap string string -> gmap string string)
    (st : state) : state :=
  {| authTokenCache := authTokenCache st; calls := calls st; ticks := ticks st;
     dbOps := dbOps st; nextId := nextId st; files := files st;
     folders := folders st; tempFiles := f (tempFiles st) |}.

(** [limits.fileSize] handed to multer, whose middleware stages the file
    under the temporary directory before the upload handler runs. *)
Definition upload_fileSize_limit : N := 1000 * 1024 * 1024.

(** Key derivation of [POST /upload]: the case of the title is kept and
    the extension comes from [path.extname]. *)
Definition fileTitle (title : option string) (originalname : string) : string :=
  match title with
  | Some t => if String.eqb t "" then Js.basename originalname (Js.extname originalname)
              else t
  | None => Js.basename originalname (Js.extname originalname)
  end.

Definition upload_filename (fileTitle : string) (timestamp : N) : string :=
  Js.replace_non_alnum fileTitle +:+ "_" +:+ Js.decimal timestamp.

Definition upload_fullFilename (fileTitle originalname : string) (timestamp : N)
    : string :=
  upload_filename fileTitle timestamp +:+ Js.extname originalname.

Definition upload_b2FileName (fileTitle originalname : string) (timestamp : N)
    : string :=
  "files/" +:+ upload_fullFilename fileTitle originalname timestamp.

Definition hex_digit (c : ascii) : option N :=
  let n := Js.code c in
  if Js.is_digit c then Some (n - 48)%N
  else if (97 <=? n)%N && (n <=? 102)%N then Some (n - 87)%N
  else if (65 <=? n)%N && (n <=? 70)%N then Some (n - 55)%N
  else None.

Fixpoint hex_value (s : string) (acc : N) : option N :=
  match s with
  | EmptyString => Some acc
  | String c s' =>
      match hex_digit c with
      | Some d => hex_value s' (16 * acc + d)%N
      | None => None
      end
  end.

(** The bytes of a text whose code units are all below 128. *)
Fixpoint byte_value (s : string) (acc : N) : option N :=
  match s with
  | EmptyString => Some acc
  | String c s' =>
      if (Js.code c <? 128)%N then byte_value s' (256 * acc + Js.code c)%N else None
  end.

(** The cast of a text to an ObjectId: 24 hexadecimal digits, or, with an
    older driver, twelve bytes. *)
Definition castObjectId (twelve_bytes : bool) (text : string) : option N :=
  if (String.length text =? 24)%nat then hex_value text 0
  else if twelve_bytes && (String.length text =? 12)%nat then byte_value text 0
  else None.

(** The [folder] a [File] document is created with. *)
Definition folder_of_text (twelve_bytes : bool) (folderId : option string)
    : reference :=
  match folderId with
  | Some text =>
      if String.eqb text "null" then NoFolder
      else match castObjectId twelve_bytes text with
           | Some id => InFolder id
           | None => NotAnId text
           end
  | None => NoFolder
  end.

(** Schema validation run by [save] on the modified fields: a required
    string must be present and non-empty.  [path] is modified wherever a
    folder is saved, [name] on creation and on rename. *)
Definition validate_folder (name_modified : bool) (f : folder) : option string :=
  if name_modified && String.eqb (name f) ""
  then Some "Folder validation failed: name: Path `name` is required."
  else if String.eqb (path f) ""
  then Some "Folder validation failed: path: Path `path` is required."
  else None.

(** The error of a required path that is missing or empty. *)
Definition required (path : string) (present : bool) : list string :=
  if present then [] else [path +:+ ": Path `" +:+ path +:+ "` is required."].

(** The error of a text that could not be cast (a text that
    [util.inspect] prints as it is). *)
Definition cast_error (path type text reason : string) : string :=
  path +:+ ": Cast to " +:+ type +:+ " failed for value " +:+ Js.dquote +:+ text
    +:+ Js.dquote +:+ " (type string) at path " +:+ Js.dquote +:+ path
    +:+ Js.dquote +:+ reason.

(** What [save] finds wrong with a [File] document: the casts that
    failed when its paths were set, in the order they were set ([folder]
    on creation, [duration] after the probe), then the required paths in
    the order of the schema.  [size] is a number wherever a document is
    made. *)
Definition file_errors (reason number_reason : string) (r : fileRecord)
    : list string :=
  match folderRef r with
  | NotAnId text => [cast_error "folder" "ObjectId" text reason]
  | _ => []
  end
  ++ match duration r with
     | Some (NotANumber text) => [cast_error "duration" "Number" text number_reason]
     | _ => []
     end
  ++ required "title" (negb (String.eqb (title r) ""))
  ++ required "fileName" (negb (String.eqb (fileName r) ""))
  ++ required "fullFileName" (negb (String.eqb (fullFileName r) ""))
  ++ required "fileId" (Js.truthy (fileId r))
  ++ required "contentType" (negb (String.eqb (contentType r) ""))
  ++ required "account" (negb (String.eqb (account r) ""))
  ++ required "url" (negb (String.eqb (url r) "")).

(** The validation of [save]: one error naming every failing path. *)
Definition validate_file (W : World) (r : fileRecord) : option string :=
  match file_errors (cast_reason W) (number_cast_reason W) r with
  | [] => None
  | errors => Some ("File validation failed: " +:+ Js.join ", " errors)
  end.

(** Writing a document back: in place when its id is stored, appended
    otherwise. *)
Fixpoint upsert {A} (id_of : A -> N) (x : A) (l : list A) : list A :=
  match l with
  | [] => [x]
  | y :: l' => if (id_of y =? id_of x)%N then x :: l' else y :: upsert id_of x l'
  end.

Definition with_name (f : folder) (n : string) : folder :=
  {| f_id := f_id f; name := Js.trim n; parent := parent f; path := path f;
     f_account := f_account f |}.

Definition with_path (f : folder) (p : string) : folder :=
  {| f_id := f_id f; name := name f; parent := parent f; path := p;
     f_account := f_account f |}.

Definition with_duration (r : fileRecord) (d : measure) : fileRecord :=
  {| r_id := r_id r; title := title r; fileName := fileName r;
     fullFileName := fullFileName r; fileId := fileId r; size := size r;
     contentType := contentType r; account := account r; url := url r;
     thumbnailUrl := thumbnailUrl r; folderRef := folderRef r;
     duration := Some d; uploadTimestamp := uploadTimestamp r |}.

Definition with_thumbnailUrl (r : fileRecord) (u : string) : fileRecord :=
  {| r_id := r_id r; title := title r; fileName := fileName r;
     fullFileName := fullFileName r; fileId := fileId r; size := size r;
     contentType := contentType r; account := account r; url := url r;
     thumbnailUrl := Some u; folderRef := folderRef r;
     duration := duration r; uploadTimestamp := uploadTimestamp r |}.

Inductive reply :=
| JsonError (status : N) (error : string)
| FolderCreated (f : folder)
| FolderRenamed (f : folder)
| FileCreated (r : fileRecord).

Record uploadedFile := {
  originalname : string;
  mimetype : string;
  file_path : string;
  file_size : N
}.

Record upload_body := {
  up_account : option string;
  up_title : option string;
  up_folderId : option string;
  up_file : option uploadedFile
}.

Record create_folder_body := {
  cf_name : option string;
  cf_parent : option N;
  cf_account : option string
}.

Section Handlers.
Variable W : World.

Definition now : M state N :=
  fun st => (Return (Date_now W (ticks st)), tick st).

Definition fetch {A} (oracle : list request -> request -> fetched A)
    (r : request) : M state (response A) :=
  fun st =>
    match oracle (calls st) r with
    | Rejects message => (Throw message, log r st)
    | Resolves resp => (Return resp, log r st)
    end.

Definition json {A} (r : response A) : M state A :=
  match payload r with
  | Json a => ret a
  | Malformed message => throw message
  end.

Definition bucketId_of (acct : string) : M state (option string) :=
  match bucketConfig W !! acct with
  | Some cfg => ret (bucketId cfg)
  | None => throw "Cannot read properties of undefined (reading 'bucketId')"
  end.

(** One round trip to the document store. *)
Definition db {A} (op : state -> A * state) : M state A :=
  fun st =>
    match db_error W (dbOps st) with
    | Some message => (Throw message, db_tick st)
    | None => let (a, st') := op (db_tick st) in (Return a, st')
    end.

Definition new_id : M state N :=
  fun st => (Return (nextId st), fresh_id st).

Definition Folder_findById (id : N) : M state (option folder) :=
  db (fun st => (List.find (fun f => (f_id f =? id)%N) (folders st), st)).

(** [Folder.find({ path: { $regex: pattern } })]. *)
Definition Folder_find_path_regex (pattern : string) : M state (list folder) :=
  db (fun st => (List.filter (fun f => regex_test W pattern (path f)) (folders st), st)).

Definition Folder_save (name_modified : bool) (f : folder) : M state unit :=
  match validate_folder name_modified f with
  | Some message => throw message
  | None => db (fun st => (tt, set_folders (upsert f_id f) st))
  end.

Definition File_save (r : fileRecord) : M state unit :=
  match validate_file W r with
  | Some message => throw message
  | None => db (fun st => (tt, set_files (upsert r_id r) st))
  end.

Definition readFileSync (p : string) : M state string :=
  let* content := gets (fun st => tempFiles st !! p) in
  match content with
  | Some data => ret data
  | None => throw ("ENOENT: no such file or directory, open '" +:+ p +:+ "'")
  end.

Definition existsSync (p : string) : M state bool :=
  gets (fun st => bool_decide (is_Some (tempFiles st !! p))).

Definition unlinkSync (p : string) : M state unit :=
  let* present := existsSync p in
  if present then modify (set_tempFiles (delete p))
  else throw ("ENOENT: no such file or directory, unlink '" +:+ p +:+ "'").

Definition getAuthToken (acct : string) : M state authData :=
  let* cached := gets (fun st => authTokenCache st !! acct) in
  match cached with
  | Some authData => ret authData
  | None =>
      let* keys :=
        if String.eqb acct "account1"
        then ret (env W "ACCOUNT1_KEY_ID", env W "ACCOUNT1_APPLICATION_KEY")
        else if String.eqb acct "account2"
        then ret (env W "ACCOUNT2_KEY_ID", env W "ACCOUNT2_APPLICATION_KEY")
        else throw "Invalid account" in
      let* authResponse :=
        fetch (on_authorize W) (AuthorizeAccount (fst keys) (snd keys)) in
      if negb (ok authResponse) then throw "Failed to authenticate with B2"
      else
        let* authData := json authResponse in
        do modify (set_authTokenCache (insert acct authData)) then
        ret authData
  end.

Definition uploadFileToB2 (acct fileData fileName contentType : string)
    : M state fileInfo :=
  try_catch
    (let* authData := getAuthToken acct in
     let* bucket := bucketId_of acct in
     let* uploadUrlResponse :=
       fetch (on_get_upload_url W)
             (GetUploadUrl (apiUrl authData) (authorizationToken authData) bucket) in
     if negb (ok uploadUrlResponse)
     then throw "Failed to get upload URL from B2"
     else
       let* uploadUrlData := json uploadUrlResponse in
       let* uploadResponse :=
         fetch (on_upload W)
               (UploadFile (uploadUrl uploadUrlData)
                  (uploadAuthorizationToken uploadUrlData)
                  fileName contentType fileData) in
       if negb (ok uploadResponse)
       then throw "Failed to upload file to B2"
       else json uploadResponse)
    (fun message => throw message).

Definition deleteFileFromB2 (acct : string) (fileId : option string)
    (fileName : string) : M state unit :=
  try_catch
    (let* authData := getAuthToken acct in
     let* deleteResponse :=
       fetch (on_delete W)
             (DeleteFileVersion (apiUrl authData) (authorizationToken authData)
                fileId fileName) in
     if negb (ok deleteResponse)
     then throw "Failed to delete file from B2"
     else json deleteResponse)
    (fun message => throw message).

(** The promise always resolves: with [null] when the probe errors. *)
Definition getVideoDuration (filePath : string) : M state (option measure) :=
  ret (match ffprobe W filePath with
       | ProbeFails _ => None
       | Probed duration => duration
       end).

(** The promise always resolves: with [null] when ffmpeg errors or the
    thumbnail cannot be uploaded.  The screenshot is written next to the
    staged upload, under its name followed by [_thumb.jpg]. *)
Definition generateVideoThumbnail (filePath acct outputFileName : string)
    : M state (option fileInfo) :=
  let thumbnailPath := filePath +:+ "_thumb.jpg" in
  match screenshots W filePath with
  | None => ret None
  | Some image =>
      do modify (set_tempFiles (insert thumbnailPath image)) then
      try_catch
        (let* thumbnailData := readFileSync thumbnailPath in
         let* uploadResult :=
           uploadFileToB2 acct thumbnailData ("thumbnails/" +:+ outputFileName)
                          "image/jpeg" in
         do unlinkSync thumbnailPath then
         ret (Some uploadResult))
        (fun _ => ret None)
  end.

(** The video branch of [POST /upload].  Both helpers resolve in every
    case, so the [catch] is never entered with a record already
    changed.  A truthy duration is set on the record, where a text fails
    the cast to a number. *)
Definition enrich (file : uploadedFile) (acct filename : string)
    (record : fileRecord) : M state fileRecord :=
  if Js.startsWith (mimetype file) "video/" then
    try_catch
      (let* probed := getVideoDuration (file_path file) in
       let record1 :=
         match probed with
         | Some (Seconds seconds) =>
             if Qeq_bool seconds 0 then record
             else with_duration record (Seconds seconds)
         | Some (NotANumber text) =>
             if String.eqb text "" then record
             else with_duration record (NotANumber text)
         | None => record
         end in
       let thumbnailFileName := filename +:+ ".jpg" in
       let* thumbnailResult :=
         generateVideoThumbnail (file_path file) acct thumbnailFileName in
       ret (match thumbnailResult with
            | Some _ =>
                with_thumbnailUrl record1
                  ("/thumbnails/" +:+ acct +:+ "/" +:+ thumbnailFileName)
            | None => record1
            end))
      (fun _ => ret record)
  else ret record.

(** Steps 1 and 2 of [POST /upload]: the key, the transfer and the
    record to be saved, with the file name the thumbnail derives from. *)
Definition stage (acct : string) (title folderId : option string)
    (file : uploadedFile) : M state (string * fileRecord) :=
  let fileTitle := fileTitle title (originalname file) in
  let* timestamp := now in
  let filename := upload_filename fileTitle timestamp in
  let fullFilename := upload_fullFilename fileTitle (originalname file) timestamp in
  let b2FileName := upload_b2FileName fileTitle (originalname file) timestamp in
  let* fileData := readFileSync (file_path file) in
  let* uploadResult :=
    uploadFileToB2 acct fileData b2FileName
      (if String.eqb (mimetype file) "" then "application/octet-stream"
       else mimetype file) in
  let fileUrl := "/files/" +:+ acct +:+ "/" +:+ fullFilename in
  let* id := new_id in
  ret (filename,
       {| r_id := id; title := Js.trim fileTitle; fileName := fullFilename;
          fullFileName := b2FileName; fileId := fi_fileId uploadResult;
          size := file_size file; contentType := mimetype file; account := acct;
          url := fileUrl; thumbnailUrl := None;
          folderRef := folder_of_text (twelve_byte_ids W) folderId;
          duration := None; uploadTimestamp := timestamp |}).

(** Step 4 of [POST /upload]. *)
Definition commit (file : uploadedFile) (record : fileRecord) : M state reply :=
  do File_save record then
  do unlinkSync (file_path file) then
  ret (FileCreated record).

(** The [try] block of [POST /upload] once the request is validated. *)
Definition upload_body_of (acct : string) (title folderId : option string)
    (file : uploadedFile) : M state reply :=
  let* staged := stage acct title folderId file in
  let* record := enrich file acct (fst staged) (snd staged) in
  commit file record.

(** [POST /upload]. *)
Definition upload (b : upload_body) : state -> reply * state :=
  run (match Gateway.present (up_account b), up_file b with
       | Some acct, Some file =>
           match bucketConfig W !! acct with
           | None => ret (JsonError 400 "Invalid account selected")
           | Some _ =>
               try_catch
                 (upload_body_of acct (up_title b) (up_folderId b) file)
                 (fun message =>
                    let* staged := existsSync (file_path file) in
                    do (if staged then unlinkSync (file_path file) else ret tt) then
                    ret (JsonError 500 message))
           end
       | _, _ => ret (JsonError 400 "Missing required fields")
       end)
      (fun message => JsonError 500 message).

(** [POST /api/folders]. *)
Definition create_folder (b : create_folder_body) : state -> reply * state :=
  run (match Gateway.present (cf_name b) with
       | None => ret (JsonError 400 "Name is required")
       | Some name =>
           let folderAccount :=
             match Gateway.present (cf_account b) with
             | Some a => a
             | None => "account1"
             end in
           let* located :=
             match cf_parent b with
             | Some parent =>
                 let* parentFolder := Folder_findById parent in
                 match parentFolder with
                 | None => ret None
                 | Some parentFolder => ret (Some (path parentFolder +:+ "/" +:+ name))
                 end
             | None => ret (Some name)
             end in
           match located with
           | None => ret (JsonError 404 "Parent folder not found")
           | Some path =>
               let* id := new_id in
               let folder :=
                 {| f_id := id; name := Js.trim name; parent := cf_parent b;
                    path := path; f_account := folderAccount |} in
               do Folder_save true folder then
               ret (FolderCreated folder)
           end
       end)
      (fun message => JsonError 500 message).

(** The loop of [updateSubfolderPaths] over the folders found. *)
Fixpoint update_each (oldPath newPath : string) (subfolders : list folder)
    : M state unit :=
  match subfolders with
  | [] => ret tt
  | subfolder :: rest =>
      do Folder_save false
           (with_path subfolder (Js.replace (path subfolder) oldPath newPath)) then
      update_each oldPath newPath rest
  end.

Definition updateSubfolderPaths (oldPath newPath : string) : M state unit :=
  let* subfolders := Folder_find_path_regex ("^" +:+ oldPath +:+ "/") in
  update_each oldPath newPath subfolders.

(** [PUT /api/folders/:id]. *)
Definition rename_folder (id : N) (name : option string) : state -> reply * state :=
  run (match Gateway.present name with
       | None => ret (JsonError 400 "Name is required")
       | Some name =>
           let* found := Folder_findById id in
           match found with
           | None => ret (JsonError 404 "Folder not found")
           | Some folder =>
               let oldPath := path folder in
               let* newPath :=
                 match parent folder with
                 | Some p =>
                     let* parentFolder := Folder_findById p in
                     match parentFolder with
                     | Some parentFolder => ret (path parentFolder +:+ "/" +:+ name)
                     | None => throw "Cannot read properties of null (reading 'path')"
                     end
                 | None => ret name
                 end in
               let folder := with_path (with_name folder name) newPath in
               do Folder_save true folder then
               do updateSubfolderPaths oldPath newPath then
               ret (FolderRenamed folder)
           end
       end)
      (fun message => JsonError 500 message).
End Handlers.

(** The document store matches a pattern [^p/] without metacharacters
    against the texts that start with [p/]. *)
Definition literal_engine (W : World) : Prop :=
  forall p s,
    Js.literal p = true ->
    regex_test W ("^" +:+ p +:+ "/") s = String.prefix (p +:+ "/") s.

(** The path a rename to [n] gives the folder itself. *)
Definition renamed_path (fs : list folder) (f : folder) (n : string) : string :=
  match parent f with
  | Some p =>
      match List.find (fun g => (f_id g =? p)%N) fs with
      | Some pf => path pf +:+ "/" +:+ n
      | None => n
      end
  | None => n
  end.

(** The renamed folder as it is saved. *)
Definition renamed_self (fs : list folder) (f : folder) (n : string) : folder :=
  with_path (with_name f n) (renamed_path fs f n).

(** The folder a rename turns [g] into: the renamed folder itself, a
    folder below the old path (its prefix replaced), or [g] untouched. *)
Definition renamed (id : N) (oldPath : string) (f' : folder) (g : folder) : folder :=
  if String.prefix (oldPath +:+ "/") (path g)
  then with_path g (path f' +:+ Js.drop (String.length oldPath) (path g))
  else if (f_id g =? id)%N then f' else g.

(** The store after the documents [us] were written back in turn. *)
Definition save_all (us fs : list folder) : list folder :=
  List.fold_left (fun acc u => upsert f_id u acc) us fs.

(** No [b2_delete_file_version] call was made between two states. *)
Definition no_delete_since (st st' : state) : Prop :=
  forall q,
    In q (calls st') -> endpoint_of q = b2_delete_file_version -> In q (calls st).

(** The path every folder should carry: its parent's path, a slash and
    its name, or its name alone at the root. *)
Definition expected_path (fs : list folder) (f : folder) : option string :=
  match parent f with
  | Some p =>
      match List.find (fun g => (f_id g =? p)%N) fs with
      | Some pf => Some (path pf +:+ "/" +:+ name f)
      | None => None
      end
  | None => Some (name f)
  end.

Definition path_invariant (fs : list folder) : Prop :=
  Forall (fun f => expected_path fs f = Some (path f)) fs.

End Server.

(** ** Concrete worlds and requests *)
Module Scenario.
Import B2.

Definition ok200 {A} (a : A) : fetched A :=
  Resolves {| status := 200; payload := Json a |}.

Definition refused {A} (code : N) : fetched A :=
  Resolves {| status := code; payload := Malformed "Unexpected token" |}.

Definition session : authData :=
  {| apiUrl := "https://api001.backblazeb2.com";
     downloadUrl := "https://f001.backblazeb2.com";
     authorizationToken := "token-1" |}.

Definition picture (key : string) (stamp : Z) : remoteFile :=
  {| rf_fileName := key; rf_fileId := "id-" +:+ key; rf_size := 10;
     rf_uploadTimestamp := stamp; rf_contentType := "image/png" |}.

(** A store where every call succeeds; the clock stands at
    1700000000000 ms and advances by one per reading. *)
Definition steady : World :=
  {| Date_now := fun n => (1700000000000 + N.of_nat n)%N;
     env := fun _ => Some "key";
     bucketConfig :=
       {| own := [("account1",
                   Some {| bucketId := Some "bucket-1"; bucketName := Some "media" |})] |};
     on_authorize := fun _ _ => ok200 session;
     on_list := fun _ _ =>
       ok200 [picture "files/b_1.png" 5; picture "files/a_1.png" 5;
              picture "files/c_2.png" 9];
     on_get_upload_url := fun _ _ =>
       ok200 {| uploadUrl := "https://pod.backblazeb2.com/upload";
                uploadAuthorizationToken := "upload-token" |};
     on_upload := fun _ _ => ok200 {| fi_fileId := Some "Y" |};
     on_copy := fun _ _ => ok200 {| fi_fileId := Some "Z" |};
     on_delete := fun _ _ => ok200 tt;
     on_download_auth := fun _ _ => ok200 {| da_authorizationToken := "dl-token" |};
     on_bucket_info := fun _ _ =>
       ok200 (Some {| bi_bucketName := Some "media"; bi_bucketType := Some "allPrivate";
                      bi_capExceeded := Some false;
                      bi_capacityBytes := Some 1000%N |}) |}.

(** The same store once the cached token has expired: listings are
    answered 401. *)
Definition expired : World :=
  {| Date_now := Date_now steady;
     env := env steady;
     bucketConfig := bucketConfig steady;
     on_authorize := on_authorize steady;
     on_list := fun _ _ => refused 401;
     on_get_upload_url := on_get_upload_url steady;
     on_upload := on_upload steady;
     on_copy := on_copy steady;
     on_delete := on_delete steady;
     on_download_auth := on_download_auth steady;
     on_bucket_info := on_bucket_info steady |}.

(** A gateway that has just started. *)
Definition idle : Gateway.state :=
  {| Gateway.authTokenCache := ∅; Gateway.fileListCache := ∅;
     Gateway.bucketInfoCache := ∅; Gateway.calls := []; Gateway.ticks := 0 |}.

(** A gateway holding a token and a listing cached at 1699999999000. *)
Definition warm : Gateway.state :=
  {| Gateway.authTokenCache := {[ "account1" := session ]};
     Gateway.fileListCache :=
       {[ "files_account1" := (1699999999000%N, [Gateway.view "account1" (picture "files/old_1.png" 1)]) ]};
     Gateway.bucketInfoCache := ∅; Gateway.calls := []; Gateway.ticks := 0 |}.

(** A gateway holding a token and no listing. *)
Definition authorized : Gateway.state :=
  {| Gateway.authTokenCache := {[ "account1" := session ]};
     Gateway.fileListCache := ∅;
     Gateway.bucketInfoCache := ∅; Gateway.calls := []; Gateway.ticks := 0 |}.

Definition rename_a_to_b : Gateway.rename_body :=
  {| Gateway.rn_account := Some "account1"; Gateway.rn_fileId := Some "X";
     Gateway.rn_oldFileName := Some "a_111.png"; Gateway.rn_newTitle := Some "b" |}.

(** The regular expressions of the folder queries, on patterns without
    metacharacters: [^p] matches the texts that start with [p]. *)
Definition prefix_engine (pattern text : string) : bool :=
  String.prefix (Js.drop 1 pattern) text.

(** A metadata server whose store, tools and bucket all work. *)
Definition studio : Server.World :=
  {| Server.b2 := steady;
     Server.db_error := fun _ => None;
     Server.regex_test := prefix_engine;
     Server.ffprobe := fun _ => Server.Probed (Some (Server.Seconds (12 # 1)));
     Server.screenshots := fun _ => Some "jpeg-bytes";
     Server.twelve_byte_ids := false;
     Server.cast_reason := " because of " +:+ Js.dquote +:+ "BSONError" +:+ Js.dquote;
     Server.number_cast_reason :=
       " because of " +:+ Js.dquote +:+ "AssertionError" +:+ Js.dquote |}.


(** The same server whose document store is down. *)
Definition store_down : Server.World :=
  {| Server.b2 := steady;
     Server.db_error := fun _ => Some "MongoNetworkError: connection closed";
     Server.regex_test := prefix_engine;
     Server.ffprobe := Server.ffprobe studio;
     Server.screenshots := Server.screenshots studio;
     Server.twelve_byte_ids := false;
     Server.cast_reason := " because of " +:+ Js.dquote +:+ "BSONError" +:+ Js.dquote;
     Server.number_cast_reason :=
       " because of " +:+ Js.dquote +:+ "AssertionError" +:+ Js.dquote |}.

(** The same server whose store fails on its fifth operation. *)
Definition store_drops_fifth : Server.World :=
  {| Server.b2 := steady;
     Server.db_error := fun n =>
       if (n =? 4)%nat then Some "MongoNetworkError: connection closed" else None;
     Server.regex_test := prefix_engine;
     Server.ffprobe := Server.ffprobe studio;
     Server.screenshots := Server.screenshots studio;
     Server.twelve_byte_ids := false;
     Server.cast_reason := " because of " +:+ Js.dquote +:+ "BSONError" +:+ Js.dquote;
     Server.number_cast_reason :=
       " because of " +:+ Js.dquote +:+ "AssertionError" +:+ Js.dquote |}.

Definition folder_of (id : N) (name : string) (parent : option N) (path : string)
    : Server.folder :=
  {| Server.f_id := id; Server.name := name; Server.parent := parent;
     Server.path := path; Server.f_account := "account1" |}.

(** A server holding the folders [a], [a/x] and [a/y] and one staged
    upload. *)
Definition shelves : Server.state :=
  {| Server.authTokenCache := ∅; Server.calls := []; Server.ticks := 0;
     Server.dbOps := 0; Server.nextId := 10; Server.files := [];
     Server.folders :=
       [folder_of 1 "a" None "a"; folder_of 2 "x" (Some 1%N) "a/x";
        folder_of 3 "y" (Some 1%N) "a/y"];
     Server.tempFiles := {[ "temp/1700000000000-7-clip.mp4" := "mp4-bytes" ]} |}.

Definition clip : Server.uploadedFile :=
  {| Server.originalname := "clip.mp4"; Server.mimetype := "video/mp4";
     Server.file_path := "temp/1700000000000-7-clip.mp4"; Server.file_size := 9 |}.

Definition upload_clip : Server.upload_body :=
  {| Server.up_account := Some "account1"; Server.up_title := Some "Demo Video";
     Server.up_folderId := None; Server.up_file := Some clip |}.

End Scenario.

(** ** Texts and alphabets of the storage keys *)
Module Text.

(** [s] without its code units equal to [c]. *)
Fixpoint without (c : ascii) (s : string) : string :=
  match s with
  | EmptyString => EmptyString
  | String x s' => if Ascii.eqb x c then without c s' else String x (without c s')
  end.

(** No code unit of [s] is [c]. *)
Definition free_of (c : ascii) (s : string) : bool :=
  Js.every (fun x => negb (Ascii.eqb x c)) s.

(** The alphabet of a sanitised title. *)
Definition safe_char (c : ascii) : bool :=
  Js.is_lower c || Js.is_digit c || Ascii.eqb c "_".

(** The alphabet of a title sanitised with its case kept. *)
Definition word_char (c : ascii) : bool :=
  Js.is_lower c || Js.is_upper c || Js.is_digit c || Ascii.eqb c "_".

(** The layout the specification gives a storage key:
    [files/<sanitized-title>_<unixMillis>.<ext>]. *)
Definition layout (sanitized : string) (millis : N) (ext : string) : string :=
  "files/" +:+ sanitized +:+ "_" +:+ Js.decimal millis +:+ "." +:+ ext.

(** What sanitising makes of one code unit: a lower-case letter or a
    digit stays, a capital stays or, when the case is folded, becomes its
    lower-case letter, anything else becomes an underscore. *)
Definition sanitized_char (fold : bool) (c : ascii) : ascii :=
  if Js.is_lower c || Js.is_digit c then c
  else if Js.is_upper c then (if fold then ascii_of_N (Js.code c + 32) else c)
  else "_"%char.

(** [s] is the title [t] sanitised, code unit by code unit. *)
Definition sanitized (fold : bool) (t s : string) : Prop :=
  String.length s = String.length t
  /\ forall i c, String.get i t = Some c -> String.get i s = Some (sanitized_char fold c).

End Text.

(** ** The older copy of the gateway, [src/unnamed/part_000]

    Its token cache, upload and key derivation are those of
    [src/index.js]; its listing joins the parts of a file name with
    underscores before it turns them into spaces. *)
Module Legacy.
Import B2 Gateway.

(** The callback of [result.files.map] in [listFiles]. *)
Definition view (acct : string) (file : remoteFile) : fileView :=
  let filename := Js.replace (rf_fileName file) "files/" "" in
  let parts := Js.split "_" filename in
  {| fileName := filename;
     fullFileName := rf_fileName file;
     fileId := rf_fileId file;
     size := rf_size file;
     uploadTimestamp := rf_uploadTimestamp file;
     contentType := rf_contentType file;
     title := Js.underscores_to_spaces (Js.join "_" (Js.popped parts));
     url := "/files/" +:+ acct +:+ "/" +:+ filename;
     account := acct |}.

End Legacy.

(** ** Runs of gateway operations *)
Module Traffic.
Import B2 Gateway.

(** The account an operation names. *)
Definition account_of (op : operation) : option string :=
  match op with
  | List acct | Serve acct _ => Some acct
  | Upload b => present (up_account b)
  | Rename b => present (rn_account b)
  | Delete b => present (dl_account b)
  end.

(** The requests the process serves one after the other. *)
Fixpoint perform_all (W : World) (ops : list operation) (st : state)
    : list result * state :=
  match ops with
  | [] => ([], st)
  | op :: rest =>
      let (r, st1) := perform W op st in
      let (rs, st2) := perform_all W rest st1 in
      (r :: rs, st2)
  end.

Definition is_authorization (q : request) : bool :=
  bool_decide (endpoint_of q = b2_authorize_account).

(** The [b2_authorize_account] calls of a history. *)
Definition authorizations (h : list request) : list request :=
  List.filter is_authorization h.

(** The credentials a data call presents: the API host it is sent to and
    its [Authorization] header.  The authorization itself presents the
    account keys, the upload the token of its upload URL. *)
Definition credentials (q : request) : option (string * string) :=
  match q with
  | ListFileNames api auth _ _ _ | GetUploadUrl api auth _
  | CopyFile api auth _ _ _ | DeleteFileVersion api auth _ _
  | GetDownloadAuthorization api auth _ _ _
  | GetBucketInfo api auth _ => Some (api, auth)
  | AuthorizeAccount _ _ | UploadFile _ _ _ _ _ => None
  end.

(** The bucket a call names. *)
Definition bucket_named (q : request) : option (option string) :=
  match q with
  | ListFileNames _ _ b _ _ | GetUploadUrl _ _ b | CopyFile _ _ _ _ b
  | GetDownloadAuthorization _ _ b _ _ | GetBucketInfo _ _ b => Some b
  | AuthorizeAccount _ _ | UploadFile _ _ _ _ _ | DeleteFileVersion _ _ _ _ => None
  end.

(** The HTTP status of a reply: [res.json] answers 200 and
    [res.redirect] 302 unless a status was set. *)
Definition status_of_reply (r : reply) : N :=
  match r with
  | JsonError status _ | SendText status _ => status
  | UploadSuccess _ _ _ _ | RenameSuccess _ _ _ _ | DeleteSuccess => 200
  | Redirect _ => 302
  end.

End Traffic.

(** ** The catalogue routes of the metadata server

    The routes of [src/models/File.js] that work on stored documents:
    breadcrumbs, folder deletion, moving, deleting and renaming files, and
    the download redirects.  The ids of a request are ObjectIds, cast from
    their text before these definitions see them. *)
Module Catalog.
Import B2 Eff Server.
Local Open Scope eff_scope.

(** [{ folder: id }] and [{ parent: id }] as query filters. *)
Definition in_folder (id : N) (r : fileRecord) : bool :=
  match folderRef r with
  | InFolder f => (f =? id)%N
  | _ => false
  end.

Definition child_of (id : N) (f : folder) : bool :=
  match parent f with
  | Some p => (p =? id)%N
  | None => false
  end.

(** [deleteOne] by id: the first document that carries it. *)
Fixpoint delete_one {A} (id_of : A -> N) (id : N) (l : list A) : list A :=
  match l with
  | [] => []
  | y :: l' => if (id_of y =? id)%N then l' else y :: delete_one id_of id l'
  end.

Definition with_title (r : fileRecord) (t : string) : fileRecord :=
  {| r_id := r_id r; title := Js.trim t; fileName := fileName r;
     fullFileName := fullFileName r; fileId := fileId r; size := size r;
     contentType := contentType r; account := account r; url := url r;
     thumbnailUrl := thumbnailUrl r; folderRef := folderRef r;
     duration := duration r; uploadTimestamp := uploadTimestamp r |}.

Definition with_folder (r : fileRecord) (f : reference) : fileRecord :=
  {| r_id := r_id r; title := title r; fileName := fileName r;
     fullFileName := fullFileName r; fileId := fileId r; size := size r;
     contentType := contentType r; account := account r; url := url r;
     thumbnailUrl := thumbnailUrl r; folderRef := f;
     duration := duration r; uploadTimestamp := uploadTimestamp r |}.

(** The [folderId] of a move: [null] or the text ['null'] for the root,
    or the id of a folder. *)
Inductive destination :=
| ToRoot
| ToFolder (id : N).

Definition folder_of_destination (d : destination) : reference :=
  match d with
  | ToRoot => NoFolder
  | ToFolder id => InFolder id
  end.

(** [fileIds] is absent or no array when [None]. *)
Record move_body := {
  mv_fileIds : option (list N);
  mv_folderId : destination
}.

Definition listed (ids : list N) (r : fileRecord) : bool :=
  existsb (N.eqb (r_id r)) ids.

(** An element of a breadcrumb: [{ id, name }]. *)
Definition crumb : Type := N * string.

(** The key a file deletion derives from the thumbnail URL. *)
Definition thumbnail_key (thumbnailUrl : string) : string :=
  "thumbnails/" +:+ Js.basename (Js.pop (Js.split "/" thumbnailUrl)) "".

(** Where a record says its object is: everything but the title and
    what the enrichment adds. *)
Definition address (r : fileRecord)
    : N * string * string * option string * string * string * reference :=
  (r_id r, fileName r, fullFileName r, fileId r, account r, url r, folderRef r).

(** Every folder reference of a file names a stored folder. *)
Definition references_valid (st : state) : Prop :=
  forall r id,
    In r (files st) -> folderRef r = InFolder id ->
    exists f, In f (folders st) /\ f_id f = id.

Inductive reply :=
| JsonError (status : N) (error : string)
| FolderDeleted
| FilesMoved (count : nat)
| FileDeleted
| FileRenamed (file : fileRecord)
| Redirect (url : string)
| SendText (status : N) (text : string).

Section Handlers.
Variable W : World.

Definition File_findById (id : N) : M state (option fileRecord) :=
  db W (fun st => (List.find (fun r => (r_id r =? id)%N) (files st), st)).

Definition File_countDocuments_folder (id : N) : M state nat :=
  db W (fun st => (List.length (List.filter (in_folder id) (files st)), st)).

Definition Folder_countDocuments_parent (id : N) : M state nat :=
  db W (fun st => (List.length (List.filter (child_of id) (folders st)), st)).

Definition Folder_deleteOne (f : folder) : M state unit :=
  db W (fun st => (tt, set_folders (delete_one f_id (f_id f)) st)).

Definition File_deleteOne (r : fileRecord) : M state unit :=
  db W (fun st => (tt, set_files (delete_one r_id (r_id r)) st)).

(** [File.updateMany({ _id: { $in: ids } }, { folder })].  The schema
    keeps timestamps, so every matched document is modified. *)
Definition File_updateMany_folder (ids : list N) (f : reference) : M state nat :=
  db W (fun st =>
          (List.length (List.filter (listed ids) (files st)),
           set_files (List.map (fun r => if listed ids r then with_folder r f else r))
                     st)).

(** [file.title = newTitle; await file.save()]. *)
Definition File_save_title (r : fileRecord) (newTitle : string) : M state fileRecord :=
  let r' := with_title r newTitle in
  do File_save W r' then
  ret r'.

(** The loop of [getBreadcrumbPath]: [fuel] bounds its iterations, and
    [None] says that it ran out. *)
Fixpoint climb (fuel : nat) (currentFolder : folder) (breadcrumb : list crumb)
    : M state (option (list crumb)) :=
  match parent currentFolder with
  | None => ret (Some breadcrumb)
  | Some p =>
      match fuel with
      | O => ret None
      | S fuel' =>
          let* found := Folder_findById W p in
          match found with
          | Some next => climb fuel' next ((f_id next, name next) :: breadcrumb)
          | None => ret (Some breadcrumb)
          end
      end
  end.

Definition getBreadcrumbPath (fuel : nat) (folderId : option N)
    : M state (option (list crumb)) :=
  match folderId with
  | None => ret (Some [])
  | Some id =>
      let* currentFolder := Folder_findById W id in
      match currentFolder with
      | None => ret (Some [])
      | Some currentFolder =>
          climb fuel currentFolder [(f_id currentFolder, name currentFolder)]
      end
  end.

(** [DELETE /api/folders/:id]. *)
Definition delete_folder (id : N) : state -> reply * state :=
  run (let* found := Folder_findById W id in
       match found with
       | None => ret (JsonError 404 "Folder not found")
       | Some folder =>
           let* filesCount := File_countDocuments_folder id in
           if (0 <? filesCount)%nat
           then ret (JsonError 400 "Cannot delete folder with files")
           else
             let* subfoldersCount := Folder_countDocuments_parent id in
             if (0 <? subfoldersCount)%nat
             then ret (JsonError 400 "Cannot delete folder with subfolders")
             else
               do Folder_deleteOne folder then
               ret FolderDeleted
       end)
      (fun message => JsonError 500 message).

(** [POST /api/files/move]. *)
Definition move_files (b : move_body) : state -> reply * state :=
  run (match mv_fileIds b with
       | None => ret (JsonError 400 "File IDs are required")
       | Some fileIds =>
           let* missing :=
             match mv_folderId b with
             | ToFolder id =>
                 let* found := Folder_findById W id in
                 ret (negb (bool_decide (is_Some found)))
             | ToRoot => ret false
             end in
           if missing then ret (JsonError 404 "Folder not found")
           else
             let* modifiedCount :=
               File_updateMany_folder fileIds
                 (folder_of_destination (mv_folderId b)) in
             ret (FilesMoved modifiedCount)
       end)
      (fun message => JsonError 500 message).

(** [POST /api/files/delete]. *)
Definition delete_file (fileId : option N) : state -> reply * state :=
  run (match fileId with
       | None => ret (JsonError 400 "File ID is required")
       | Some id =>
           let* found := File_findById id in
           match found with
           | None => ret (JsonError 404 "File not found")
           | Some file =>
               do try_catch
                    (do deleteFileFromB2 W (account file) (Server.fileId file)
                          (fullFileName file) then
                     match thumbnailUrl file with
                     | Some thumbnailUrl =>
                         if String.eqb thumbnailUrl "" then ret tt
                         else
                           try_catch
                             (deleteFileFromB2 W (account file) None
                                (thumbnail_key thumbnailUrl))
                             (fun _ => ret tt)
                     | None => ret tt
                     end)
                    (fun _ => ret tt) then
               do File_deleteOne file then
               ret FileDeleted
           end
       end)
      (fun message => JsonError 500 message).

(** [POST /api/files/rename]. *)
Definition rename_file (fileId : option N) (newTitle : option string)
    : state -> reply * state :=
  run (match fileId, Gateway.present newTitle with
       | Some id, Some newTitle =>
           let* found := File_findById id in
           match found with
           | None => ret (JsonError 404 "File not found")
           | Some file =>
               let* file := File_save_title file newTitle in
               ret (FileRenamed file)
           end
       | _, _ => ret (JsonError 400 "File ID and new title are required")
       end)
      (fun message => JsonError 500 message).

Definition getDownloadUrl (acct fileName : string) : M state string :=
  try_catch
    (let* authData := getAuthToken W acct in
     let* bucket := bucketId_of W acct in
     let* downloadAuthResponse :=
       fetch (on_download_auth W)
             (GetDownloadAuthorization (apiUrl authData) (authorizationToken authData)
                bucket fileName 86400) in
     if negb (ok downloadAuthResponse)
     then throw "Failed to get download authorization"
     else
       let* downloadAuthData := json downloadAuthResponse in
       match bucketConfig W !! acct with
       | Some cfg =>
           ret (downloadUrl authData +:+ "/file/" +:+ Js.template (bucketName cfg)
                  +:+ "/" +:+ fileName +:+ "?Authorization="
                  +:+ da_authorizationToken downloadAuthData)
       | None => throw "Cannot read properties of undefined (reading 'bucketName')"
       end)
    (fun message => throw message).

(** [GET /files/:account/:filename] and [GET /thumbnails/:account/:filename]. *)
Definition serve (directory what acct filename : string) : state -> reply * state :=
  run (match bucketConfig W !! acct with
       | None => ret (SendText 400 "Invalid account")
       | Some _ =>
           let* downloadUrl := getDownloadUrl acct (directory +:+ filename) in
           ret (Redirect downloadUrl)
       end)
      (fun message => SendText 500 ("Error serving " +:+ what +:+ ": " +:+ message)).

Definition serve_file : string -> string -> state -> reply * state :=
  serve "files/" "file".

Definition serve_thumbnail : string -> string -> state -> reply * state :=
  serve "thumbnails/" "thumbnail".

End Handlers.

End Catalog.

(** ** Further worlds and stores *)
Module Cases.
Import B2.

(** The steady store once deletions are answered 503. *)
Definition delete_refused : World :=
  {| Date_now := Date_now Scenario.steady;
     env := env Scenario.steady;
     bucketConfig := bucketConfig Scenario.steady;
     on_authorize := on_authorize Scenario.steady;
     on_list := on_list Scenario.steady;
     on_get_upload_url := on_get_upload_url Scenario.steady;
     on_upload := on_upload Scenario.steady;
     on_copy := on_copy Scenario.steady;
     on_delete := fun _ _ => Scenario.refused 503;
     on_download_auth := on_download_auth Scenario.steady;
     on_bucket_info := on_bucket_info Scenario.steady |}.

(** A metadata server in front of that store. *)
Definition archive : Server.World :=
  {| Server.b2 := delete_refused;
     Server.db_error := fun _ => None;
     Server.regex_test := Scenario.prefix_engine;
     Server.ffprobe := Server.ffprobe Scenario.studio;
     Server.screenshots := Server.screenshots Scenario.studio;
     Server.twelve_byte_ids := false;
     Server.cast_reason := " because of " +:+ Js.dquote +:+ "BSONError" +:+ Js.dquote;
     Server.number_cast_reason :=
       " because of " +:+ Js.dquote +:+ "AssertionError" +:+ Js.dquote |}.

Definition holiday : Server.fileRecord :=
  {| Server.r_id := 7; Server.title := "Holiday";
     Server.fileName := "Holiday_1700000000000.mp4";
     Server.fullFileName := "files/Holiday_1700000000000.mp4";
     Server.fileId := Some "Y"; Server.size := 9;
     Server.contentType := "video/mp4"; Server.account := "account1";
     Server.url := "/files/account1/Holiday_1700000000000.mp4";
     Server.thumbnailUrl := Some "/thumbnails/account1/Holiday_1700000000000.jpg";
     Server.folderRef := Server.NoFolder; Server.duration := None;
     Server.uploadTimestamp := 1700000000000 |}.

(** The shelves of [Scenario.shelves] with one file at the root. *)
Definition library : Server.state :=
  {| Server.authTokenCache := ∅; Server.calls := []; Server.ticks := 0;
     Server.dbOps := 0; Server.nextId := 10; Server.files := [holiday];
     Server.folders := Server.folders Scenario.shelves;
     Server.tempFiles := Server.tempFiles Scenario.shelves |}.

Definition move_holiday_to_x : Catalog.move_body :=
  {| Catalog.mv_fileIds := Some [7%N]; Catalog.mv_folderId := Catalog.ToFolder 2 |}.

(** The objects a history has uploaded, newest first. *)
Definition uploaded (h : list request) : list remoteFile :=
  List.flat_map (fun q => match q with
                          | UploadFile _ _ fileName _ _ => [Scenario.picture fileName 20]
                          | _ => []
                          end) h.

(** A store that lists what it holds when it is asked: [files/a_1.png]
    and, from their upload on, the objects uploaded since. *)
Definition live : World :=
  {| Date_now := Date_now Scenario.steady;
     env := env Scenario.steady;
     bucketConfig := bucketConfig Scenario.steady;
     on_authorize := on_authorize Scenario.steady;
     on_list := fun h _ =>
       Scenario.ok200 (uploaded h ++ [Scenario.picture "files/a_1.png" 5]);
     on_get_upload_url := on_get_upload_url Scenario.steady;
     on_upload := on_upload Scenario.steady;
     on_copy := on_copy Scenario.steady;
     on_delete := on_delete Scenario.steady;
     on_download_auth := on_download_auth Scenario.steady;
     on_bucket_info := on_bucket_info Scenario.steady |}.

Definition notes : Gateway.upload_body :=
  {| Gateway.up_account := Some "account1"; Gateway.up_title := Some "notes";
     Gateway.up_file :=
       Some {| Gateway.originalname := "notes.txt"; Gateway.mimetype := "text/plain";
               Gateway.buffer := "hello" |} |}.

(** The listing of [files/a_1.png] alone, and the listing that also
    holds the object of the upload of [notes] at 1700000000000. *)
Definition before_upload : list Gateway.fileView :=
  [Gateway.view "account1" (Scenario.picture "files/a_1.png" 5)].

Definition after_upload : list Gateway.fileView :=
  [Gateway.view "account1" (Scenario.picture "files/notes_1700000000000.txt" 20);
   Gateway.view "account1" (Scenario.picture "files/a_1.png" 5)].

(** The upload of [Scenario.upload_clip] with an empty folder id. *)
Definition clip_unfiled : Server.upload_body :=
  {| Server.up_account := Some "account1"; Server.up_title := Some "Demo Video";
     Server.up_folderId := Some ""; Server.up_file := Some Scenario.clip |}.

(** A store whose probe finds no duration: it hands over [N/A]. *)
Definition unknown_duration : Server.World :=
  {| Server.b2 := Scenario.steady;
     Server.db_error := fun _ => None;
     Server.regex_test := Scenario.prefix_engine;
     Server.ffprobe := fun _ => Server.Probed (Some (Server.NotANumber "N/A"));
     Server.screenshots := Server.screenshots Scenario.studio;
     Server.twelve_byte_ids := false;
     Server.cast_reason := Server.cast_reason Scenario.studio;
     Server.number_cast_reason := Server.number_cast_reason Scenario.studio |}.

End Cases.

(** * Properties *)

(** ** Strings *)
Section StringFacts.

Lemma app_cons_s (x : ascii) (a b : string) :
  String x a +:+ b = String x (a +:+ b).
Proof. reflexivity. Qed.

Lemma app_nil_l_s (b : string) : "" +:+ b = b.
Proof. reflexivity. Qed.

Lemma app_assoc_s (a b c : string) : (a +:+ b) +:+ c = a +:+ (b +:+ c).
Proof.
  induction a as [|x a IH]; [reflexivity|].
  rewrite !app_cons_s. now rewrite IH.
Qed.

Lemma app_nil_r_s (a : string) : a +:+ "" = a.
Proof.
  induction a as [|x a IH]; [reflexivity|].
  rewrite app_cons_s. now rewrite IH.
Qed.

Lemma app_inv_head_s (a b c : string) : a +:+ b = a +:+ c -> b = c.
Proof.
  induction a as [|x a IH]; [rewrite !app_nil_l_s; tauto|].
  rewrite !app_cons_s. intros H. injection H as H. auto.
Qed.

Lemma length_app_s (a b : string) :
  String.length (a +:+ b) = (String.length a + String.length b)%nat.
Proof.
  induction a as [|x a IH]; [reflexivity|].
  rewrite app_cons_s. cbn. now rewrite IH.
Qed.

Lemma every_app (p : ascii -> bool) (a b : string) :
  Js.every p (a +:+ b) = Js.every p a && Js.every p b.
Proof.
  induction a as [|x a IH]; [reflexivity|].
  rewrite app_cons_s. cbn. rewrite IH. now rewrite andb_assoc.
Qed.

(** The decimal rendering of a number holds digits only. *)
Lemma string_of_uint_digits (d : Decimal.uint) :
  Js.every Js.is_digit (NilEmpty.string_of_uint d) = true.
Proof. induction d; cbn; auto. Qed.

Lemma decimal_digits (n : N) : Js.every Js.is_digit (Js.decimal n) = true.
Proof. apply string_of_uint_digits. Qed.

Lemma decimal_inj (n m : N) : Js.decimal n = Js.decimal m -> n = m.
Proof.
  unfold Js.decimal. intros H.
  apply DecimalN.Unsigned.to_uint_inj.
  assert (Hs : Some (N.to_uint n) = Some (N.to_uint m))
    by (rewrite <- !NilEmpty.usu; now rewrite H).
  now injection Hs.
Qed.

Lemma digits_delimited (d1 d2 r1 r2 : string) :
  Js.every Js.is_digit d1 = true -> Js.every Js.is_digit d2 = true ->
  Js.no_digit_ahead r1 -> Js.no_digit_ahead r2 ->
  d1 +:+ r1 = d2 +:+ r2 -> d1 = d2.
Proof.
  revert d2. induction d1 as [|c d1 IH]; intros [|c2 d2] H1 H2 Hr1 Hr2 E;
    rewrite ?app_cons_s, ?app_nil_l_s in E; cbn in H1, H2.
  - reflexivity.
  - subst r1. cbn in Hr1. apply andb_prop in H2 as [H2 _]. congruence.
  - subst r2. cbn in Hr2. apply andb_prop in H1 as [H1 _]. congruence.
  - injection E as -> E.
    apply andb_prop in H1 as [_ H1]. apply andb_prop in H2 as [_ H2].
    f_equal. eauto.
Qed.

Lemma extname_shape (p : string) :
  Js.extname p = "" \/ exists e, Js.extname p = String "." e.
Proof.
  unfold Js.extname.
  destruct (Js.split "." (Js.last_portion p)) as [|h [|e [|x l]]]; auto.
  - destruct (String.eqb h ""); eauto.
  - destruct (String.eqb (Js.last_portion p) ".."); eauto.
Qed.

Lemma no_digit_ahead_extname (p : string) : Js.no_digit_ahead (Js.extname p).
Proof. destruct (extname_shape p) as [->|[e ->]]; cbn; auto. Qed.

End StringFacts.

(** ** Running handlers *)

#[local] Arguments String.eqb : simpl never.
#[local] Arguments String.prefix : simpl never.
#[local] Arguments Js.truthy : simpl never.

Ltac eff_unfold H :=
  unfold Eff.bind, Eff.try_catch, Eff.run, Eff.gets, Eff.modify, Eff.ret, Eff.throw in H.

(** The scrutinee that blocks the evaluation of a term. *)
Ltac blocking t k :=
  lazymatch t with
  | match ?x with _ => _ end => first [ blocking x k | k x ]
  | ?f _ => blocking f k
  end.

(** Symbolic execution of a handler run [H : m st = (r, st')]: case
    analysis on what the world answers, in the order of the code. *)
Ltac eff_step H :=
  eff_unfold H; cbv beta iota in H;
  lazymatch type of H with
  | ?lhs = _ => blocking lhs ltac:(fun x => destruct x eqn:?)
  end.

Ltac eff_run H := repeat (eff_step H); eff_unfold H; cbv beta iota in H; simplify_eq/=.

(** ** Rename in the gateway *)

(** C3, as the code has it.  A rename that succeeds has issued, after at
    most one authorization, exactly a copy of the object to
    [files/<sanitized new title>_<timestamp of the old name>.<extension>]
    and then a delete of the old key; the clock is never read.  For the
    old name [a_111.png] and the title [b] the new name is [b_111.png]. *)
Theorem rename_copies_under_old_timestamp
    (W : B2.World) (acct fileId oldFileName newTitle : string)
    (st st' : Gateway.state) (newFileName : string) (newFileId : option string)
    (t u : string) :
  Gateway.rename_file W
    {| Gateway.rn_account := Some acct; Gateway.rn_fileId := Some fileId;
       Gateway.rn_oldFileName := Some oldFileName;
       Gateway.rn_newTitle := Some newTitle |} st
  = (Gateway.RenameSuccess newFileName newFileId t u, st') ->
  newFileName
  = Gateway.safeTitle newTitle +:+ "_"
      +:+ Js.first (Js.split "." (Js.pop (Js.split "_" oldFileName)))
      +:+ "." +:+ Js.pop (Js.split "." oldFileName)
  /\ (exists auth bucket pre,
        Gateway.calls st'
        = B2.DeleteFileVersion (B2.apiUrl auth) (B2.authorizationToken auth)
            (Some fileId) ("files/" +:+ oldFileName)
          :: B2.CopyFile (B2.apiUrl auth) (B2.authorizationToken auth)
               fileId ("files/" +:+ newFileName) bucket
          :: pre ++ Gateway.calls st
        /\ (pre = [] \/ exists k a, pre = [B2.AuthorizeAccount k a]))
  /\ Gateway.ticks st' = Gateway.ticks st
  /\ Gateway.rename_newFileName "a_111.png" "b" = "b_111.png".
Proof.
  unfold Gateway.rename_file, Gateway.getAuthToken, Gateway.fetch, Gateway.json,
    Gateway.present.
  intros H.
  eff_run H; (split; [reflexivity|]); (split; [|split; [reflexivity|reflexivity]]).
  all: first [ by (eexists _, _, []; split; [reflexivity|]; auto)
             | by (eexists _, _, [_]; split; [reflexivity|]; eauto) ].
Qed.


Lemma rename_copies_under_old_timestamp_witness :
  Gateway.ticks
    (snd (Gateway.rename_file Scenario.steady Scenario.rename_a_to_b Scenario.idle))
  = Gateway.ticks Scenario.idle
  /\ Gateway.rename_newFileName "a_111.png" "b" = "b_111.png".
Proof.
  destruct (Gateway.rename_file Scenario.steady Scenario.rename_a_to_b Scenario.idle)
    as [r st'] eqn:E.
  assert (Hr : r = Gateway.RenameSuccess "b_111.png" (Some "Z") "b"
                     "/files/account1/b_111.png")
    by (vm_compute in E; congruence).
  subst r.
  apply (rename_copies_under_old_timestamp Scenario.steady "account1" "X"
           "a_111.png" "b" Scenario.idle st') in E as (_ & _ & Ht & Hn).
  split; [exact Ht | exact Hn].
Defined.

(** C3, as stated, fails: the key a rename copies to carries no reading of
    the clock.  Renaming [a_111.png] to [b] while the clock stands past
    1700000000000 copies to [files/b_111.png]. *)
Lemma rename_key_is_not_fresh :
  ~ exists n,
      Gateway.copy_targets
        (Gateway.calls
           (snd (Gateway.rename_file Scenario.steady Scenario.rename_a_to_b
                   Scenario.idle)))
      = ["files/b_" +:+ Js.decimal (B2.Date_now Scenario.steady n) +:+ ".png"].
Proof.
  intros [n H].
  assert (L : Gateway.copy_targets
                (Gateway.calls
                   (snd (Gateway.rename_file Scenario.steady Scenario.rename_a_to_b
                           Scenario.idle)))
              = ["files/b_" +:+ Js.decimal 111 +:+ ".png"])
    by (vm_compute; reflexivity).
  rewrite L in H. injection H as H.
  apply app_inv_head_s in H.
  apply digits_delimited in H; auto using decimal_digits; try reflexivity.
  apply decimal_inj in H. cbn in H. lia.
Qed.

(** ** The listing cache of the gateway *)
Section GatewayListing.
Import B2 Eff.
Variable W : World.

Lemma getAuthToken_frame acct st o st' :
  Gateway.getAuthToken W acct st = (o, st') ->
  Gateway.fileListCache st' = Gateway.fileListCache st
  /\ Gateway.bucketInfoCache st' = Gateway.bucketInfoCache st
  /\ Gateway.ticks st' = Gateway.ticks st.
Proof.
  unfold Gateway.getAuthToken, Gateway.fetch, Gateway.json. intros H.
  eff_run H; auto.
Qed.

Lemma cache_lookup_frame key st o st' :
  Gateway.cache_lookup W key st = (o, st') ->
  Gateway.fileListCache st' = Gateway.fileListCache st
  /\ Gateway.authTokenCache st' = Gateway.authTokenCache st
  /\ Gateway.calls st' = Gateway.calls st.
Proof.
  unfold Gateway.cache_lookup, Gateway.now. intros H.
  eff_run H; auto.
Qed.

Lemma cache_lookup_miss key st :
  Gateway.fileListCache st !! key = None ->
  Gateway.cache_lookup W key st = (Return None, st).
Proof.
  unfold Gateway.cache_lookup, bind, gets, ret. now intros ->.
Qed.

(** A listing that throws leaves the listing cache as it was. *)
Lemma listFiles_fetch_throw_frame acct key st message st' :
  Gateway.listFiles_fetch W acct key st = (Throw message, st') ->
  Gateway.fileListCache st' = Gateway.fileListCache st.
Proof.
  unfold Gateway.listFiles_fetch, Gateway.listFiles_request,
    Gateway.listFiles_receive, Gateway.bucketId_of, Gateway.fetch,
    Gateway.json, Gateway.now.
  intros H.
  eff_run H;
    match goal with
    | Hx : Gateway.getAuthToken _ _ _ = _ |- _ =>
        apply getAuthToken_frame in Hx as (? & ? & ?)
    end; cbn in *; congruence.
Qed.

Lemma listing_failure_throws acct st0 st1 :
  Gateway.listing_failure W acct st0 st1 ->
  exists message,
    Gateway.listFiles_fetch W acct ("files_" +:+ acct) st0 = (Throw message, st1).
Proof.
  intros [message s Hauth | authData s bucket r Hauth Hb Hl Hok | message s Hf].
  - exists message. unfold Gateway.listFiles_fetch, Gateway.listFiles_request,
    Gateway.listFiles_receive, bind. now rewrite Hauth.
  - eexists. unfold Gateway.listFiles_fetch, Gateway.listFiles_request,
    Gateway.listFiles_receive, bind.
    rewrite Hauth, Hb. unfold Gateway.fetch. rewrite Hl, Hok. reflexivity.
  - eauto.
Qed.

End GatewayListing.

(** C9. Whatever fails inside [listFiles] once the cache does not answer
    (the authorization, a listing answered outside 2xx, any other thrown
    error), the function returns the empty list, the answer for an account
    without files, and leaves the listing cache as it was. *)
Theorem listFiles_failure_is_empty
    (W : B2.World) (acct : string) (st st0 st1 : Gateway.state) :
  Gateway.cache_lookup W ("files_" +:+ acct) st = (Eff.Return None, st0) ->
  Gateway.listing_failure W acct st0 st1 ->
  Gateway.listFiles W acct st = ([], st1)
  /\ Gateway.fileListCache st1 = Gateway.fileListCache st.
Proof.
  intros Hmiss Hfail.
  destruct (listing_failure_throws W acct st0 st1 Hfail) as [message Hthrow].
  split.
  - unfold Gateway.listFiles, Gateway.refetch, Eff.run, Eff.bind, Eff.try_catch.
    rewrite Hmiss, Hthrow. reflexivity.
  - apply listFiles_fetch_throw_frame in Hthrow.
    apply cache_lookup_frame in Hmiss as (Hc & _). congruence.
Qed.

Lemma listFiles_failure_is_empty_witness :
  Gateway.listFiles Scenario.expired "account1" Scenario.authorized
  = ([], Gateway.log
           (B2.ListFileNames "https://api001.backblazeb2.com" "token-1"
              (Some "bucket-1") "files/" 1000)
           Scenario.authorized).
Proof.
  apply (listFiles_failure_is_empty Scenario.expired "account1" Scenario.authorized
           Scenario.authorized).
  - reflexivity.
  - apply (Gateway.BadStatus Scenario.expired "account1" Scenario.authorized
             Scenario.session Scenario.authorized (Some "bucket-1")
             {| B2.status := 401; B2.payload := B2.Malformed "Unexpected token" |});
      reflexivity.
Defined.

(** A successful upload, file deletion or rename on account [acct]
    leaves no listing-cache entry for it in the state the response is
    returned from, so a [listFiles] of that account run from that state
    does not answer from the cache: it runs the remote fetch. *)
Lemma mutation_drops_entry
    (W : B2.World) (op : Gateway.operation) (acct : string)
    (st st' : Gateway.state) (r : Gateway.result) :
  Gateway.perform W op st = (r, st') ->
  Gateway.mutated_account op = Some acct ->
  Gateway.succeeded r = true ->
  Gateway.fileListCache st' !! ("files_" +:+ acct) = None
  /\ Gateway.listFiles W acct st' = Eff.run (Gateway.refetch W acct) (fun _ => []) st'.
Proof.
  intros Hrun Hacct Hok.
  assert (Hdrop : Gateway.fileListCache st' !! ("files_" +:+ acct) = None).
  { destruct op as [a | b | b | b | a f]; cbn in Hacct; try discriminate;
      cbn in Hrun.
    - destruct (Gateway.upload W b st) as [x s] eqn:H. simplify_eq.
      unfold Gateway.upload, Gateway.fetch, Gateway.json in H. rewrite Hacct in H.
      eff_run H; try discriminate; apply lookup_delete_eq.
    - destruct (Gateway.rename_file W b st) as [x s] eqn:H. simplify_eq.
      unfold Gateway.rename_file, Gateway.fetch, Gateway.json in H. rewrite Hacct in H.
      eff_run H; try discriminate; apply lookup_delete_eq.
    - destruct (Gateway.delete_file W b st) as [x s] eqn:H. simplify_eq.
      unfold Gateway.delete_file, Gateway.fetch, Gateway.json in H. rewrite Hacct in H.
      eff_run H; try discriminate; apply lookup_delete_eq. }
  split; [exact Hdrop|].
  unfold Gateway.listFiles, Eff.run, Eff.bind.
  now rewrite (cache_lookup_miss W _ _ Hdrop).
Qed.

(** The two halves of [listFiles]: when the cache does not answer and
    the listing is sent and answered, a run without another request in
    between is the first half followed by the second. *)
Lemma listFiles_halves
    (W : B2.World) (acct : string) (st st0 st1 : Gateway.state)
    (response : B2.response (list B2.remoteFile)) :
  Gateway.cache_lookup W ("files_" +:+ acct) st = (Eff.Return None, st0) ->
  Gateway.listFiles_request W acct st0 = (Eff.Return response, st1) ->
  Gateway.listFiles W acct st = Gateway.listFiles_resume W acct response st1.
Proof.
  intros Hmiss Hreq.
  unfold Gateway.listFiles, Gateway.listFiles_resume, Gateway.refetch,
    Gateway.listFiles_fetch, Eff.run, Eff.bind, Eff.try_catch.
  now rewrite Hmiss, Hreq.
Qed.

(** C2 fails in the code when a listing is in flight.  [listFiles] of
    [account1] finds no cached listing, sends [b2_list_file_names] and
    waits; the store answers with the one object it holds.  Meanwhile an
    upload to [account1] runs to its response: it succeeds and leaves no
    listing-cache entry.  The listing then resumes with the answer it was
    given and caches it.  The next [listFiles] returns that listing from
    the cache, without the uploaded object and without asking the store,
    which lists the object; with no listing in flight it would have
    fetched the listing that holds it. *)
Theorem listing_in_flight_outlives_upload :
  let answer :=
    {| B2.status := 200;
       B2.payload := B2.Json [Scenario.picture "files/a_1.png" 5] |} in
  let asked :=
    snd (Gateway.listFiles_request Cases.live "account1" Scenario.authorized) in
  let uploaded := snd (Gateway.upload Cases.live Cases.notes asked) in
  let resumed :=
    snd (Gateway.listFiles_resume Cases.live "account1" answer uploaded) in
  Gateway.cache_lookup Cases.live "files_account1" Scenario.authorized
  = (Eff.Return None, Scenario.authorized)
  /\ fst (Gateway.listFiles_request Cases.live "account1" Scenario.authorized)
     = Eff.Return answer
  /\ Gateway.listFiles Cases.live "account1" Scenario.authorized
     = Gateway.listFiles_resume Cases.live "account1" answer asked
  /\ fst (Gateway.upload Cases.live Cases.notes asked)
     = Gateway.UploadSuccess "/files/account1/notes_1700000000000.txt" "notes"
         "notes_1700000000000.txt" (Some "Y")
  /\ Gateway.fileListCache uploaded !! "files_account1" = None
  /\ fst (Gateway.listFiles Cases.live "account1" uploaded) = Cases.after_upload
  /\ fst (Gateway.listFiles_resume Cases.live "account1" answer uploaded)
     = Cases.before_upload
  /\ Gateway.fileListCache resumed !! "files_account1"
     = Some (1700000000001%N, Cases.before_upload)
  /\ Gateway.listFiles Cases.live "account1" resumed
     = (Cases.before_upload, Gateway.tick resumed)
  /\ B2.on_list Cases.live (Gateway.calls resumed)
       (B2.ListFileNames "https://api001.backblazeb2.com" "token-1"
          (Some "bucket-1") "files/" 1000)
     = Scenario.ok200 [Scenario.picture "files/notes_1700000000000.txt" 20;
                       Scenario.picture "files/a_1.png" 5].
Proof.
  cbv zeta.
  split; [reflexivity|]. split; [reflexivity|].
  split; [apply (listFiles_halves _ _ _ Scenario.authorized); reflexivity|].
  repeat split; vm_compute; reflexivity.
Qed.

(** ** The order of a listing *)
Section ListingOrder.
Import Gateway.

Lemma Forall_insert_by (P : fileView -> Prop) x l :
  P x -> Forall P l -> Forall P (JsArray.insert_by newest_first x l).
Proof.
  intros Hx Hl. induction Hl as [|y l Hy Hl IH]; cbn.
  - auto.
  - destruct (newest_first x y <=? 0)%Z; auto.
Qed.

Lemma insert_by_sorted x l :
  StronglySorted newer_or_equal l ->
  StronglySorted newer_or_equal (JsArray.insert_by newest_first x l).
Proof.
  induction 1 as [|y l Hs IH Hy]; cbn.
  - repeat constructor.
  - destruct (Z.leb_spec (newest_first x y) 0) as [Hle|Hgt].
    + constructor; [now constructor|].
      constructor.
      * unfold newer_or_equal, newest_first in *. lia.
      * eapply Forall_impl; [exact Hy|].
        unfold newer_or_equal, newest_first in *. intros z Hz. lia.
    + constructor; [exact IH|].
      apply Forall_insert_by; [|exact Hy].
      unfold newer_or_equal, newest_first in *. lia.
Qed.

Lemma sort_sorted l :
  StronglySorted newer_or_equal (JsArray.sort newest_first l).
Proof.
  induction l as [|x l IH]; cbn.
  - constructor.
  - now apply insert_by_sorted.
Qed.

(** The sort is stable: entries of one timestamp keep their order. *)
Lemma uploaded_at_insert_by t x l :
  uploaded_at t (JsArray.insert_by newest_first x l) = uploaded_at t (x :: l).
Proof.
  unfold uploaded_at.
  induction l as [|y l IH]; [reflexivity|]. cbn [JsArray.insert_by].
  destruct (Z.leb_spec (newest_first x y) 0) as [Hle|Hgt]; [reflexivity|].
  cbn [List.filter] in *. rewrite IH.
  destruct (Z.eqb_spec (uploadTimestamp x) t), (Z.eqb_spec (uploadTimestamp y) t);
    try reflexivity.
  unfold newest_first in Hgt. lia.
Qed.

Lemma uploaded_at_sort t l :
  uploaded_at t (JsArray.sort newest_first l) = uploaded_at t l.
Proof.
  induction l as [|x l IH]; [reflexivity|].
  change (JsArray.sort newest_first (x :: l))
    with (JsArray.insert_by newest_first x (JsArray.sort newest_first l)).
  rewrite uploaded_at_insert_by. unfold uploaded_at in *.
  cbn [List.filter]. now rewrite IH.
Qed.

Lemma Forall_sort (P : fileView -> Prop) l :
  Forall P l -> Forall P (JsArray.sort newest_first l).
Proof.
  induction 1 as [|x l Hx Hl IH]; cbn; [constructor|].
  now apply Forall_insert_by.
Qed.

Lemma newer_then_by_key_stamp a b :
  newer_then_by_key a b -> (uploadTimestamp b <= uploadTimestamp a)%Z.
Proof. intros [H|[H _]]; lia. Qed.

Lemma insert_by_ties x l :
  StronglySorted newer_then_by_key l ->
  Forall (key_ascending x) l ->
  StronglySorted newer_then_by_key (JsArray.insert_by newest_first x l).
Proof.
  induction 1 as [|y l Hs IH Hy]; intros Hk; cbn.
  - repeat constructor.
  - apply Forall_cons in Hk as [Hky Hk].
    destruct (Z.leb_spec (newest_first x y) 0) as [Hle|Hgt].
    + constructor; [now constructor|].
      unfold newest_first in Hle.
      constructor.
      * unfold newer_then_by_key. unfold key_ascending in Hky.
        destruct (Z.eq_dec (uploadTimestamp x) (uploadTimestamp y)); [right|left];
          auto; lia.
      * rewrite List.Forall_forall in *. intros z Hz.
        pose proof (newer_then_by_key_stamp _ _ (Hy z Hz)) as Hzy.
        specialize (Hk z Hz). unfold newer_then_by_key, key_ascending in *.
        destruct (Z.eq_dec (uploadTimestamp x) (uploadTimestamp z)); [right|left];
          auto; lia.
    + constructor; [now apply IH|].
      apply Forall_insert_by; [|exact Hy].
      left. unfold newest_first in Hgt. lia.
Qed.

(** A listing that the store returns in key order comes out newest first
    with keys ascending among equal timestamps. *)
Lemma sort_ties l :
  StronglySorted key_ascending l ->
  StronglySorted newer_then_by_key (JsArray.sort newest_first l).
Proof.
  induction 1 as [|x l Hs IH Hx]; cbn; [constructor|].
  apply insert_by_ties; [exact IH|]. now apply Forall_sort.
Qed.

Lemma view_key_order acct remote :
  StronglySorted
    (fun a b => String.leb (B2.rf_fileName a) (B2.rf_fileName b) = true) remote ->
  StronglySorted key_ascending (List.map (view acct) remote).
Proof.
  induction 1 as [|x l Hs IH Hx]; cbn; [constructor|].
  constructor; [exact IH|].
  rewrite List.Forall_forall in *. intros v Hv.
  apply in_map_iff in Hv as (z & <- & Hz). exact (Hx z Hz).
Qed.

Lemma cache_sorted_same st st' :
  fileListCache st' = fileListCache st -> cache_sorted st -> cache_sorted st'.
Proof. unfold cache_sorted. intros -> H. exact H. Qed.

Lemma cache_sorted_insert st st' key stamp files :
  fileListCache st' = <[key := (stamp, files)]> (fileListCache st) ->
  StronglySorted newer_or_equal files ->
  cache_sorted st -> cache_sorted st'.
Proof.
  unfold cache_sorted. intros -> Hs H k s f.
  destruct (decide (key = k)) as [->|Hne].
  - rewrite lookup_insert_eq. intros [= <- <-]. exact Hs.
  - rewrite lookup_insert_ne by exact Hne. apply H.
Qed.

End ListingOrder.

(** C6, as the code has it.  Every listing [listFiles] returns is sorted by
    upload timestamp, newest first, provided the cached listings are (and
    then they stay so).  A listing fetched from the store holds, for every
    timestamp, the views of the objects the store listed with that
    timestamp in the order in which the store listed them: ascending by
    key when the store lists in key order, any other order otherwise.
    The sort of the older copy orders its entries in the same way. *)
Theorem listFiles_newest_first (W : B2.World) (acct : string) (st : Gateway.state) :
  Gateway.cache_sorted st ->
  StronglySorted Gateway.newer_or_equal (fst (Gateway.listFiles W acct st))
  /\ Gateway.cache_sorted (snd (Gateway.listFiles W acct st))
  /\ forall st0 st1 a cfg r remote,
       Gateway.cache_lookup W ("files_" +:+ acct) st = (Eff.Return None, st0) ->
       Gateway.getAuthToken W acct st0 = (Eff.Return a, st1) ->
       B2.bucketConfig W !! acct = Some cfg ->
       B2.on_list W (Gateway.calls st1)
         (B2.ListFileNames (B2.apiUrl a) (B2.authorizationToken a) (B2.bucketId cfg)
            "files/" 1000) = B2.Resolves r ->
       B2.ok r = true ->
       B2.payload r = B2.Json remote ->
       let files := fst (Gateway.listFiles W acct st) in
       (forall t,
          Gateway.uploaded_at t files
          = Gateway.uploaded_at t (List.map (Gateway.view acct) remote))
       /\ (StronglySorted
             (fun a b => String.leb (B2.rf_fileName a) (B2.rf_fileName b) = true)
             remote ->
           StronglySorted Gateway.newer_then_by_key files)
       /\ StronglySorted Gateway.newer_or_equal
            (JsArray.sort Gateway.newest_first (List.map (Legacy.view acct) remote))
       /\ forall t,
            Gateway.uploaded_at t
              (JsArray.sort Gateway.newest_first (List.map (Legacy.view acct) remote))
            = Gateway.uploaded_at t (List.map (Legacy.view acct) remote).
Proof.
  intros Hcache. split; [|split].
  3: { intros st0 st1 a cfg r remote Hmiss Hauth Hcfg Hlist Hok Hbody.
       unfold Gateway.listFiles, Gateway.refetch, Gateway.listFiles_fetch,
         Gateway.listFiles_request, Gateway.listFiles_receive,
         Gateway.bucketId_of, Gateway.fetch, Gateway.json, Gateway.now,
         Eff.run, Eff.bind, Eff.try_catch, Eff.ret, Eff.modify.
       rewrite Hmiss, Hauth, Hcfg. cbn. rewrite Hlist, Hok, Hbody. cbn.
       split; [|split; [|split]].
       - intros t. apply uploaded_at_sort.
       - intros Hkeys. now apply sort_ties, view_key_order.
       - apply sort_sorted.
       - intros t. apply uploaded_at_sort. }
  all: destruct (Gateway.listFiles W acct st) as [files st'] eqn:H; cbn [fst snd];
    unfold Gateway.listFiles, Gateway.cache_lookup, Gateway.refetch,
      Gateway.listFiles_fetch, Gateway.listFiles_request,
      Gateway.listFiles_receive, Gateway.bucketId_of, Gateway.fetch, Gateway.json,
      Gateway.now in H.
  all: eff_run H;
    repeat match goal with
      | Hx : Gateway.getAuthToken _ _ _ = _ |- _ =>
          apply getAuthToken_frame in Hx as (? & ? & ?)
      end; cbn in *.
  all: try solve [ constructor | apply sort_sorted | eauto using sort_sorted
                 | congruence | eapply Hcache; eauto ].
  all: try solve [ eapply cache_sorted_same; [|exact Hcache]; cbn; congruence ].
  all: eapply cache_sorted_insert; [| apply sort_sorted | exact Hcache]; cbn;
    match goal with
    | Hx : Gateway.fileListCache _ = Gateway.fileListCache _ |- _ => rewrite Hx
    end; reflexivity.
Qed.

Lemma listFiles_newest_first_witness :
  Gateway.uploaded_at 5
    (fst (Gateway.listFiles Scenario.steady "account1" Scenario.authorized))
  = [Gateway.view "account1" (Scenario.picture "files/b_1.png" 5);
     Gateway.view "account1" (Scenario.picture "files/a_1.png" 5)]
  /\ StronglySorted Gateway.newer_or_equal
       (fst (Gateway.listFiles Scenario.steady "account1" Scenario.authorized)).
Proof.
  destruct (listFiles_newest_first Scenario.steady "account1" Scenario.authorized)
    as (Hsorted & _ & Hfetched).
  { intros k stamp files H. cbn in H. rewrite lookup_empty in H. discriminate H. }
  split; [|exact Hsorted].
  destruct (Hfetched Scenario.authorized Scenario.authorized Scenario.session
              {| B2.bucketId := Some "bucket-1"; B2.bucketName := Some "media" |}
              {| B2.status := 200;
                 B2.payload :=
                   B2.Json [Scenario.picture "files/b_1.png" 5;
                            Scenario.picture "files/a_1.png" 5;
                            Scenario.picture "files/c_2.png" 9] |}
              [Scenario.picture "files/b_1.png" 5;
               Scenario.picture "files/a_1.png" 5;
               Scenario.picture "files/c_2.png" 9]
              eq_refl eq_refl eq_refl eq_refl eq_refl eq_refl) as [Hties _].
  rewrite (Hties 5%Z). reflexivity.
Defined.

(** C6, as stated, fails: nothing orders the entries of one timestamp by
    key.  When the store lists [files/b_1.png] before [files/a_1.png], both
    uploaded at 5, the listing keeps them in that order. *)
Lemma listing_ties_not_by_key :
  ~ Sorted Gateway.newer_then_by_key
      (fst (Gateway.listFiles Scenario.steady "account1" Scenario.idle)).
Proof.
  assert (L : fst (Gateway.listFiles Scenario.steady "account1" Scenario.idle)
              = [Gateway.view "account1" (Scenario.picture "files/c_2.png" 9);
                 Gateway.view "account1" (Scenario.picture "files/b_1.png" 5);
                 Gateway.view "account1" (Scenario.picture "files/a_1.png" 5)])
    by (vm_compute; reflexivity).
  rewrite L. intros H.
  inversion H as [|x l Hl _]; subst.
  inversion Hl as [|y l' _ Hd]; subst.
  inversion Hd as [|z l'' Hrel]; subst.
  destruct Hrel as [Hlt | [_ Hkey]].
  - cbn in Hlt. lia.
  - vm_compute in Hkey. discriminate.
Qed.


(** ** Rejected calls *)
Section Rejections.
Import B2 Eff.

Lemma new_calls_split (new base post : list request) q pre :
  new ++ base = post ++ q :: pre ++ base -> new = post ++ q :: pre.
Proof.
  intros H. apply (app_inv_tail base).
  rewrite H. now rewrite <- app_assoc.
Qed.

Lemma accepted_not_rejected {A} (r : response A) code :
  Some (status r) = Some code -> accepted code = false -> negb (ok r) = false ->
  False.
Proof.
  unfold ok. intros [= <-] Hr H. rewrite Hr in H. discriminate.
Qed.

End Rejections.

Section Pages.
Import B2 Eff.
Variable W : World.

Lemma invoke_all_app (l1 l2 : list Gateway.invocation) (st : Gateway.state) :
  Gateway.invoke_all W (l1 ++ l2) st
  = Gateway.invoke_all W l2 (Gateway.invoke_all W l1 st).
Proof. apply fold_left_app. Qed.

Lemma invoke_listing acct st :
  snd (Gateway.invoke W (Gateway.Operation (Gateway.List acct)) st)
  = snd (Gateway.listFiles W acct st).
Proof. cbn. now destruct (Gateway.listFiles W acct st). Qed.

Lemma invoke_description acct st :
  snd (Gateway.invoke W (Gateway.BucketInfo acct) st)
  = snd (Gateway.getBucketInfo W acct st).
Proof. cbn. now destruct (Gateway.getBucketInfo W acct st). Qed.

(** The loop of the home page returns, and leaves the state its
    invocations leave. *)
Lemma home_accounts_run accounts allFiles bucketInfos st :
  exists collected,
    Gateway.home_accounts W accounts allFiles bucketInfos st
    = (Return collected,
       Gateway.invoke_all W
         (List.flat_map
            (fun acct => [Gateway.Operation (Gateway.List acct); Gateway.BucketInfo acct])
            accounts) st).
Proof.
  revert allFiles bucketInfos st.
  induction accounts as [|account rest IH]; intros allFiles bucketInfos st.
  - eexists. reflexivity.
  - cbn [Gateway.home_accounts List.flat_map].
    unfold bind, Gateway.lift.
    destruct (Gateway.listFiles W account st) as [files st1] eqn:El.
    cbv beta iota.
    destruct (Gateway.getBucketInfo W account st1) as [info st2] eqn:Eb.
    cbv beta iota zeta.
    match goal with
    | |- context [Gateway.home_accounts W rest ?f ?b st2] =>
        destruct (IH f b st2) as [collected ->]
    end.
    exists collected. f_equal.
    change (Gateway.invoke_all W
              ([Gateway.Operation (Gateway.List account); Gateway.BucketInfo account]
               ++ List.flat_map
                    (fun acct => [Gateway.Operation (Gateway.List acct);
                                  Gateway.BucketInfo acct]) rest) st)
      with (Gateway.invoke_all W
              (List.flat_map
                 (fun acct => [Gateway.Operation (Gateway.List acct);
                               Gateway.BucketInfo acct]) rest)
              (snd (Gateway.invoke W (Gateway.BucketInfo account)
                      (snd (Gateway.invoke W (Gateway.Operation (Gateway.List account))
                              st))))).
    rewrite invoke_listing, El. cbn [snd].
    now rewrite invoke_description, Eb.
Qed.

Lemma home_run st :
  snd (Gateway.home W st) = Gateway.invoke_all W (Gateway.home_invocations W) st
  /\ exists allFiles bucketInfos,
       fst (Gateway.home W st)
       = Gateway.HomePage (Gateway.keys (bucketConfig W)) allFiles bucketInfos.
Proof.
  unfold Gateway.home, Gateway.home_invocations, run, bind.
  destruct (home_accounts_run (Gateway.keys (bucketConfig W)) [] [] st)
    as [collected ->].
  cbn. eauto.
Qed.

Lemma bucket_info_run acct st :
  snd (Gateway.bucket_info W acct st)
  = Gateway.invoke_all W (Gateway.bucket_info_invocations W acct st) st
  /\ (is_Some (bucketConfig W !! acct) ->
      fst (Gateway.getBucketInfo W acct st) <> Gateway.Described None ->
      exists u, fst (Gateway.bucket_info W acct st) = Gateway.BucketUsage u).
Proof.
  unfold Gateway.bucket_info, Gateway.bucket_info_invocations, run, bind, Gateway.lift.
  destruct (bucketConfig W !! acct) as [cfg|]; [|split; [reflexivity|]].
  2: { intros [? [=]]. }
  destruct (Gateway.getBucketInfo W acct st) as [info st1] eqn:Eb. cbn [fst].
  assert (Hd : snd (Gateway.invoke W (Gateway.BucketInfo acct) st) = st1)
    by now rewrite invoke_description, Eb.
  destruct info as [[b|]|name].
  - destruct (Gateway.listFiles W acct st1) as [files st2] eqn:El.
    split; [|cbn; eauto]. cbn [snd].
    unfold Gateway.invoke_all. cbn [List.fold_left]. rewrite Hd.
    cbn [snd]. now rewrite invoke_listing, El.
  - split; [|intros _ []; reflexivity]. cbn [snd].
    unfold Gateway.invoke_all. cbn [List.fold_left]. now rewrite Hd.
  - destruct (Gateway.listFiles W acct st1) as [files st2] eqn:El.
    split; [|cbn; eauto]. cbn [snd].
    unfold Gateway.invoke_all. cbn [List.fold_left]. rewrite Hd.
    cbn [snd]. now rewrite invoke_listing, El.
Qed.

End Pages.

(** Where in the history of an operation a rejected call can sit. *)
Ltac locate_call H :=
  lazymatch type of H with
  | ?a :: ?b :: ?c :: Gateway.calls ?st = _ => apply (new_calls_split [a; b; c]) in H
  | ?a :: ?b :: Gateway.calls ?st = _ => apply (new_calls_split [a; b]) in H
  | ?a :: Gateway.calls ?st = _ => apply (new_calls_split [a]) in H
  | Gateway.calls ?st = _ => apply (new_calls_split []) in H
  end;
  lazymatch type of H with
  | _ = ?post ++ _ => destruct post as [|? [|? [|? [|? ?]]]]
  end;
  simplify_eq/=.

Ltac recall_answer Hans :=
  repeat match goal with
    | Hx : B2.on_authorize _ _ _ = _ |- _ => rewrite Hx in Hans
    | Hx : B2.on_list _ _ _ = _ |- _ => rewrite Hx in Hans
    | Hx : B2.on_get_upload_url _ _ _ = _ |- _ => rewrite Hx in Hans
    | Hx : B2.on_upload _ _ _ = _ |- _ => rewrite Hx in Hans
    | Hx : B2.on_copy _ _ _ = _ |- _ => rewrite Hx in Hans
    | Hx : B2.on_delete _ _ _ = _ |- _ => rewrite Hx in Hans
    | Hx : B2.on_download_auth _ _ _ = _ |- _ => rewrite Hx in Hans
    | Hx : B2.on_bucket_info _ _ _ = _ |- _ => rewrite Hx in Hans
    end.

Ltac confront Hans :=
  cbn in Hans; recall_answer Hans; cbn in Hans;
  first [ discriminate Hans
        | exfalso; eapply accepted_not_rejected; [exact Hans | eassumption | assumption]
        | idtac ].

Ltac settle_operation H :=
  eff_run H;
  (split;
   [ cbn; first [ reflexivity | by apply insert_subseteq ]
   | let post := fresh "post" in
     let q := fresh "q" in
     let h := fresh "h" in
     let pre := fresh "pre" in
     let Hsplit := fresh "Hsplit" in
     let Hans := fresh "Hans" in
     let Hrej := fresh "Hrej" in
     intros post q h code Hsplit [pre ->] Hans Hrej;
     cbn in Hsplit; locate_call Hsplit; confront Hans; auto ]).

Lemma invocation_ends_at_rejection
    (W : B2.World) (i : Gateway.invocation) (st st' : Gateway.state)
    (r : Gateway.returned) :
  Gateway.invoke W i st = (r, st') ->
  Gateway.authTokenCache st ⊆ Gateway.authTokenCache st'
  /\ forall post q h code,
       Gateway.calls st' = post ++ q :: h ->
       (exists pre, h = pre ++ Gateway.calls st) ->
       B2.answer_status W h q = Some code ->
       B2.accepted code = false ->
       post = [] /\ Gateway.surfaced r = true.
Proof.
  intros H.
  destruct i as [[acct | b | b | b | acct filename] | acct]; cbn in H.
  - destruct (Gateway.listFiles W acct st) as [x s] eqn:E. simplify_eq.
    unfold Gateway.listFiles, Gateway.cache_lookup, Gateway.refetch,
      Gateway.listFiles_fetch, Gateway.listFiles_request,
      Gateway.listFiles_receive, Gateway.getAuthToken, Gateway.bucketId_of,
      Gateway.fetch, Gateway.json, Gateway.now in E.
    settle_operation E.
  - destruct (Gateway.upload W b st) as [x s] eqn:E. simplify_eq.
    unfold Gateway.upload, Gateway.getAuthToken, Gateway.fetch, Gateway.json,
      Gateway.now in E.
    settle_operation E.
  - destruct (Gateway.rename_file W b st) as [x s] eqn:E. simplify_eq.
    unfold Gateway.rename_file, Gateway.getAuthToken, Gateway.fetch,
      Gateway.json in E.
    settle_operation E.
  - destruct (Gateway.delete_file W b st) as [x s] eqn:E. simplify_eq.
    unfold Gateway.delete_file, Gateway.getAuthToken, Gateway.fetch,
      Gateway.json in E.
    settle_operation E.
  - destruct (Gateway.serve_file W acct filename st) as [x s] eqn:E. simplify_eq.
    unfold Gateway.serve_file, Gateway.getAuthToken, Gateway.fetch,
      Gateway.json in E.
    settle_operation E.
  - destruct (Gateway.getBucketInfo W acct st) as [x s] eqn:E. simplify_eq.
    unfold Gateway.getBucketInfo, Gateway.info_lookup, Gateway.getAuthToken,
      Gateway.fetch, Gateway.json, Gateway.now in E.
    settle_operation E.
Qed.

(** C1, as the code has it.  No function of the gateway drops or replaces
    a cached authorization, and a remote call answered with a status
    outside 2xx (401 included) is the last call of the function that made
    it: the call is not repeated, and the function surfaces the failure at
    once: a handler answers status 500, [listFiles] returns the empty list
    and [getBucketInfo] a made-up description.  The pages [GET /] and
    [GET /api/bucket-info/:account] call the store through [listFiles] and
    [getBucketInfo] only and go on with their remaining invocations after
    such a failure: [GET /] answers its page in every case, and
    [GET /api/bucket-info/:account] the usage of a configured account
    unless the description is [null]. *)
Theorem rejected_call_ends_operation
    (W : B2.World) (i : Gateway.invocation) (st st' : Gateway.state)
    (r : Gateway.returned) :
  Gateway.invoke W i st = (r, st') ->
  Gateway.authTokenCache st ⊆ Gateway.authTokenCache st'
  /\ (forall post q h code,
        Gateway.calls st' = post ++ q :: h ->
        (exists pre, h = pre ++ Gateway.calls st) ->
        B2.answer_status W h q = Some code ->
        B2.accepted code = false ->
        post = [] /\ Gateway.surfaced r = true)
  /\ (forall s,
        snd (Gateway.home W s) = Gateway.invoke_all W (Gateway.home_invocations W) s
        /\ exists allFiles bucketInfos,
             fst (Gateway.home W s)
             = Gateway.HomePage (Gateway.keys (B2.bucketConfig W)) allFiles
                 bucketInfos)
  /\ (forall acct s,
        snd (Gateway.bucket_info W acct s)
        = Gateway.invoke_all W (Gateway.bucket_info_invocations W acct s) s
        /\ (is_Some (B2.bucketConfig W !! acct) ->
            fst (Gateway.getBucketInfo W acct s) <> Gateway.Described None ->
            exists u, fst (Gateway.bucket_info W acct s) = Gateway.BucketUsage u)).
Proof.
  intros H.
  destruct (invocation_ends_at_rejection W i st st' r H) as [Hkeep Hend].
  split; [exact Hkeep|]. split; [exact Hend|]. split.
  - apply home_run.
  - intros acct s. apply bucket_info_run.
Qed.

Lemma rejected_call_ends_operation_witness :
  Gateway.surfaced
    (fst (Gateway.invoke Scenario.expired (Gateway.Operation (Gateway.List "account1"))
            Scenario.authorized)) = true
  /\ Gateway.calls (snd (Gateway.home Scenario.expired Scenario.authorized))
     = [B2.GetBucketInfo "https://api001.backblazeb2.com" "token-1" (Some "bucket-1");
        B2.ListFileNames "https://api001.backblazeb2.com" "token-1"
          (Some "bucket-1") "files/" 1000].
Proof.
  destruct (Gateway.invoke Scenario.expired (Gateway.Operation (Gateway.List "account1"))
              Scenario.authorized) as [r st'] eqn:E.
  destruct (rejected_call_ends_operation Scenario.expired
              (Gateway.Operation (Gateway.List "account1"))
              Scenario.authorized st' r E) as (_ & Hend & Hhome & _).
  split.
  - apply (Hend [] (B2.ListFileNames "https://api001.backblazeb2.com" "token-1"
                      (Some "bucket-1") "files/" 1000) [] 401%N).
    + vm_compute in E. injection E as _ <-. reflexivity.
    + exists []. reflexivity.
    + reflexivity.
    + reflexivity.
  - rewrite (proj1 (Hhome Scenario.authorized)). vm_compute. reflexivity.
Defined.

(** C1, as stated, fails: a listing answered 401 is neither followed by a
    new authorization nor issued a second time; the cached token stays. *)
Lemma rejected_listing_is_not_retried :
  let st' := snd (Gateway.listFiles Scenario.expired "account1" Scenario.authorized) in
  B2.answer_status Scenario.expired (Gateway.calls Scenario.authorized)
    (B2.ListFileNames "https://api001.backblazeb2.com" "token-1" (Some "bucket-1")
       "files/" 1000) = Some 401%N
  /\ ~ (Gateway.reauthorized Scenario.authorized st'
        \/ Gateway.retried_once B2.b2_list_file_names Scenario.authorized st')
  /\ Gateway.authTokenCache st' !! "account1" = Some Scenario.session.
Proof.
  cbv zeta. split; [reflexivity|]. split; [|reflexivity].
  intros [(k & a & Hin) | Hretry].
  - vm_compute in Hin. destruct Hin as [Hin|[]]. discriminate.
  - vm_compute in Hretry. discriminate.
Qed.

(** ** Uploads in the metadata server *)

Ltac no_delete :=
  let q := fresh "q" in
  let Hin := fresh "Hin" in
  let He := fresh "He" in
  intros q Hin He; cbn in Hin;
  repeat (destruct Hin as [Hin|Hin]; [subst q; discriminate He|]);
  exact Hin.

Section ServerUpload.
Import B2 Eff.
Variable W : Server.World.

Lemma thumb_path_differs (p : string) : p +:+ "_thumb.jpg" <> p.
Proof.
  intros H. apply (f_equal String.length) in H.
  rewrite length_app_s in H. cbn in H. lia.
Qed.

Lemma In_upsert {A} (id_of : A -> N) (x : A) (l : list A) :
  In x (Server.upsert id_of x l).
Proof.
  induction l as [|y l IH]; cbn; [auto|].
  destruct (id_of y =? id_of x)%N; cbn; auto.
Qed.

Lemma no_delete_since_refl st : Server.no_delete_since st st.
Proof. intros q H _. exact H. Qed.

Lemma no_delete_since_trans st1 st2 st3 :
  Server.no_delete_since st1 st2 -> Server.no_delete_since st2 st3 ->
  Server.no_delete_since st1 st3.
Proof. unfold Server.no_delete_since. eauto. Qed.

Lemma generateVideoThumbnail_spec p acct outputFileName st o st' :
  Server.generateVideoThumbnail W p acct outputFileName st = (o, st') ->
  (exists res, o = Return res)
  /\ Server.files st' = Server.files st
  /\ Server.dbOps st' = Server.dbOps st
  /\ (forall k, k <> p +:+ "_thumb.jpg" ->
                Server.tempFiles st' !! k = Server.tempFiles st !! k)
  /\ Server.no_delete_since st st'
  /\ (Server.screenshots W p = None -> o = Return None)
  /\ (forall q, In q (Server.calls st) -> In q (Server.calls st')).
Proof.
  unfold Server.generateVideoThumbnail, Server.uploadFileToB2,
    Server.getAuthToken, Server.bucketId_of, Server.readFileSync,
    Server.unlinkSync, Server.existsSync, Server.fetch, Server.json.
  intros H.
  eff_run H; (split; [eauto|]); (split; [reflexivity|]); (split; [reflexivity|]);
    (split; [|split; [no_delete | split; [congruence | intros ? ?; cbn; tauto]]]).
  all: intros k Hk; cbn;
    rewrite ?lookup_delete_ne by congruence;
    rewrite ?lookup_insert_ne by congruence; reflexivity.
Qed.

Lemma validate_with_thumbnailUrl r u :
  Server.validate_file W (Server.with_thumbnailUrl r u) = Server.validate_file W r.
Proof. reflexivity. Qed.

Lemma validate_with_seconds r q :
  Server.validate_file W r = None ->
  Server.validate_file W (Server.with_duration r (Server.Seconds q)) = None.
Proof.
  unfold Server.validate_file, Server.file_errors. cbn.
  destruct (Server.folderRef r), (Server.duration r) as [[]|];
    cbn; intros H; first [discriminate H | exact H].
Qed.

(** The enrichment of a record never throws; it touches neither the
    document store nor the staged upload and deletes nothing in the
    bucket; unless the probe hands over a text for the duration, a record
    that was valid stays so. *)
Lemma enrich_spec file acct filename record st o st' :
  Server.enrich W file acct filename record st = (o, st') ->
  exists record',
    o = Return record'
    /\ Server.files st' = Server.files st
    /\ Server.dbOps st' = Server.dbOps st
    /\ Server.tempFiles st' !! Server.file_path file
       = Server.tempFiles st !! Server.file_path file
    /\ Server.no_delete_since st st'
    /\ ((forall text, Server.ffprobe W (Server.file_path file)
                      <> Server.Probed (Some (Server.NotANumber text))) ->
        Server.validate_file W record = None ->
        Server.validate_file W record' = None)
    /\ Server.fullFileName record' = Server.fullFileName record
    /\ ((exists m, Server.ffprobe W (Server.file_path file) = Server.ProbeFails m) ->
        Server.duration record' = Server.duration record)
    /\ (fst (Server.generateVideoThumbnail W (Server.file_path file) acct
               (filename +:+ ".jpg") st) = Return None ->
        Server.thumbnailUrl record' = Server.thumbnailUrl record)
    /\ (forall q, In q (Server.calls st) -> In q (Server.calls st')).
Proof.
  unfold Server.enrich, Server.getVideoDuration. intros H.
  eff_run H;
    try match goal with
      | Hx : Server.generateVideoThumbnail _ _ _ _ _ = _ |- _ =>
          let Hy := fresh "Hthumb" in
          pose proof Hx as Hy;
          apply generateVideoThumbnail_spec in Hy
            as ((? & ?) & ? & ? & ? & ? & ? & ?)
      end; simplify_eq/=.
  all: repeat match goal with
         | |- context [match ?x with _ => _ end] => destruct x eqn:?
         end.
  all: repeat match goal with
         | Hp : match Server.ffprobe W ?p with _ => _ end = _ |- _ =>
             destruct (Server.ffprobe W p) eqn:?; simplify_eq
         end.
  all: eexists; split; [reflexivity|].
  all: repeat (split; [first [reflexivity | solve [auto using no_delete_since_refl]
                             | idtac]|]).
  all: try solve [ auto using no_delete_since_refl ].
  all: try solve [ intros Hno Hv; rewrite ?validate_with_thumbnailUrl;
                   first [ exact Hv | now apply validate_with_seconds
                         | exfalso; eapply Hno; first [eassumption | reflexivity] ] ].
  all: try solve [ intros [m Hm]; rewrite Hm in *; discriminate
                 | intros [m Hm]; congruence | intros [=] ].
  all: match goal with
       | Hk : forall k, _ -> _ !! k = _ !! k |- _ =>
           apply Hk; intros E; symmetry in E; exact (thumb_path_differs _ E)
       end.
Qed.

(** What a successful staging leaves: the upload is still staged, the
    store untouched, the object uploaded under the key of the record. *)
Lemma stage_spec acct title folderId file st filename record st' :
  Server.stage W acct title folderId file st = (Return (filename, record), st') ->
  Server.files st' = Server.files st
  /\ Server.dbOps st' = Server.dbOps st
  /\ is_Some (Server.tempFiles st' !! Server.file_path file)
  /\ Server.no_delete_since st st'
  /\ Server.duration record = None
  /\ Server.thumbnailUrl record = None
  /\ exists url token contentType data,
       In (UploadFile url token (Server.fullFileName record) contentType data)
          (Server.calls st').
Proof.
  unfold Server.stage, Server.uploadFileToB2, Server.getAuthToken,
    Server.bucketId_of, Server.readFileSync, Server.new_id, Server.now,
    Server.fetch, Server.json.
  intros H.
  eff_run H; repeat split; try no_delete; eauto.
  all: cbn; eauto 10.
Qed.

End ServerUpload.



(** An upload whose folder id is no ObjectId, and a video whose probe
    finds no duration and hands over the text [N/A], fail validation and
    are answered 500, the object transferred. *)
Lemma unreadable_values_are_refused :
  fst (Server.upload Scenario.studio Cases.clip_unfiled Scenario.shelves)
  = Server.JsonError 500
      ("File validation failed: "
       +:+ Server.cast_error "folder" "ObjectId" ""
             (Server.cast_reason Scenario.studio))
  /\ fst (Server.upload Cases.unknown_duration Scenario.upload_clip Scenario.shelves)
     = Server.JsonError 500
         ("File validation failed: "
          +:+ Server.cast_error "duration" "Number" "N/A"
                (Server.number_cast_reason Cases.unknown_duration)).
Proof. split; vm_compute; reflexivity. Qed.

(** C4, as the code has it.  When the record cannot be saved after the
    file was transferred, the upload answers 500 with the message of the
    failure and removes the staged file; it makes no further remote call,
    so it deletes nothing in the bucket and the object uploaded under the
    record's key stays there, unindexed. *)
Theorem commit_failure_keeps_remote_object
    (W : Server.World) (b : Server.upload_body) (acct : string)
    (file : Server.uploadedFile) (st st1 st2 st3 : Server.state)
    (filename : string) (record0 record : Server.fileRecord) (message : string) :
  Gateway.present (Server.up_account b) = Some acct ->
  Server.up_file b = Some file ->
  is_Some (B2.bucketConfig (Server.b2 W) !! acct) ->
  Server.stage W acct (Server.up_title b) (Server.up_folderId b) file st
  = (Eff.Return (filename, record0), st1) ->
  Server.enrich W file acct filename record0 st1 = (Eff.Return record, st2) ->
  Server.File_save W record st2 = (Eff.Throw message, st3) ->
  exists st',
    Server.upload W b st = (Server.JsonError 500 message, st')
    /\ Server.files st' = Server.files st
    /\ Server.tempFiles st' !! Server.file_path file = None
    /\ Server.calls st' = Server.calls st2
    /\ Server.no_delete_since st st'
    /\ exists url token contentType data,
         In (B2.UploadFile url token (Server.fullFileName record) contentType data)
            (Server.calls st').
Proof.
  intros Hacct Hfile [cfg Hcfg] Hstage He Hsave.
  destruct (enrich_spec W _ _ _ _ _ _ _ He)
    as (record' & [= <-] & Hf & Hd & Ht & Hnd2 & _ & Hk & _ & _ & Hgrow).
  destruct (stage_spec W _ _ _ _ _ _ _ _ Hstage)
    as (Hf1 & _ & Hstaged & Hnd1 & _ & _ & (url & token & ct & data & Hup)).
  rewrite <- Ht in Hstaged.
  assert (Hst3 : Server.files st3 = Server.files st2
                 /\ Server.tempFiles st3 = Server.tempFiles st2
                 /\ Server.calls st3 = Server.calls st2).
  { unfold Server.File_save, Server.db, Eff.throw in Hsave.
    destruct (Server.validate_file _ record); [now simplify_eq|].
    destruct (Server.db_error W (Server.dbOps st2)); now simplify_eq. }
  destruct Hst3 as (Hf3 & Ht3 & Hc3).
  rewrite <- Ht3 in Hstaged.
  eexists. split; [|split; [|split; [|split; [|split]]]].
  - unfold Server.upload, Eff.run. rewrite Hacct, Hfile, Hcfg.
    unfold Eff.try_catch, Server.upload_body_of, Eff.bind.
    rewrite Hstage. cbn [fst snd]. rewrite He.
    unfold Server.commit, Eff.bind. rewrite Hsave.
    unfold Server.unlinkSync, Server.existsSync, Eff.bind, Eff.gets, Eff.modify,
      Eff.ret.
    rewrite (bool_decide_eq_true_2 _ Hstaged). cbv beta iota.
    rewrite (bool_decide_eq_true_2 _ Hstaged). reflexivity.
  - cbn. congruence.
  - cbn. apply lookup_delete_eq.
  - cbn. exact Hc3.
  - unfold Server.no_delete_since. cbn. intros q Hin Hdel. rewrite Hc3 in Hin.
    apply Hnd1; [apply Hnd2|]; assumption.
  - exists url, token, ct, data. cbn. rewrite Hc3, Hk. auto.
Qed.

Lemma commit_failure_keeps_remote_object_witness :
  exists st',
    Server.upload Scenario.store_down Scenario.upload_clip Scenario.shelves
    = (Server.JsonError 500 "MongoNetworkError: connection closed", st')
    /\ Server.no_delete_since Scenario.shelves st'.
Proof.
  destruct (Server.stage Scenario.store_down "account1" (Some "Demo Video") None
              Scenario.clip Scenario.shelves) as [[[filename record0]|m] st1] eqn:E;
    [|vm_compute in E; discriminate].
  destruct (Server.enrich Scenario.store_down Scenario.clip "account1" filename
              record0 st1) as [[record|m] st2] eqn:E2.
  - destruct (Server.File_save Scenario.store_down record st2)
      as [[[]|message] st3] eqn:E3.
    + pose proof E as E'. vm_compute in E'. injection E' as <- <- <-.
      pose proof E2 as E2'. vm_compute in E2'. injection E2' as <- <-.
      vm_compute in E3. discriminate.
    + destruct (commit_failure_keeps_remote_object Scenario.store_down
                  Scenario.upload_clip "account1" Scenario.clip Scenario.shelves
                  st1 st2 st3 filename record0 record message)
        as (st' & Hup & _ & _ & _ & Hnd & _);
        [reflexivity | reflexivity | eexists; reflexivity | exact E | exact E2
        | exact E3 |].
      exists st'. split; [|exact Hnd].
      rewrite Hup. f_equal. f_equal.
      pose proof E as E'. vm_compute in E'. injection E' as <- <- <-.
      pose proof E2 as E2'. vm_compute in E2'. injection E2' as <- <-.
      vm_compute in E3. now injection E3.
  - apply enrich_spec in E2 as (? & [=] & _).
Defined.

(** C4, as stated, fails: with the document store down, the upload of a
    video answers 500 after two transfers (the file and its thumbnail) and
    sends no [b2_delete_file_version] for either. *)
Lemma failed_commit_sends_no_delete :
  fst (Server.upload Scenario.store_down Scenario.upload_clip Scenario.shelves)
  = Server.JsonError 500 "MongoNetworkError: connection closed"
  /\ In (B2.UploadFile "https://pod.backblazeb2.com/upload" "upload-token"
          "files/Demo_Video_1700000000000.mp4" "video/mp4" "mp4-bytes")
       (Server.calls
          (snd (Server.upload Scenario.store_down Scenario.upload_clip
                  Scenario.shelves)))
  /\ ~ exists q,
         In q (Server.calls
                 (snd (Server.upload Scenario.store_down Scenario.upload_clip
                         Scenario.shelves)))
         /\ B2.endpoint_of q = B2.b2_delete_file_version.
Proof.
  assert (Hcalls :
            Server.calls
              (snd (Server.upload Scenario.store_down Scenario.upload_clip
                      Scenario.shelves))
            = [B2.UploadFile "https://pod.backblazeb2.com/upload" "upload-token"
                 "thumbnails/Demo_Video_1700000000000.jpg" "image/jpeg" "jpeg-bytes";
               B2.GetUploadUrl "https://api001.backblazeb2.com" "token-1"
                 (Some "bucket-1");
               B2.UploadFile "https://pod.backblazeb2.com/upload" "upload-token"
                 "files/Demo_Video_1700000000000.mp4" "video/mp4" "mp4-bytes";
               B2.GetUploadUrl "https://api001.backblazeb2.com" "token-1"
                 (Some "bucket-1");
               B2.AuthorizeAccount (Some "key") (Some "key")])
    by (vm_compute; reflexivity).
  rewrite Hcalls.
  split; [vm_compute; reflexivity|]. split.
  - cbn. tauto.
  - intros (q & Hin & Hq). cbn in Hin.
    repeat (destruct Hin as [<-|Hin]; [discriminate Hq|]). exact Hin.
Qed.

(** ** Paths and prefixes *)
Section PathFacts.

Lemma prefix_nil (s : string) : String.prefix "" s = true.
Proof. now destruct s. Qed.

Lemma prefix_cons (a b : ascii) (p s : string) :
  String.prefix (String a p) (String b s)
  = if Ascii.ascii_dec a b then String.prefix p s else false.
Proof. reflexivity. Qed.

Lemma prefix_cons_nil (a : ascii) (p : string) : String.prefix (String a p) "" = false.
Proof. reflexivity. Qed.

Lemma prefix_app (p r : string) : String.prefix p (p +:+ r) = true.
Proof.
  induction p as [|a p IH]; [apply prefix_nil|].
  rewrite app_cons_s, prefix_cons. now destruct (Ascii.ascii_dec a a).
Qed.

Lemma prefix_inv (p s : string) :
  String.prefix p s = true -> exists r, s = p +:+ r.
Proof.
  revert s. induction p as [|a p IH]; intros s H.
  - now exists s.
  - destruct s as [|b s]; [discriminate|].
    rewrite prefix_cons in H. destruct (Ascii.ascii_dec a b) as [->|]; [|discriminate].
    destruct (IH s H) as [r ->]. now exists r.
Qed.

Lemma prefix_app_cancel (c a b : string) :
  String.prefix (c +:+ a) (c +:+ b) = String.prefix a b.
Proof.
  induction c as [|x c IH]; [reflexivity|].
  rewrite !app_cons_s, prefix_cons. now destruct (Ascii.ascii_dec x x).
Qed.

Lemma prefix_length (p s : string) :
  String.prefix p s = true -> (String.length p <= String.length s)%nat.
Proof.
  intros H. destruct (prefix_inv p s H) as [r ->].
  rewrite length_app_s. lia.
Qed.

Lemma prefix_app_l (a b s : string) :
  String.prefix (a +:+ b) s = true -> String.prefix a s = true.
Proof.
  intros H. destruct (prefix_inv _ _ H) as [r ->].
  rewrite app_assoc_s. apply prefix_app.
Qed.

Lemma prefix_trans_app (p s r : string) :
  String.prefix p s = true -> String.prefix p (s +:+ r) = true.
Proof.
  intros H. destruct (prefix_inv _ _ H) as [t ->].
  rewrite app_assoc_s. apply prefix_app.
Qed.

Lemma drop_app (p r : string) : Js.drop (String.length p) (p +:+ r) = r.
Proof. induction p as [|a p IH]; [now destruct r|]. exact IH. Qed.

Lemma drop_app_le (n : nat) (s r : string) :
  (n <= String.length s)%nat -> Js.drop n (s +:+ r) = Js.drop n s +:+ r.
Proof.
  revert s. induction n as [|n IH]; intros s Hn; [reflexivity|].
  destruct s as [|a s]; cbn in Hn; [lia|].
  rewrite app_cons_s. cbn. apply IH. lia.
Qed.

(** A text without slash has no prefix that ends with a slash. *)
Lemma slash_free_no_dir (a n : string) :
  Js.slash_free n = true -> String.prefix (a +:+ "/") n = false.
Proof.
  intros Hn. destruct (String.prefix (a +:+ "/") n) eqn:H; [|reflexivity].
  destruct (prefix_inv _ _ H) as [r ->].
  unfold Js.slash_free in Hn. rewrite !every_app in Hn.
  cbn in Hn. rewrite andb_false_r in Hn. discriminate.
Qed.

(** Where a directory prefix of [b/n] can end when [n] has no slash: at
    [b] itself, or inside [b]. *)
Lemma prefix_dir_cases (a b n : string) :
  Js.slash_free n = true ->
  String.prefix (a +:+ "/") (b +:+ "/" +:+ n) = true ->
  a = b \/ String.prefix (a +:+ "/") b = true.
Proof.
  intros Hn. revert b. induction a as [|x a IH]; intros [|y b] H.
  - now left.
  - right. rewrite app_nil_l_s in *. rewrite app_cons_s in H.
    change "/" with (String "/" "") in *. rewrite prefix_cons in *.
    destruct (Ascii.ascii_dec "/" y); [apply prefix_nil|discriminate].
  - exfalso. rewrite app_nil_l_s, app_cons_s in H.
    change ("/" +:+ n) with (String "/" n) in H. rewrite prefix_cons in H.
    destruct (Ascii.ascii_dec x "/"); [|discriminate].
    now rewrite slash_free_no_dir in H.
  - rewrite !app_cons_s, prefix_cons in H.
    destruct (Ascii.ascii_dec x y) as [->|]; [|discriminate].
    destruct (IH b H) as [->|Hp]; [now left|right].
    rewrite app_cons_s, prefix_cons. now destruct (Ascii.ascii_dec y y).
Qed.

Lemma find_first_prefix (p s : string) :
  String.prefix p s = true ->
  Js.find_first p s = Some ("", Js.drop (String.length p) s).
Proof. intros H. destruct s; cbn; now rewrite H. Qed.

Lemma literal_no_dollar (c : ascii) (r : string) :
  Js.literal (String c r) = true -> Ascii.eqb c "$" = false /\ Js.literal r = true.
Proof.
  unfold Js.literal. cbn [Js.every]. intros H.
  apply andb_prop in H as [Hc Hr]. split; [|exact Hr].
  destruct (Ascii.eqb_spec c "$") as [->|]; [discriminate|reflexivity].
Qed.

(** A replacement text without [$] is inserted as it is. *)
Lemma substitution_literal (m b a r : string) :
  Js.literal r = true -> Js.substitution m b a r = r.
Proof.
  induction r as [|c r IH]; [reflexivity|]. intros H.
  apply literal_no_dollar in H as [Hc Hr].
  cbn [Js.substitution]. rewrite Hc. now rewrite IH.
Qed.

Lemma replace_prefix (s old new : string) :
  String.prefix (old +:+ "/") s = true ->
  Js.literal new = true ->
  Js.replace s old new = new +:+ Js.drop (String.length old) s.
Proof.
  intros Hp Hn. unfold Js.replace.
  rewrite (find_first_prefix old s (prefix_app_l _ _ _ Hp)).
  rewrite app_nil_l_s. now rewrite substitution_literal.
Qed.

Lemma literal_app (a b : string) :
  Js.literal (a +:+ b) = Js.literal a && Js.literal b.
Proof. apply every_app. Qed.

End PathFacts.

(** ** The folder collection *)
Section FolderStore.
Import Server.

Lemma same_id_same_folder (fs : list folder) (a b : folder) :
  NoDup (List.map f_id fs) -> In a fs -> In b fs -> f_id a = f_id b -> a = b.
Proof.
  induction fs as [|x fs IH]; cbn; intros Hnd Ha Hb E; [contradiction|].
  apply NoDup_cons in Hnd as [Hx Hnd].
  destruct Ha as [->|Ha], Hb as [->|Hb]; auto.
  - exfalso. apply Hx. rewrite list_elem_of_In, E. now apply in_map.
  - exfalso. apply Hx. rewrite list_elem_of_In, <- E. now apply in_map.
Qed.

Lemma find_by_id (fs : list folder) (g : folder) :
  NoDup (List.map f_id fs) -> In g fs ->
  List.find (fun x => (f_id x =? f_id g)%N) fs = Some g.
Proof.
  intros Hnd Hin.
  destruct (List.find (fun x => (f_id x =? f_id g)%N) fs) as [x|] eqn:Hf.
  - apply find_some in Hf as [Hx Hid]. apply N.eqb_eq in Hid.
    f_equal. eapply same_id_same_folder; eauto.
  - eapply find_none in Hf; [|exact Hin]. cbn in Hf.
    now rewrite N.eqb_refl in Hf.
Qed.

Lemma find_map_ids (R : folder -> folder) (p : N) (fs : list folder) :
  (forall g, f_id (R g) = f_id g) ->
  List.find (fun x => (f_id x =? p)%N) (List.map R fs)
  = option_map R (List.find (fun x => (f_id x =? p)%N) fs).
Proof.
  intros HR. induction fs as [|x fs IH]; [reflexivity|]. cbn.
  rewrite HR. destruct (f_id x =? p)%N; [reflexivity|exact IH].
Qed.

Lemma map_ids (R : folder -> folder) (fs : list folder) :
  (forall g, f_id (R g) = f_id g) ->
  List.map f_id (List.map R fs) = List.map f_id fs.
Proof.
  intros HR. rewrite List.map_map. apply List.map_ext. exact HR.
Qed.

Lemma upsert_replace (x : folder) (fs : list folder) :
  NoDup (List.map f_id fs) -> In (f_id x) (List.map f_id fs) ->
  upsert f_id x fs
  = List.map (fun g => if (f_id g =? f_id x)%N then x else g) fs.
Proof.
  induction fs as [|a fs IH]; cbn; intros Hnd Hin; [contradiction|].
  apply NoDup_cons in Hnd as [Ha Hnd].
  destruct (N.eqb_spec (f_id a) (f_id x)) as [E|E].
  - f_equal. rewrite <- (List.map_id fs) at 1. apply List.map_ext_in.
    intros g Hg. destruct (N.eqb_spec (f_id g) (f_id x)) as [E'|]; [|reflexivity].
    exfalso. apply Ha. rewrite list_elem_of_In, E, <- E'. now apply in_map.
  - f_equal. apply IH; [exact Hnd|]. destruct Hin as [Hin|Hin]; [congruence|exact Hin].
Qed.

Lemma upsert_fresh (x : folder) (fs : list folder) :
  ~ In (f_id x) (List.map f_id fs) -> upsert f_id x fs = fs ++ [x].
Proof.
  induction fs as [|a fs IH]; cbn; intros Hin; [reflexivity|].
  destruct (N.eqb_spec (f_id a) (f_id x)) as [E|E]; [tauto|].
  f_equal. apply IH. tauto.
Qed.

Lemma save_all_map (fs0 : list folder) (upd : folder -> folder)
    (subs : list folder) (h : folder -> folder) :
  NoDup (List.map f_id fs0) ->
  (forall g, f_id (upd g) = f_id g) ->
  (forall g, f_id (h g) = f_id g) ->
  (forall s, In s subs -> In s fs0) ->
  save_all (List.map upd subs) (List.map h fs0)
  = List.map (fun g => if existsb (fun s => (f_id s =? f_id g)%N) subs
                       then upd g else h g) fs0.
Proof.
  intros Hnd Hupd. revert h.
  induction subs as [|s subs IH]; intros h Hh Hsub; [reflexivity|].
  cbn [List.map save_all List.fold_left].
  rewrite upsert_replace.
  2: { now rewrite map_ids. }
  2: { rewrite map_ids by exact Hh. rewrite Hupd. apply in_map. apply Hsub. now left. }
  rewrite List.map_map.
  change (List.fold_left (fun acc u => upsert f_id u acc) (List.map upd subs) ?l)
    with (save_all (List.map upd subs) l).
  rewrite (IH (fun g => if (f_id (h g) =? f_id (upd s))%N then upd s else h g)).
  - apply List.map_ext_in. intros g Hg. cbn [existsb].
    rewrite Hh, Hupd.
    destruct (existsb (fun s0 => (f_id s0 =? f_id g)%N) subs).
    + now rewrite orb_true_r.
    + rewrite orb_false_r. rewrite (N.eqb_sym (f_id s) (f_id g)).
      destruct (N.eqb_spec (f_id g) (f_id s)) as [E|]; [|reflexivity].
      f_equal. eapply same_id_same_folder; eauto. apply Hsub. now left.
  - intros g. destruct (f_id (h g) =? f_id (upd s))%N eqn:E.
    + apply N.eqb_eq in E. now rewrite <- E.
    + apply Hh.
  - intros s' Hs'. apply Hsub. now right.
Qed.

Lemma existsb_filter_id (P : folder -> bool) (fs : list folder) (g : folder) :
  NoDup (List.map f_id fs) -> In g fs ->
  existsb (fun s => (f_id s =? f_id g)%N) (List.filter P fs) = P g.
Proof.
  intros Hnd Hg. destruct (P g) eqn:HP.
  - apply existsb_exists. exists g. split; [|apply N.eqb_refl].
    apply filter_In. auto.
  - apply not_true_is_false. intros H.
    apply existsb_exists in H as (s & Hs & E).
    apply filter_In in Hs as [Hs HPs]. apply N.eqb_eq in E.
    assert (s = g) by (eapply same_id_same_folder; eauto). congruence.
Qed.

Lemma filter_map_same (P : folder -> bool) (h : folder -> folder) (fs : list folder) :
  (forall g, In g fs -> h g = g \/ (P (h g) = false /\ P g = false)) ->
  List.filter P (List.map h fs) = List.filter P fs.
Proof.
  induction fs as [|a fs IH]; intros H; [reflexivity|]. cbn.
  rewrite IH by (intros g Hg; apply H; now right).
  destruct (H a (or_introl eq_refl)) as [->|[-> ->]]; reflexivity.
Qed.

End FolderStore.

(** ** Renaming a folder *)
Section RenameFolder.
Import B2 Eff Server.
Variable W : World.
Hypothesis Hengine : literal_engine W.
Hypothesis Hdb : forall k, db_error W k = None.

Lemma db_run {A} (op : state -> A * state) st :
  db W op st = (Return (fst (op (db_tick st))), snd (op (db_tick st))).
Proof. unfold db. rewrite Hdb. now destruct (op (db_tick st)). Qed.

Lemma update_each_run old new subs st :
  (forall s, In s subs -> Js.replace (path s) old new <> "") ->
  exists st',
    update_each W old new subs st = (Return tt, st')
    /\ folders st'
       = save_all (List.map (fun s => with_path s (Js.replace (path s) old new)) subs)
                  (folders st).
Proof.
  revert st. induction subs as [|s subs IH]; intros st Hne.
  - exists st. split; reflexivity.
  - cbn [update_each]. unfold bind, Folder_save, validate_folder.
    cbn [andb path with_path].
    destruct (String.eqb_spec (Js.replace (path s) old new) "") as [E|_].
    { exfalso. eapply Hne; [now left|exact E]. }
    rewrite db_run. cbn [fst snd].
    destruct (IH (set_folders
                    (upsert f_id (with_path s (Js.replace (path s) old new)))
                    (db_tick st))) as (st' & Hrun & Hf).
    { intros s' Hs'. apply Hne. now right. }
    exists st'. split; [exact Hrun|]. rewrite Hf. reflexivity.
Qed.

Lemma truthy_nonempty n : Js.truthy (Some n) = true -> n <> "".
Proof.
  unfold Js.truthy. destruct (String.eqb_spec n ""); [discriminate|auto].
Qed.

Lemma app_nonempty (a b : string) : b <> "" -> a +:+ b <> "".
Proof. destruct a; [auto|discriminate]. Qed.

Lemma app_nonempty_l (a b : string) : a <> "" -> a +:+ b <> "".
Proof. destruct a; [contradiction|discriminate]. Qed.

Lemma parent_of (fs : list folder) (f : folder) p :
  expected_path fs f = Some (path f) -> parent f = Some p ->
  exists pf, List.find (fun g => (f_id g =? p)%N) fs = Some pf
             /\ path f = path pf +:+ "/" +:+ name f.
Proof.
  unfold expected_path. intros H Hp. rewrite Hp in H.
  destruct (List.find _ fs) as [pf|]; [|discriminate].
  exists pf. split; [reflexivity|]. now injection H.
Qed.

(** The renamed folder is not below its old path, before or after. *)
Lemma not_below_itself (fs : list folder) (f : folder) n :
  expected_path fs f = Some (path f) ->
  Js.slash_free n = true ->
  String.prefix (path f +:+ "/") (renamed_path fs f n) = false
  /\ String.prefix (path f +:+ "/") (path f) = false.
Proof.
  intros Hinv Hn. split.
  - unfold renamed_path. destruct (parent f) as [p|] eqn:Hp.
    + destruct (parent_of fs f p Hinv Hp) as (pf & -> & ->).
      rewrite !app_assoc_s, prefix_app_cancel.
      change ("/" +:+ name f +:+ "/") with ("/" +:+ (name f +:+ "/")).
      rewrite prefix_app_cancel. now apply slash_free_no_dir.
    + now apply slash_free_no_dir.
  - destruct (String.prefix (path f +:+ "/") (path f)) eqn:H; [|reflexivity].
    apply prefix_length in H. rewrite length_app_s in H. cbn in H. lia.
Qed.

Lemma renamed_path_literal (fs : list folder) (f : folder) n :
  (forall g, In g fs -> Js.literal (path g) = true) ->
  Js.literal n = true ->
  Js.literal (renamed_path fs f n) = true.
Proof.
  intros Hfs Hn. unfold renamed_path.
  destruct (parent f) as [p|]; [|exact Hn].
  destruct (List.find _ fs) as [pf|] eqn:Hf; [|exact Hn].
  apply find_some in Hf as [Hin _].
  rewrite !literal_app, (Hfs pf Hin), Hn. reflexivity.
Qed.

Lemma renamed_path_nonempty (fs : list folder) (f : folder) n :
  n <> "" -> renamed_path fs f n <> "".
Proof.
  intros Hn. unfold renamed_path.
  destruct (parent f) as [p|]; [|exact Hn].
  destruct (List.find _ fs) as [pf|]; [|exact Hn].
  apply app_nonempty. discriminate.
Qed.

(** What a rename that meets no failure leaves in the store. *)
Lemma rename_folder_store id n f st :
  path_invariant (folders st) ->
  NoDup (List.map f_id (folders st)) ->
  List.find (fun g => (f_id g =? id)%N) (folders st) = Some f ->
  Js.truthy (Some n) = true -> Js.trim n = n ->
  Js.slash_free n = true -> Js.literal n = true ->
  (forall g, In g (folders st) -> Js.literal (path g) = true) ->
  exists st',
    rename_folder W id (Some n) st
    = (FolderRenamed (with_path (with_name f n) (renamed_path (folders st) f n)), st')
    /\ folders st'
       = List.map (renamed id (path f)
                     (with_path (with_name f n) (renamed_path (folders st) f n)))
                  (folders st).
Proof.
  intros Hinv Hnd Hfind Htruthy Htrim Hslash Hlit Hpaths.
  set (fs := folders st) in *.
  set (newPath := renamed_path fs f n).
  set (f' := with_path (with_name f n) newPath).
  pose proof (find_some _ _ Hfind) as [Hfin Hfid]. apply N.eqb_eq in Hfid.
  assert (Hfinv : expected_path fs f = Some (path f)).
  { unfold path_invariant in Hinv. rewrite List.Forall_forall in Hinv. auto. }
  destruct (not_below_itself fs f n Hfinv Hslash) as [Hnew Hold].
  fold newPath in Hnew.
  pose proof (renamed_path_literal fs f n Hpaths Hlit) as Hnewlit. fold newPath in Hnewlit.
  pose proof (renamed_path_nonempty fs f n (truthy_nonempty n Htruthy)) as Hnewne.
  fold newPath in Hnewne.
  (* the path computed by the handler *)
  assert (Hpath : exists st1,
             (match parent f with
              | Some p =>
                  bind (Folder_findById W p)
                    (fun parentFolder =>
                       match parentFolder with
                       | Some parentFolder => ret (path parentFolder +:+ "/" +:+ n)
                       | None => throw "Cannot read properties of null (reading 'path')"
                       end)
              | None => ret n
              end) (db_tick st) = (Return newPath, st1)
             /\ folders st1 = fs).
  { unfold newPath, renamed_path. destruct (parent f) as [p|] eqn:Hp.
    - destruct (parent_of fs f p Hfinv Hp) as (pf & Hpf & _).
      unfold bind, Folder_findById. rewrite db_run. cbn [fst snd folders db_tick].
      fold fs. rewrite Hpf. eexists. split; reflexivity.
    - eexists. split; reflexivity. }
  destruct Hpath as (st1 & Hpath & Hfs1).
  set (h := fun g => if (f_id g =? f_id f')%N then f' else g).
  assert (Hsave : Folder_save W true f' st1
                  = (Return tt, set_folders (fun _ => List.map h fs) (db_tick st1))).
  { unfold Folder_save, validate_folder. cbn [andb name path f' with_path with_name].
    rewrite Htrim.
    destruct (String.eqb_spec n "") as [E|_]; [now apply truthy_nonempty in Htruthy|].
    destruct (String.eqb_spec newPath "") as [E|_]; [contradiction|].
    rewrite db_run. cbn [fst snd]. unfold set_folders. cbn [folders db_tick].
    rewrite Hfs1, upsert_replace; [reflexivity|exact Hnd|].
    cbn. rewrite Hfid. apply in_map_iff. exists f. auto. }
  set (P := fun g => String.prefix (path f +:+ "/") (path g)).
  assert (Hsubs : List.filter (fun g => regex_test W ("^" +:+ path f +:+ "/") (path g))
                    (List.map h fs) = List.filter P fs).
  { rewrite (List.filter_ext _ P).
    2: { intros g. apply Hengine. apply Hpaths, Hfin. }
    apply filter_map_same. intros g Hg. unfold h.
    destruct (N.eqb_spec (f_id g) (f_id f')) as [E|]; [|now left].
    right. assert (g = f) by (eapply same_id_same_folder; eauto).
    subst g. split; [exact Hnew|exact Hold]. }
  set (upd := fun s => with_path s (Js.replace (path s) (path f) newPath)).
  destruct (update_each_run (path f) newPath (List.filter P fs)
              (db_tick (set_folders (fun _ => List.map h fs) (db_tick st1))))
    as (st' & Hrun & Hfolders).
  { intros s Hs. apply filter_In in Hs as [_ Hs]. unfold P in Hs.
    rewrite (replace_prefix _ _ _ Hs Hnewlit). now apply app_nonempty_l. }
  exists st'. split.
  - unfold rename_folder, run, Gateway.present. rewrite Htruthy.
    unfold bind at 1. unfold Folder_findById at 1. rewrite db_run. cbn [fst snd].
    cbn [folders db_tick]. fold fs. rewrite Hfind.
    unfold bind at 1. rewrite Hpath. fold newPath. fold f'.
    unfold bind at 1. rewrite Hsave.
    unfold bind at 1. unfold updateSubfolderPaths, bind at 1.
    unfold Folder_find_path_regex. rewrite db_run. cbn [fst snd].
    cbn [folders set_folders db_tick]. rewrite Hsubs, Hrun. reflexivity.
  - rewrite Hfolders. cbn [folders set_folders db_tick].
    fold upd.
    rewrite (save_all_map fs upd (List.filter P fs) h Hnd).
    + apply List.map_ext_in. intros g Hg.
      rewrite (existsb_filter_id P fs g Hnd Hg). unfold renamed, P.
      destruct (String.prefix (path f +:+ "/") (path g)) eqn:HP.
      * unfold upd. now rewrite (replace_prefix _ _ _ HP Hnewlit).
      * unfold h. cbn. now rewrite Hfid.
    + reflexivity.
    + intros g. unfold h. destruct (f_id g =? f_id f')%N eqn:E; [|reflexivity].
      apply N.eqb_eq in E. now rewrite E.
    + intros s Hs. now apply filter_In in Hs as [Hs _].
Qed.

End RenameFolder.

Section RenamedStore.
Import Server.

Variables (fs : list folder) (id : N) (n : string) (f : folder).
Hypothesis Hinv : path_invariant fs.
Hypothesis Hnd : NoDup (List.map f_id fs).
Hypothesis Hfind : List.find (fun g => (f_id g =? id)%N) fs = Some f.
Hypothesis Hsole : forall g, In g fs -> path g = path f -> f_id g = id.
Hypothesis Hnames : forall g, In g fs -> Js.slash_free (name g) = true.
Hypothesis Hslash : Js.slash_free n = true.
Hypothesis Htrim : Js.trim n = n.

Local Abbreviation f' := (renamed_self fs f n).
Local Abbreviation R := (renamed id (path f) f').

Lemma f_found : In f fs /\ f_id f = id.
Proof. apply find_some in Hfind as [H E]. apply N.eqb_eq in E. auto. Qed.

Lemma inv_of g : In g fs -> expected_path fs g = Some (path g).
Proof. unfold path_invariant in Hinv. rewrite List.Forall_forall in Hinv. auto. Qed.

Lemma renamed_id g : f_id (R g) = f_id g.
Proof.
  unfold renamed. destruct (String.prefix _ _); [reflexivity|].
  destruct (N.eqb_spec (f_id g) id) as [->|]; [|reflexivity].
  cbn. apply f_found.
Qed.

Lemma is_f g : In g fs -> f_id g = id -> g = f.
Proof.
  intros Hg E. destruct f_found as [Hf Hid].
  eapply same_id_same_folder; eauto. congruence.
Qed.

Lemma longer_is_no_prefix_gen (a b : string) :
  String.prefix ((a +:+ "/") +:+ b) a = false.
Proof.
  destruct (String.prefix _ a) eqn:H; [|reflexivity].
  apply prefix_length in H. rewrite !length_app_s in H. cbn in H. lia.
Qed.

Lemma expected_path_renamed x :
  expected_path (List.map R fs) x
  = match parent x with
    | Some p =>
        match List.find (fun g => (f_id g =? p)%N) fs with
        | Some pg => Some (path (R pg) +:+ "/" +:+ name x)
        | None => None
        end
    | None => Some (name x)
    end.
Proof.
  unfold expected_path. destruct (parent x) as [p|]; [|reflexivity].
  rewrite (find_map_ids R) by exact renamed_id.
  now destruct (List.find (fun g => (f_id g =? p)%N) fs).
Qed.

Lemma renamed_keeps_invariant : path_invariant (List.map R fs).
Proof.
  destruct f_found as [Hfin Hfid].
  destruct (not_below_itself fs f n (inv_of f Hfin) Hslash) as [Hnew Hold].
  unfold path_invariant. rewrite List.Forall_forall. intros x Hx.
  apply in_map_iff in Hx as (g & <- & Hg).
  pose proof (inv_of g Hg) as Hgi.
  rewrite expected_path_renamed. unfold expected_path in Hgi.
  destruct (String.prefix (path f +:+ "/") (path g)) eqn:HP.
  - (* below the old path *)
    assert (HR : R g = with_path g (path f' +:+ Js.drop (String.length (path f)) (path g)))
      by (unfold renamed; now rewrite HP).
    rewrite HR. cbn [parent name path with_path].
    destruct (parent g) as [p|].
    + destruct (List.find (fun x => (f_id x =? p)%N) fs) as [pg|] eqn:Hpg; [|discriminate].
      injection Hgi as Hgi. symmetry in Hgi.
      pose proof (find_some _ _ Hpg) as [Hpgin _].
      rewrite Hgi in HP.
      destruct (prefix_dir_cases _ _ _ (Hnames g Hg) HP) as [E|HPp].
      * assert (pg = f) by (apply is_f; auto). subst pg.
        unfold renamed at 1. rewrite Hold, Hfid, N.eqb_refl.
        rewrite Hgi. now rewrite drop_app.
      * unfold renamed at 1. rewrite HPp. cbn [path with_path].
        rewrite Hgi, drop_app_le, app_assoc_s; [reflexivity|].
        apply prefix_length in HPp. rewrite length_app_s in HPp. lia.
    + injection Hgi as Hgi. symmetry in Hgi. rewrite Hgi in HP.
      now rewrite slash_free_no_dir in HP by (apply Hnames, Hg).
  - destruct (N.eqb_spec (f_id g) id) as [E|E].
    + (* the renamed folder *)
      assert (g = f) by (apply is_f; auto). subst g.
      assert (HR : R f = f') by (unfold renamed; now rewrite HP, E, N.eqb_refl).
      rewrite HR.
      change (parent f') with (parent f). change (name f') with (Js.trim n).
      change (path f') with (renamed_path fs f n). rewrite Htrim.
      unfold renamed_path.
      destruct (parent f) as [p|]; [|reflexivity].
      destruct (List.find (fun x => (f_id x =? p)%N) fs) as [pf|] eqn:Hpf; [|discriminate].
      injection Hgi as Hgi. symmetry in Hgi.
      pose proof (find_some _ _ Hpf) as [Hpfin _].
      assert (HRp : R pf = pf).
      { unfold renamed.
        destruct (String.prefix (path f +:+ "/") (path pf)) eqn:HPp.
        { apply prefix_length in HPp. rewrite Hgi, !length_app_s in HPp.
          cbn in HPp. lia. }
        destruct (N.eqb_spec (f_id pf) id) as [E'|]; [|reflexivity].
        exfalso. assert (pf = f) by (apply is_f; auto). subst pf.
        apply (f_equal String.length) in Hgi.
        rewrite !length_app_s in Hgi. cbn in Hgi. lia. }
      now rewrite HRp.
    + (* a folder out of reach *)
      assert (HR : R g = g).
      { unfold renamed. rewrite HP.
        now destruct (N.eqb_spec (f_id g) id). }
      rewrite HR.
      destruct (parent g) as [p|]; [|exact Hgi].
      destruct (List.find (fun x => (f_id x =? p)%N) fs) as [pg|] eqn:Hpg; [|discriminate].
      injection Hgi as Hgi. symmetry in Hgi.
      pose proof (find_some _ _ Hpg) as [Hpgin _].
      assert (HRp : R pg = pg).
      { unfold renamed.
        destruct (String.prefix (path f +:+ "/") (path pg)) eqn:HPp.
        - exfalso. rewrite Hgi in HP.
          now rewrite (prefix_trans_app _ _ _ HPp) in HP.
        - destruct (N.eqb_spec (f_id pg) id) as [E'|]; [|reflexivity].
          exfalso. assert (pg = f) by (apply is_f; auto). subst pg.
          rewrite Hgi in HP. rewrite <- app_assoc_s in HP.
          now rewrite prefix_app in HP. }
      now rewrite HRp, <- Hgi.
Qed.

End RenamedStore.

(** ** Creating a folder *)
Section CreateFolder.
Import B2 Eff Server.
Variable W : World.

Lemma find_app_some {A} (P : A -> bool) (l l' : list A) x :
  List.find P l = Some x -> List.find P (l ++ l') = Some x.
Proof.
  induction l as [|a l IH]; cbn; [discriminate|].
  destruct (P a); auto.
Qed.

Lemma expected_path_app (fs : list folder) (x g : folder) :
  expected_path fs g = Some (path g) ->
  expected_path (fs ++ [x]) g = Some (path g).
Proof.
  unfold expected_path. destruct (parent g) as [p|]; [|auto].
  destruct (List.find (fun y => (f_id y =? p)%N) fs) as [pg|] eqn:H; [|discriminate].
  now rewrite (find_app_some _ _ _ _ H).
Qed.

Lemma path_invariant_add (fs : list folder) (x : folder) :
  path_invariant fs ->
  expected_path fs x = Some (path x) ->
  path_invariant (fs ++ [x]).
Proof.
  unfold path_invariant. intros Hfs Hx. apply List.Forall_app. split.
  - eapply List.Forall_impl; [|exact Hfs]. intros g. apply expected_path_app.
  - constructor; [|constructor]. now apply expected_path_app.
Qed.

(** Creation keeps the invariant: the folder it stores, if any, carries
    its parent's path, a slash and its name. *)
Lemma create_folder_keeps_invariant (b : create_folder_body) (st : state) :
  path_invariant (folders st) ->
  ~ In (nextId st) (List.map f_id (folders st)) ->
  (forall n, Gateway.present (cf_name b) = Some n -> Js.trim n = n) ->
  path_invariant (folders (snd (create_folder W b st))).
Proof.
  intros Hinv Hfresh Htrim.
  destruct (create_folder W b st) as [r st'] eqn:H. cbn [snd].
  unfold create_folder, Folder_findById, Folder_save, db, new_id in H.
  destruct (Gateway.present (cf_name b)) as [n|] eqn:Hn.
  2: { eff_run H. exact Hinv. }
  specialize (Htrim n eq_refl).
  eff_run H; try exact Hinv.
  all: rewrite upsert_fresh by exact Hfresh.
  all: apply path_invariant_add; [exact Hinv|].
  all: unfold expected_path; cbn; rewrite ?Htrim;
    repeat match goal with
      | Hx : _ = _ |- _ => rewrite Hx
      end; reflexivity.
Qed.

End CreateFolder.

(** C5, as the code has it.  In a store where every folder carries its
    parent's path, a slash and its name (its name alone at the root):

    - creating a folder under a name without surrounding white space
      keeps that so, whether the creation succeeds or not;
    - renaming folder [f] to a name without slash, surrounding white space
      or metacharacter, when no store operation fails, no other folder has
      the path of [f], no stored name holds a slash and no stored path a
      metacharacter, answers with the renamed folder, rewrites the prefix
      of exactly the folders whose path starts with the old path and a
      slash, and keeps the invariant for every folder. *)
Theorem folder_paths_stay_consistent (W : Server.World) (st : Server.state) :
  Server.path_invariant (Server.folders st) ->
  NoDup (List.map Server.f_id (Server.folders st)) ->
  (forall b,
      ~ In (Server.nextId st) (List.map Server.f_id (Server.folders st)) ->
      (forall n, Gateway.present (Server.cf_name b) = Some n -> Js.trim n = n) ->
      Server.path_invariant (Server.folders (snd (Server.create_folder W b st))))
  /\ (forall id n f,
         Server.literal_engine W ->
         (forall k, Server.db_error W k = None) ->
         List.find (fun g => (Server.f_id g =? id)%N) (Server.folders st) = Some f ->
         (forall g, In g (Server.folders st) ->
                    Server.path g = Server.path f -> Server.f_id g = id) ->
         (forall g, In g (Server.folders st) -> Js.slash_free (Server.name g) = true) ->
         (forall g, In g (Server.folders st) -> Js.literal (Server.path g) = true) ->
         Js.truthy (Some n) = true -> Js.trim n = n ->
         Js.slash_free n = true -> Js.literal n = true ->
         exists st',
           Server.rename_folder W id (Some n) st
           = (Server.FolderRenamed (Server.renamed_self (Server.folders st) f n), st')
           /\ Server.folders st'
              = List.map
                  (Server.renamed id (Server.path f)
                     (Server.renamed_self (Server.folders st) f n))
                  (Server.folders st)
           /\ Server.path_invariant (Server.folders st')).
Proof.
  intros Hinv Hnd. split.
  - intros b Hfresh Htrim. now apply create_folder_keeps_invariant.
  - intros id n f Hengine Hdb Hfind Hsole Hnames Hpaths Htruthy Htrim Hslash Hlit.
    destruct (rename_folder_store W Hengine Hdb id n f st Hinv Hnd Hfind Htruthy
                Htrim Hslash Hlit Hpaths) as (st' & Hrun & Hstore).
    exists st'. split; [exact Hrun|]. split; [exact Hstore|].
    rewrite Hstore. now apply renamed_keeps_invariant.
Qed.

Lemma folder_paths_stay_consistent_witness :
  exists st',
    Server.folders st'
    = [Scenario.folder_of 1 "b" None "b"; Scenario.folder_of 2 "x" (Some 1%N) "b/x";
       Scenario.folder_of 3 "y" (Some 1%N) "b/y"]
    /\ Server.path_invariant (Server.folders st').
Proof.
  assert (Hinv : Server.path_invariant (Server.folders Scenario.shelves))
    by (repeat constructor).
  assert (Hnd : NoDup (List.map Server.f_id (Server.folders Scenario.shelves))).
  { cbn. repeat (apply NoDup_cons_2; [rewrite list_elem_of_In; cbn; lia|]).
    apply NoDup_nil_2. }
  destruct (folder_paths_stay_consistent Scenario.studio Scenario.shelves Hinv Hnd)
    as [_ Hrename].
  destruct (Hrename 1%N "b" (Scenario.folder_of 1 "a" None "a"))
    as (st' & _ & Hstore & Hinv').
  - intros p s _. reflexivity.
  - reflexivity.
  - reflexivity.
  - intros g [<-|[<-|[<-|[]]]]; cbn; intros E; try reflexivity; discriminate E.
  - intros g [<-|[<-|[<-|[]]]]; reflexivity.
  - intros g [<-|[<-|[<-|[]]]]; reflexivity.
  - reflexivity.
  - reflexivity.
  - reflexivity.
  - reflexivity.
  - exists st'. split; [|exact Hinv']. rewrite Hstore. reflexivity.
Defined.

(** C5, as stated, fails: the cascade is one save per folder and nothing
    undoes the saves already made.  When the store drops its fifth
    operation (the second save of the cascade), renaming [a] to [b] leaves
    [a/x] rewritten to [b/x] and [a/y] as it was, answering 500. *)
Lemma rename_cascade_is_not_atomic :
  Server.path_invariant (Server.folders Scenario.shelves)
  /\ Server.rename_folder Scenario.store_drops_fifth 1 (Some "b") Scenario.shelves
     = (Server.JsonError 500 "MongoNetworkError: connection closed",
        Server.set_folders
          (fun _ => [Scenario.folder_of 1 "b" None "b";
                     Scenario.folder_of 2 "x" (Some 1%N) "b/x";
                     Scenario.folder_of 3 "y" (Some 1%N) "a/y"])
          (Nat.iter 5 Server.db_tick Scenario.shelves))
  /\ ~ Server.path_invariant
         [Scenario.folder_of 1 "b" None "b";
          Scenario.folder_of 2 "x" (Some 1%N) "b/x";
          Scenario.folder_of 3 "y" (Some 1%N) "a/y"].
Proof.
  split; [repeat constructor|]. split; [vm_compute; reflexivity|].
  intros H. unfold Server.path_invariant in H.
  rewrite List.Forall_forall in H.
  specialize (H (Scenario.folder_of 3 "y" (Some 1%N) "a/y")).
  cbn in H. discriminate H. tauto.
Qed.

(** ** Splitting and sanitising *)
Section Splitting.

Lemma split_nonempty (c : ascii) (s : string) : Js.split c s <> [].
Proof.
  destruct s as [|x s]; cbn; [discriminate|].
  destruct (Ascii.eqb x c); [discriminate|].
  destruct (Js.split c s); discriminate.
Qed.

Lemma split_app_sep (c : ascii) (a b : string) :
  Js.split c (a +:+ String c b) = Js.split c a ++ Js.split c b.
Proof.
  induction a as [|x a IH].
  - rewrite app_nil_l_s. cbn. now rewrite Ascii.eqb_refl.
  - rewrite app_cons_s. cbn. rewrite IH.
    destruct (Ascii.eqb x c); [reflexivity|].
    pose proof (split_nonempty c a) as Hne.
    destruct (Js.split c a) as [|h t]; [congruence|reflexivity].
Qed.

Lemma split_free (c : ascii) (s : string) :
  Text.free_of c s = true -> Js.split c s = [s].
Proof.
  unfold Text.free_of.
  induction s as [|x s IH]; cbn; [reflexivity|].
  intros H. apply andb_prop in H as [Hx Hs].
  apply negb_true_iff in Hx. rewrite Hx, (IH Hs). reflexivity.
Qed.

Lemma last_app_nonempty {A} (l1 l2 : list A) (d : A) :
  l2 <> [] -> List.last (l1 ++ l2) d = List.last l2 d.
Proof.
  intros Hne. induction l1 as [|x l1 IH]; [reflexivity|].
  cbn [app List.last]. destruct (l1 ++ l2) eqn:E; [|exact IH].
  apply app_eq_nil in E as [_ ->]. congruence.
Qed.

Lemma pop_split_app (c : ascii) (a b : string) :
  Js.pop (Js.split c (a +:+ String c b)) = Js.pop (Js.split c b).
Proof.
  unfold Js.pop. rewrite split_app_sep.
  apply last_app_nonempty, split_nonempty.
Qed.

Lemma first_split_app (c : ascii) (a b : string) :
  Text.free_of c a = true -> Js.first (Js.split c (a +:+ String c b)) = a.
Proof. intros H. rewrite split_app_sep, (split_free _ _ H). reflexivity. Qed.

(** The last segment of a split holds no separator. *)
Lemma pop_split_free (c : ascii) (s : string) :
  Text.free_of c (Js.pop (Js.split c s)) = true.
Proof.
  unfold Js.pop, Text.free_of.
  induction s as [|x s IH]; [reflexivity|].
  cbn [Js.split]. pose proof (split_nonempty c s) as Hne.
  destruct (Ascii.eqb x c) eqn:Hx.
  - destruct (Js.split c s) as [|h t]; [congruence|exact IH].
  - destruct (Js.split c s) as [|h [|h' t]]; [congruence| |exact IH].
    cbn in *. now rewrite Hx, IH.
Qed.

Lemma free_of_app (c : ascii) (a b : string) :
  Text.free_of c (a +:+ b) = Text.free_of c a && Text.free_of c b.
Proof. apply every_app. Qed.

Lemma digits_free_of (c : ascii) (s : string) :
  Js.is_digit c = false -> Js.every Js.is_digit s = true -> Text.free_of c s = true.
Proof.
  intros Hc. unfold Text.free_of.
  induction s as [|x s IH]; cbn; [reflexivity|].
  intros H. apply andb_prop in H as [Hx Hs]. rewrite (IH Hs), andb_true_r.
  apply negb_true_iff. destruct (Ascii.eqb_spec x c); [congruence|reflexivity].
Qed.

Lemma concat_split_without (c : ascii) (s : string) :
  Js.join "" (Js.split c s) = Text.without c s.
Proof.
  unfold Js.join.
  induction s as [|x s IH]; [reflexivity|].
  cbn [Js.split Text.without]. pose proof (split_nonempty c s) as Hne.
  destruct (Ascii.eqb x c).
  - destruct (Js.split c s) as [|h t]; [congruence|].
    cbn [String.concat]. rewrite !app_nil_l_s. exact IH.
  - destruct (Js.split c s) as [|h [|h' t]]; [congruence| |].
    + cbn in *. now rewrite IH.
    + cbn [String.concat] in *. rewrite app_cons_s. now rewrite IH.
Qed.

Lemma without_free (c : ascii) (s : string) : Text.free_of c (Text.without c s) = true.
Proof.
  unfold Text.free_of. induction s as [|x s IH]; [reflexivity|].
  cbn. destruct (Ascii.eqb x c) eqn:E; [exact IH|]. cbn. now rewrite E, IH.
Qed.

Lemma underscores_to_spaces_free (s : string) :
  Text.free_of "_" s = true -> Js.underscores_to_spaces s = s.
Proof.
  unfold Text.free_of, Js.underscores_to_spaces.
  induction s as [|x s IH]; cbn; [reflexivity|].
  intros H. apply andb_prop in H as [Hx Hs]. apply negb_true_iff in Hx.
  now rewrite Hx, IH.
Qed.

End Splitting.

Section Keys.

Lemma safe_char_of (c : ascii) :
  Text.safe_char (Js.lower_char (if Js.is_alnum c then c else "_"%char)) = true.
Proof. destruct c as [[] [] [] [] [] [] [] []]; vm_compute; reflexivity. Qed.

Lemma safe_char_fixed (c : ascii) :
  Text.safe_char c = true ->
  Js.lower_char (if Js.is_alnum c then c else "_"%char) = c.
Proof. destruct c as [[] [] [] [] [] [] [] []]; vm_compute; congruence. Qed.

Lemma safeTitle_cons (c : ascii) (t : string) :
  Gateway.safeTitle (String c t)
  = String (Js.lower_char (if Js.is_alnum c then c else "_"%char)) (Gateway.safeTitle t).
Proof. reflexivity. Qed.

Lemma safeTitle_safe (t : string) : Js.every Text.safe_char (Gateway.safeTitle t) = true.
Proof.
  induction t as [|c t IH]; [reflexivity|].
  rewrite safeTitle_cons. cbn [Js.every]. now rewrite safe_char_of, IH.
Qed.

Lemma safeTitle_fixed (s : string) :
  Js.every Text.safe_char s = true -> Gateway.safeTitle s = s.
Proof.
  induction s as [|c s IH]; [reflexivity|].
  cbn [Js.every]. intros H. apply andb_prop in H as [Hc Hs].
  rewrite safeTitle_cons, (safe_char_fixed _ Hc), (IH Hs). reflexivity.
Qed.

Lemma safeTitle_length (t : string) :
  String.length (Gateway.safeTitle t) = String.length t.
Proof.
  induction t as [|c t IH]; [reflexivity|].
  rewrite safeTitle_cons. cbn [String.length]. now rewrite IH.
Qed.

(** The stamp and extension of an uploaded name, as rename reads them. *)
Lemma uploaded_name_parts (s : string) (ts : N) (ext : string) :
  Text.free_of "_" ext = true -> Text.free_of "." ext = true ->
  let old := (s +:+ "_" +:+ Js.decimal ts) +:+ "." +:+ ext in
  Js.pop (Js.split "_" old) = Js.decimal ts +:+ "." +:+ ext
  /\ Js.first (Js.split "." (Js.pop (Js.split "_" old))) = Js.decimal ts
  /\ Js.pop (Js.split "." old) = ext.
Proof.
  intros Hu Hd old.
  assert (Hdigits := decimal_digits ts).
  assert (Hrest : Text.free_of "_" (Js.decimal ts +:+ "." +:+ ext) = true).
  { rewrite !free_of_app, (digits_free_of "_" _ eq_refl Hdigits), Hu. reflexivity. }
  assert (Hpop : Js.pop (Js.split "_" old) = Js.decimal ts +:+ "." +:+ ext).
  { subst old. rewrite !app_assoc_s, (app_cons_s "_" ""), app_nil_l_s.
    rewrite pop_split_app.
    unfold Js.pop. now rewrite (split_free _ _ Hrest). }
  split; [exact Hpop|]. split.
  - rewrite Hpop, (app_cons_s "." ""), app_nil_l_s.
    apply first_split_app, digits_free_of; [reflexivity|exact Hdigits].
  - subst old. rewrite (app_cons_s "." ""), app_nil_l_s.
    rewrite pop_split_app. unfold Js.pop. now rewrite (split_free _ _ Hd).
Qed.

End Keys.

(** ** The layout of a storage key *)
Section KeyLayout.

Lemma smap_length (f : ascii -> ascii) (s : string) :
  String.length (Js.smap f s) = String.length s.
Proof. induction s as [|c s IH]; cbn; [reflexivity|now rewrite IH]. Qed.

Lemma smap_get (f : ascii -> ascii) (s : string) (i : nat) (c : ascii) :
  String.get i s = Some c -> String.get i (Js.smap f s) = Some (f c).
Proof.
  revert i. induction s as [|x s IH]; intros [|i]; cbn; try discriminate.
  - now intros [= ->].
  - apply IH.
Qed.

Lemma sanitized_char_folded (c : ascii) :
  Js.lower_char (if Js.is_alnum c then c else "_"%char) = Text.sanitized_char true c.
Proof. destruct c as [[] [] [] [] [] [] [] []]; vm_compute; reflexivity. Qed.

Lemma sanitized_char_kept (c : ascii) :
  (if Js.is_alnum c then c else "_"%char) = Text.sanitized_char false c.
Proof. destruct c as [[] [] [] [] [] [] [] []]; vm_compute; reflexivity. Qed.

Lemma safeTitle_sanitized (t : string) : Text.sanitized true t (Gateway.safeTitle t).
Proof.
  split; [apply safeTitle_length|].
  intros i c H. unfold Gateway.safeTitle, Js.toLowerCase, Js.replace_non_alnum.
  rewrite (smap_get _ _ i _ (smap_get _ _ i c H)).
  now rewrite sanitized_char_folded.
Qed.

Lemma replace_non_alnum_sanitized (t : string) :
  Text.sanitized false t (Js.replace_non_alnum t).
Proof.
  split; [apply smap_length|].
  intros i c H. unfold Js.replace_non_alnum.
  rewrite (smap_get _ _ i c H). now rewrite sanitized_char_kept.
Qed.

Lemma safe_char_no_dot (c : ascii) :
  Text.word_char c = true -> negb (Ascii.eqb c ".") = true.
Proof. destruct c as [[] [] [] [] [] [] [] []]; vm_compute; congruence. Qed.

Lemma word_char_of (c : ascii) :
  Text.word_char (if Js.is_alnum c then c else "_"%char) = true.
Proof. destruct c as [[] [] [] [] [] [] [] []]; vm_compute; reflexivity. Qed.

Lemma safe_is_word (c : ascii) : Text.safe_char c = true -> Text.word_char c = true.
Proof. destruct c as [[] [] [] [] [] [] [] []]; vm_compute; congruence. Qed.

Lemma every_impl (p q : ascii -> bool) (s : string) :
  (forall c, p c = true -> q c = true) -> Js.every p s = true -> Js.every q s = true.
Proof.
  intros Hpq. induction s as [|c s IH]; cbn; [reflexivity|].
  intros H. apply andb_prop in H as [Hc Hs]. now rewrite (Hpq c Hc), IH.
Qed.

Lemma replace_non_alnum_word (t : string) :
  Js.every Text.word_char (Js.replace_non_alnum t) = true.
Proof.
  unfold Js.replace_non_alnum.
  induction t as [|c t IH]; [reflexivity|].
  cbn [Js.smap Js.every]. now rewrite word_char_of, IH.
Qed.

Lemma word_dot_free (s : string) :
  Js.every Text.word_char s = true -> Text.free_of "." s = true.
Proof. apply every_impl, safe_char_no_dot. Qed.

Lemma safeTitle_dot_free (t : string) : Text.free_of "." (Gateway.safeTitle t) = true.
Proof.
  apply word_dot_free, (every_impl _ _ _ safe_is_word), safeTitle_safe.
Qed.

Lemma replace_non_alnum_dot_free (t : string) :
  Text.free_of "." (Js.replace_non_alnum t) = true.
Proof. apply word_dot_free, replace_non_alnum_word. Qed.

(** The segments of a split: the first holds no separator, and the
    others are the segments of what follows the first separator. *)
Lemma split_cons_inv (c : ascii) (s h : string) (t : list string) :
  Js.split c s = h :: t ->
  Text.free_of c h = true
  /\ match t with
     | [] => s = h
     | _ => exists s', s = h +:+ String c s' /\ Js.split c s' = t
     end.
Proof.
  unfold Text.free_of.
  revert h t. induction s as [|x s IH]; intros h t H; cbn in H.
  - injection H as <- <-. auto.
  - destruct (Ascii.eqb_spec x c) as [->|Hx].
    + injection H as <- <-. split; [reflexivity|].
      pose proof (split_nonempty c s) as Hne.
      destruct (Js.split c s) eqn:E; [congruence|].
      exists s. split; [reflexivity|exact E].
    + destruct (Js.split c s) as [|h' t'] eqn:E.
      * now apply split_nonempty in E.
      * injection H as <- <-.
        destruct (IH h' t' eq_refl) as [Hh Ht]. split.
        -- cbn. rewrite Hh, andb_true_r. apply negb_true_iff.
           now apply Ascii.eqb_neq.
        -- destruct t' as [|y t'].
           ++ now rewrite Ht.
           ++ destruct Ht as (s' & -> & Hs'). exists s'. split; [reflexivity|exact Hs'].
Qed.

(** A text is its last segment, after a separator when it has one. *)
Lemma split_last (c : ascii) (s : string) :
  s = Js.pop (Js.split c s)
  \/ exists stem, s = stem +:+ String c (Js.pop (Js.split c s)).
Proof.
  induction s as [|x s IH]; [left; reflexivity|].
  cbn [Js.split]. pose proof (split_nonempty c s) as Hne.
  destruct (Ascii.eqb_spec x c) as [->|Hx].
  - right. unfold Js.pop in *.
    destruct (Js.split c s) as [|h t] eqn:E; [congruence|].
    change (List.last ("" :: h :: t) "") with (List.last (h :: t) "").
    destruct IH as [IH|[stem IH]].
    + exists "". now rewrite <- IH.
    + exists (String c stem). rewrite app_cons_s. now rewrite <- IH.
  - unfold Js.pop in *.
    destruct (Js.split c s) as [|h [|h' t]] eqn:E; [congruence| |].
    + left. cbn in *. destruct IH as [IH|[stem IH]].
      * now rewrite <- IH.
      * exfalso. apply split_cons_inv in E as [Hh E]. subst h.
        rewrite IH in Hh. unfold Text.free_of in Hh.
        rewrite every_app in Hh. cbn in Hh.
        rewrite Ascii.eqb_refl in Hh. cbn in Hh.
        now rewrite andb_false_r in Hh.
    + change (List.last (String x h :: h' :: t) "") with (List.last (h :: h' :: t) "").
      destruct IH as [IH|[stem IH]].
      * exfalso.
        pose proof (pop_split_free c s) as Hfree. unfold Js.pop in Hfree.
        rewrite E, <- IH in Hfree.
        apply split_cons_inv in E as [_ (s' & E & Hs')].
        rewrite E in Hfree. unfold Text.free_of in Hfree.
        rewrite every_app in Hfree. cbn in Hfree.
        rewrite Ascii.eqb_refl in Hfree. cbn in Hfree.
        now rewrite andb_false_r in Hfree.
      * right. exists (String x stem). rewrite app_cons_s. now rewrite <- IH.
Qed.

Lemma free_of_drop (c : ascii) (n : nat) (s : string) :
  Text.free_of c s = true -> Text.free_of c (Js.drop n s) = true.
Proof.
  unfold Text.free_of. revert s. induction n as [|n IH]; intros [|x s]; cbn; auto.
  intros H. apply andb_prop in H as [_ H]. auto.
Qed.

Lemma free_of_has (c : ascii) (a b : string) :
  Text.free_of c (a +:+ String c b) = false.
Proof.
  unfold Text.free_of. rewrite every_app. cbn. rewrite Ascii.eqb_refl. cbn.
  apply andb_false_r.
Qed.

(** The extension [path.extname] finds: the last portion of the path
    ends with it; it is empty when that portion has no dot after its
    first code unit and for [..], and otherwise the last dot of the
    portion with the dot-free text behind it. *)
Lemma extname_spec (p : string) :
  exists stem,
    Js.last_portion p = stem +:+ Js.extname p
    /\ ((Js.extname p = ""
         /\ (Text.free_of "." (Js.drop 1 (Js.last_portion p)) = true
             \/ Js.last_portion p = ".."))
        \/ exists e,
             Js.extname p = "." +:+ e /\ Text.free_of "." e = true
             /\ stem <> "" /\ Js.last_portion p <> "..").
Proof.
  unfold Js.extname. set (b := Js.last_portion p).
  destruct (Js.split "." b) as [|h [|e [|x l]]] eqn:E.
  - now apply split_nonempty in E.
  - apply split_cons_inv in E as [Hh ->].
    exists h. rewrite app_nil_r_s. split; [reflexivity|]. left.
    split; [reflexivity|]. left. now apply free_of_drop.
  - apply split_cons_inv in E as [Hh (s' & Hb & Hs')].
    apply split_cons_inv in Hs' as [He ->].
    destruct (String.eqb_spec h "") as [->|Hne].
    + exists b. rewrite app_nil_r_s. split; [reflexivity|]. left.
      split; [reflexivity|]. left. rewrite Hb. exact He.
    + exists h. split; [exact Hb|]. right. exists e.
      split; [reflexivity|]. split; [exact He|]. split; [exact Hne|].
      rewrite Hb. destruct h as [|y h]; [congruence|].
      rewrite app_cons_s. intros [= -> _]. discriminate Hh.
  - destruct (String.eqb_spec b "..") as [Hdd|Hdd].
    + exists b. rewrite app_nil_r_s. split; [reflexivity|]. left.
      split; [reflexivity|]. now right.
    + pose proof (pop_split_free "." b) as Hfree.
      destruct (split_last "." b) as [Hl|[stem Hl]]; rewrite E in Hl, Hfree.
      * exfalso. rewrite <- Hl in Hfree.
        apply split_free in Hfree. rewrite E in Hfree. discriminate Hfree.
      * exists stem. split; [exact Hl|]. right.
        exists (Js.pop (h :: e :: x :: l)).
        split; [reflexivity|]. split; [exact Hfree|]. split; [|exact Hdd].
        intros ->. rewrite app_nil_l_s in Hl.
        pose proof (split_app_sep "." "" (Js.pop (h :: e :: x :: l))) as Hs.
        rewrite app_nil_l_s, <- Hl, E, (split_free _ _ Hfree) in Hs.
        discriminate Hs.
Qed.

(** The timestamp of a key, read back from it: the text between the last
    underscore and the first dot. *)
Lemma key_stamp (a : string) (t : N) (x : string) :
  Text.free_of "." a = true ->
  x = "" \/ (exists e, x = String "." e) ->
  Js.pop (Js.split "_" (Js.first (Js.split "." ((a +:+ "_" +:+ Js.decimal t) +:+ x))))
  = Js.decimal t.
Proof.
  intros Ha Hx.
  assert (Hd := decimal_digits t).
  assert (Hfree : Text.free_of "." (a +:+ "_" +:+ Js.decimal t) = true).
  { rewrite !free_of_app, Ha, (digits_free_of "." _ eq_refl Hd). reflexivity. }
  assert (Hfirst : Js.first (Js.split "." ((a +:+ "_" +:+ Js.decimal t) +:+ x))
                   = a +:+ "_" +:+ Js.decimal t).
  { destruct Hx as [->|[e ->]].
    - rewrite app_nil_r_s, (split_free _ _ Hfree). reflexivity.
    - now apply first_split_app. }
  rewrite Hfirst, (app_cons_s "_" ""), app_nil_l_s, pop_split_app.
  unfold Js.pop. now rewrite (split_free _ _ (digits_free_of "_" _ eq_refl Hd)).
Qed.

Lemma gateway_key_stamp (title o : string) (t : N) :
  Js.pop (Js.split "_" (Js.first (Js.split "." (Gateway.upload_b2FileName title o t))))
  = Js.decimal t.
Proof.
  unfold Gateway.upload_b2FileName, Gateway.upload_fullFilename. cbv zeta.
  rewrite <- !app_assoc_s, (app_assoc_s ("files/" +:+ Gateway.safeTitle title)),
    (app_assoc_s (("files/" +:+ Gateway.safeTitle title) +:+ "_" +:+ Js.decimal t)).
  apply key_stamp.
  - rewrite free_of_app, safeTitle_dot_free. reflexivity.
  - right. eexists. reflexivity.
Qed.

Lemma server_key_stamp (title o : string) (t : N) :
  Js.pop (Js.split "_" (Js.first (Js.split "." (Server.upload_b2FileName title o t))))
  = Js.decimal t.
Proof.
  unfold Server.upload_b2FileName, Server.upload_fullFilename, Server.upload_filename.
  rewrite <- !app_assoc_s, (app_assoc_s ("files/" +:+ Js.replace_non_alnum title)).
  apply key_stamp.
  - rewrite free_of_app, replace_non_alnum_dot_free. reflexivity.
  - destruct (extname_shape o) as [->|[e ->]]; eauto.
Qed.

End KeyLayout.

(** C7, as the code has it.  Two uploads whose key-derivation timestamps
    differ get different storage keys, in the gateway and in the metadata
    server, whatever their titles and file names.  A key of the gateway
    has the layout [files/<sanitized-title>_<unixMillis>.<ext>], where the
    sanitised title is the title with every code unit but letters and
    digits replaced by an underscore and capitals in lower case, and
    [<ext>] is the dot-free text after the last dot of the original name,
    the whole name when it has no dot.  A key of the server is
    [files/<sanitized-title>_<unixMillis>] followed by [path.extname] of
    the original name, the title sanitised with its case kept: it has the
    layout when the last portion of the name has a dot after its first
    code unit (and is not [..]), and no extension part otherwise. *)
Theorem upload_keys_differ (title1 title2 o1 o2 : string) (t1 t2 : N) :
  t1 <> t2 ->
  Gateway.upload_b2FileName title1 o1 t1 <> Gateway.upload_b2FileName title2 o2 t2
  /\ Server.upload_b2FileName title1 o1 t1 <> Server.upload_b2FileName title2 o2 t2
  /\ (exists s e,
        Gateway.upload_b2FileName title1 o1 t1 = Text.layout s t1 e
        /\ Text.sanitized true title1 s
        /\ Text.free_of "." e = true
        /\ (o1 = e \/ exists stem, o1 = stem +:+ "." +:+ e))
  /\ (exists s x stem,
        Server.upload_b2FileName title1 o1 t1
        = "files/" +:+ s +:+ "_" +:+ Js.decimal t1 +:+ x
        /\ Text.sanitized false title1 s
        /\ Js.last_portion o1 = stem +:+ x
        /\ ((x = ""
             /\ (Text.free_of "." (Js.drop 1 (Js.last_portion o1)) = true
                 \/ Js.last_portion o1 = ".."))
            \/ exists e,
                 x = "." +:+ e /\ Text.free_of "." e = true
                 /\ stem <> "" /\ Js.last_portion o1 <> ".."
                 /\ Server.upload_b2FileName title1 o1 t1 = Text.layout s t1 e)).
Proof.
  intros Ht. split; [|split; [|split]].
  - intros E. apply Ht, decimal_inj.
    rewrite <- (gateway_key_stamp title1 o1 t1), <- (gateway_key_stamp title2 o2 t2).
    now rewrite E.
  - intros E. apply Ht, decimal_inj.
    rewrite <- (server_key_stamp title1 o1 t1), <- (server_key_stamp title2 o2 t2).
    now rewrite E.
  - exists (Gateway.safeTitle title1), (Js.pop (Js.split "." o1)).
    split; [|split; [apply safeTitle_sanitized|split; [apply pop_split_free|]]].
    + unfold Gateway.upload_b2FileName, Gateway.upload_fullFilename, Text.layout.
      cbv zeta. now rewrite !app_assoc_s.
    + destruct (split_last "." o1) as [H|[stem H]]; [now left|right].
      exists stem. exact H.
  - destruct (extname_spec o1) as (stem & Hb & Hx).
    exists (Js.replace_non_alnum title1), (Js.extname o1), stem.
    split; [|split; [apply replace_non_alnum_sanitized|split; [exact Hb|]]].
    + unfold Server.upload_b2FileName, Server.upload_fullFilename,
        Server.upload_filename. now rewrite !app_assoc_s.
    + destruct Hx as [Hx|(e & He & Hfree & Hstem & Hdd)]; [now left|right].
      exists e. repeat (split; [assumption|]).
      unfold Server.upload_b2FileName, Server.upload_fullFilename,
        Server.upload_filename, Text.layout. rewrite He.
      now rewrite !app_assoc_s.
Qed.

Lemma upload_keys_differ_witness :
  Gateway.upload_b2FileName "Demo Video" "clip.mp4" 1700000000000
    <> Gateway.upload_b2FileName "Demo Video" "clip.mp4" 1700000000001
  /\ Server.upload_b2FileName "Demo Video" "clip.mp4" 1700000000000
       <> Server.upload_b2FileName "Demo Video" "clip.final.mp4" 1700000000001.
Proof.
  destruct (upload_keys_differ "Demo Video" "Demo Video" "clip.mp4" "clip.mp4"
              1700000000000 1700000000001) as (Hg & _); [discriminate|].
  destruct (upload_keys_differ "Demo Video" "Demo Video" "clip.mp4" "clip.final.mp4"
              1700000000000 1700000000001) as (_ & Hs & _); [discriminate|].
  split; assumption.
Defined.

(** C7, as stated, fails: a file without extension gets a key of the
    server that has no [.<ext>] part, so it has not the layout
    [files/<sanitized-title>_<unixMillis>.<ext>], and a key of the gateway
    whose extension is the whole file name. *)
Lemma upload_key_without_extension :
  Server.upload_b2FileName "x" "README" 5 = "files/x_5"
  /\ (forall s millis ext,
        Server.upload_b2FileName "x" "README" 5 <> Text.layout s millis ext)
  /\ Js.extname "README" = ""
  /\ Gateway.upload_b2FileName "x" "README" 5 = Text.layout "x" 5 "README".
Proof.
  split; [reflexivity|]. split; [|split; reflexivity].
  intros s millis ext E.
  assert (H : Text.free_of "." (Server.upload_b2FileName "x" "README" 5) = true)
    by reflexivity.
  rewrite E in H. unfold Text.layout in H.
  rewrite <- !app_assoc_s, (app_assoc_s _ "." ext), (app_cons_s "." ""),
    app_nil_l_s, free_of_has in H.
  discriminate H.
Qed.

(** X1. The sanitised title that opens every storage key of the gateway
    holds lower-case letters, digits and underscores only, is as long as
    the title it comes from, and sanitising it again changes nothing. *)
Theorem safeTitle_alphabet (t : string) :
  Js.every Text.safe_char (Gateway.safeTitle t) = true
  /\ String.length (Gateway.safeTitle t) = String.length t
  /\ Gateway.safeTitle (Gateway.safeTitle t) = Gateway.safeTitle t.
Proof.
  split; [apply safeTitle_safe|]. split; [apply safeTitle_length|].
  apply safeTitle_fixed, safeTitle_safe.
Qed.

(** X2. Renaming a file under the name an upload gave it yields the name
    the upload would have given under the new title: the timestamp and the
    extension are carried over, provided the extension holds no
    underscore. *)
Theorem rename_keeps_upload_stamp (title originalname newTitle : string) (ts : N) :
  Text.free_of "_" (Js.pop (Js.split "." originalname)) = true ->
  Gateway.rename_newFileName
    (Gateway.upload_fullFilename title originalname ts) newTitle
  = Gateway.upload_fullFilename newTitle originalname ts.
Proof.
  intros Hu.
  unfold Gateway.rename_newFileName, Gateway.upload_fullFilename.
  destruct (uploaded_name_parts (Gateway.safeTitle title) ts
              (Js.pop (Js.split "." originalname)) Hu (pop_split_free _ _))
    as (Hpop & Hfirst & Hext).
  cbv zeta in Hpop, Hfirst, Hext. rewrite Hfirst, Hext.
  now rewrite !app_assoc_s.
Qed.

Lemma rename_keeps_upload_stamp_witness :
  Text.free_of "_" (Js.pop (Js.split "." "clip.final.mp4")) = true
  /\ Gateway.rename_newFileName
       (Gateway.upload_fullFilename "My Video" "clip.final.mp4" 1700000000000)
       "Holiday"
     = Gateway.upload_fullFilename "Holiday" "clip.final.mp4" 1700000000000.
Proof.
  split; [vm_compute; reflexivity|].
  apply (rename_keeps_upload_stamp "My Video" "clip.final.mp4" "Holiday" 1700000000000).
  vm_compute; reflexivity.
Defined.

Lemma strip_files_prefix (x : string) : Js.replace ("files/" +:+ x) "files/" "" = x.
Proof.
  unfold Js.replace.
  rewrite (find_first_prefix "files/" ("files/" +:+ x) (prefix_app _ _)).
  rewrite drop_app. reflexivity.
Qed.

Lemma removelast_snoc {A} (l : list A) (x : A) : List.removelast (l ++ [x]) = l.
Proof.
  induction l as [|y l IH]; [reflexivity|].
  cbn [app List.removelast]. destruct (l ++ [x]) eqn:E; [|now rewrite IH].
  now apply app_eq_nil in E as [_ ?].
Qed.

(** X3. The listing entry of an object stored under the key of an upload
    carries the uploaded file name, the key itself ([files/] put back in
    front of the name), the URL the upload answered and, when the
    extension holds no underscore, the sanitised title without its
    underscores as title. *)
Theorem uploaded_key_listed (acct title originalname : string) (ts : N)
    (file : B2.remoteFile) :
  B2.rf_fileName file = Gateway.upload_b2FileName title originalname ts ->
  let v := Gateway.view acct file in
  let name := Gateway.upload_fullFilename title originalname ts in
  Gateway.fileName v = name
  /\ "files/" +:+ Gateway.fileName v = Gateway.fullFileName v
  /\ Gateway.url v = "/files/" +:+ acct +:+ "/" +:+ name
  /\ (Text.free_of "_" (Js.pop (Js.split "." originalname)) = true ->
      Gateway.title v = Text.without "_" (Gateway.safeTitle title)).
Proof.
  intros Hkey v name. unfold Gateway.upload_b2FileName in Hkey. fold name in Hkey.
  assert (Hname : Gateway.fileName v = name).
  { subst v name. unfold Gateway.view. cbn [Gateway.fileName].
    rewrite Hkey. apply strip_files_prefix. }
  split; [exact Hname|]. split; [|split].
  - rewrite Hname. subst v. cbn [Gateway.view Gateway.fullFileName].
    now rewrite Hkey.
  - subst v name. unfold Gateway.view. cbn [Gateway.url].
    rewrite Hkey, strip_files_prefix. reflexivity.
  - intros Hu. subst v name. unfold Gateway.view. cbn [Gateway.title].
    rewrite Hkey, strip_files_prefix. unfold Gateway.upload_fullFilename.
    set (ext := Js.pop (Js.split "." originalname)) in *.
    assert (Hrest : Text.free_of "_" (Js.decimal ts +:+ "." +:+ ext) = true).
    { rewrite !free_of_app, (digits_free_of "_" _ eq_refl (decimal_digits ts)), Hu.
      reflexivity. }
    rewrite !app_assoc_s, (app_cons_s "_" ""), app_nil_l_s.
    rewrite split_app_sep, (split_free _ _ Hrest).
    unfold Js.popped. rewrite removelast_snoc, concat_split_without.
    apply underscores_to_spaces_free, without_free.
Qed.

Lemma uploaded_key_listed_witness :
  let file := Scenario.picture "files/my_video_1700000000000.mp4" 5 in
  Gateway.fileName (Gateway.view "account1" file) = "my_video_1700000000000.mp4"
  /\ Gateway.title (Gateway.view "account1" file) = "myvideo".
Proof.
  intros file.
  destruct (uploaded_key_listed "account1" "My Video" "clip.mp4" 1700000000000 file)
    as (Hname & _ & _ & Htitle); [vm_compute; reflexivity|].
  split; [exact Hname|].
  rewrite Htitle; vm_compute; reflexivity.
Defined.

(** ** The listing of the older copy *)
Section Joining.

Lemma concat_cons (sep x : string) (l : list string) :
  l <> [] -> String.concat sep (x :: l) = x +:+ sep +:+ String.concat sep l.
Proof. destruct l; [congruence|reflexivity]. Qed.

(** Joining what a split gave restores the text. *)
Lemma join_split (c : ascii) (s : string) :
  Js.join (String c "") (Js.split c s) = s.
Proof.
  unfold Js.join.
  induction s as [|x s IH]; [reflexivity|].
  cbn [Js.split]. pose proof (split_nonempty c s) as Hne.
  destruct (Ascii.eqb_spec x c) as [->|Hx].
  - rewrite concat_cons by exact Hne.
    now rewrite IH, app_nil_l_s, app_cons_s, app_nil_l_s.
  - destruct (Js.split c s) as [|h [|h' t]]; [congruence| |].
    + cbn in *. now rewrite IH.
    + cbn [String.concat] in *. rewrite app_cons_s. now rewrite IH.
Qed.

Lemma underscores_to_spaces_length (s : string) :
  String.length (Js.underscores_to_spaces s) = String.length s.
Proof.
  unfold Js.underscores_to_spaces.
  induction s as [|x s IH]; [reflexivity|]. cbn. now rewrite IH.
Qed.

End Joining.

(** X20. In the older copy of the gateway the listing entry of an object
    stored under the key of an upload carries the sanitised title with
    its underscores turned into spaces, as long as the title given; the
    other fields are those of the current listing. *)
Theorem legacy_listing_keeps_word_breaks
    (acct title originalname : string) (ts : N) (file : B2.remoteFile) :
  B2.rf_fileName file = Gateway.upload_b2FileName title originalname ts ->
  Text.free_of "_" (Js.pop (Js.split "." originalname)) = true ->
  let v := Legacy.view acct file in
  Gateway.title v = Js.underscores_to_spaces (Gateway.safeTitle title)
  /\ String.length (Gateway.title v) = String.length title
  /\ Gateway.fileName v = Gateway.fileName (Gateway.view acct file)
  /\ Gateway.url v = Gateway.url (Gateway.view acct file).
Proof.
  intros Hkey Hu v.
  assert (Htitle : Gateway.title v
                   = Js.underscores_to_spaces (Gateway.safeTitle title)).
  { subst v. unfold Legacy.view. cbn [Gateway.title].
    rewrite Hkey. unfold Gateway.upload_b2FileName.
    rewrite strip_files_prefix. unfold Gateway.upload_fullFilename.
    set (ext := Js.pop (Js.split "." originalname)) in *.
    assert (Hrest : Text.free_of "_" (Js.decimal ts +:+ "." +:+ ext) = true).
    { rewrite !free_of_app, (digits_free_of "_" _ eq_refl (decimal_digits ts)), Hu.
      reflexivity. }
    rewrite !app_assoc_s, (app_cons_s "_" ""), app_nil_l_s.
    rewrite split_app_sep, (split_free _ _ Hrest).
    unfold Js.popped. rewrite removelast_snoc.
    now rewrite (join_split "_"). }
  split; [exact Htitle|]. split; [|split; reflexivity].
  rewrite Htitle, underscores_to_spaces_length. apply safeTitle_length.
Qed.

Lemma legacy_listing_keeps_word_breaks_witness :
  Gateway.title
    (Legacy.view "account1" (Scenario.picture "files/my_video_1700000000000.mp4" 5))
  = "my video".
Proof.
  destruct (legacy_listing_keeps_word_breaks "account1" "My Video" "clip.mp4"
              1700000000000
              (Scenario.picture "files/my_video_1700000000000.mp4" 5))
    as (Htitle & _); [vm_compute; reflexivity|vm_compute; reflexivity|].
  rewrite Htitle. vm_compute. reflexivity.
Defined.

(** ** Tokens, caches and refusals of the gateway *)
Section TokenReuse.
Import B2 Eff.
Variable W : World.

Lemma getAuthToken_cached acct st a :
  Gateway.authTokenCache st !! acct = Some a ->
  Gateway.getAuthToken W acct st = (Return a, st).
Proof. unfold Gateway.getAuthToken, bind, gets, ret. now intros ->. Qed.

Ltac reuse_token :=
  repeat match goal with
    | Hc : Gateway.authTokenCache ?s !! ?acct = Some ?a,
      Hx : Gateway.getAuthToken W ?acct ?s' = _ |- _ =>
        rewrite (getAuthToken_cached acct s' a Hc) in Hx; simplify_eq/=
    end.

Lemma perform_with_token op st r st' :
  Gateway.perform W op st = (r, st') ->
  (forall acct, Traffic.account_of op = Some acct ->
                is_Some (Gateway.authTokenCache st !! acct)) ->
  Gateway.authTokenCache st' = Gateway.authTokenCache st
  /\ Traffic.authorizations (Gateway.calls st')
     = Traffic.authorizations (Gateway.calls st).
Proof.
  intros H Hc.
  destruct op as [acct | b | b | b | acct filename]; cbn in H, Hc.
  - destruct (Hc acct eq_refl) as [tok Htok].
    destruct (Gateway.listFiles W acct st) as [x s] eqn:E. simplify_eq.
    unfold Gateway.listFiles, Gateway.cache_lookup, Gateway.refetch,
      Gateway.listFiles_fetch, Gateway.listFiles_request,
    Gateway.listFiles_receive, Gateway.bucketId_of,
      Gateway.fetch, Gateway.json, Gateway.now in E.
    eff_run E; reuse_token; cbn; auto.
  - destruct (Gateway.upload W b st) as [x s] eqn:E. simplify_eq.
    unfold Gateway.upload, Gateway.fetch, Gateway.json, Gateway.now in E.
    eff_run E; auto;
      match goal with
      | Hp : Gateway.present _ = Some ?acct |- _ => destruct (Hc acct eq_refl) as [tok Htok]
      end; reuse_token; cbn; auto.
  - destruct (Gateway.rename_file W b st) as [x s] eqn:E. simplify_eq.
    unfold Gateway.rename_file, Gateway.fetch, Gateway.json in E.
    eff_run E; auto;
      match goal with
      | Hp : Gateway.present _ = Some ?acct |- _ => destruct (Hc acct eq_refl) as [tok Htok]
      end; reuse_token; cbn; auto.
  - destruct (Gateway.delete_file W b st) as [x s] eqn:E. simplify_eq.
    unfold Gateway.delete_file, Gateway.fetch, Gateway.json in E.
    eff_run E; auto;
      match goal with
      | Hp : Gateway.present _ = Some ?acct |- _ => destruct (Hc acct eq_refl) as [tok Htok]
      end; reuse_token; cbn; auto.
  - destruct (Hc acct eq_refl) as [tok Htok].
    destruct (Gateway.serve_file W acct filename st) as [x s] eqn:E. simplify_eq.
    unfold Gateway.serve_file, Gateway.fetch, Gateway.json in E.
    eff_run E; reuse_token; cbn; auto.
Qed.

End TokenReuse.

(** X4. While every account named by a run of operations has a cached
    token, the run makes no [b2_authorize_account] call and leaves the
    token cache as it was. *)
Theorem cached_tokens_are_reused
    (W : B2.World) (ops : list Gateway.operation) (st st' : Gateway.state)
    (rs : list Gateway.result) :
  Traffic.perform_all W ops st = (rs, st') ->
  (forall op acct,
     In op ops -> Traffic.account_of op = Some acct ->
     is_Some (Gateway.authTokenCache st !! acct)) ->
  Gateway.authTokenCache st' = Gateway.authTokenCache st
  /\ Traffic.authorizations (Gateway.calls st')
     = Traffic.authorizations (Gateway.calls st).
Proof.
  revert st rs. induction ops as [|op ops IH]; intros st rs H Hc; cbn in H.
  - now simplify_eq.
  - destruct (Gateway.perform W op st) as [r st1] eqn:E1.
    destruct (Traffic.perform_all W ops st1) as [rs' st2] eqn:E2.
    simplify_eq.
    destruct (perform_with_token W op st r st1 E1) as [Hcache Hauth].
    { intros acct. apply Hc. now left. }
    destruct (IH st1 rs' E2) as [Hcache' Hauth'].
    { intros op' acct Hin. rewrite Hcache. apply Hc. now right. }
    split; congruence.
Qed.

Lemma cached_tokens_are_reused_witness :
  let ops := [Gateway.List "account1"; Gateway.Rename Scenario.rename_a_to_b;
              Gateway.Serve "account1" "b_111.png"; Gateway.List "account1"] in
  Traffic.authorizations
    (Gateway.calls (snd (Traffic.perform_all Scenario.steady ops Scenario.authorized)))
  = [].
Proof.
  intros ops.
  destruct (Traffic.perform_all Scenario.steady ops Scenario.authorized)
    as [rs st'] eqn:E.
  apply (cached_tokens_are_reused Scenario.steady ops Scenario.authorized st' rs E).
  intros op acct Hin Hacct. exists Scenario.session.
  cbn in Hin.
  destruct Hin as [<-|[<-|[<-|[<-|[]]]]]; vm_compute in Hacct; simplify_eq; reflexivity.
Defined.

Section ListingCache.
Import B2 Eff.
Variable W : World.

Lemma listFiles_hit acct st stamp files :
  Gateway.fileListCache st !! ("files_" +:+ acct) = Some (stamp, files) ->
  (Z.of_N (Date_now W (Gateway.ticks st)) - Z.of_N stamp < Gateway.FILE_CACHE_TTL)%Z ->
  Gateway.listFiles W acct st = (files, Gateway.tick st).
Proof.
  intros Hentry Hage.
  unfold Gateway.listFiles, Gateway.cache_lookup, Gateway.now, run, bind, gets, ret.
  rewrite Hentry. apply Z.ltb_lt in Hage. now rewrite Hage.
Qed.

Lemma listFiles_stale acct st stamp files :
  Gateway.fileListCache st !! ("files_" +:+ acct) = Some (stamp, files) ->
  (Gateway.FILE_CACHE_TTL <= Z.of_N (Date_now W (Gateway.ticks st)) - Z.of_N stamp)%Z ->
  Gateway.listFiles W acct st
  = run (Gateway.refetch W acct) (fun _ => []) (Gateway.tick st).
Proof.
  intros Hentry Hage.
  unfold Gateway.listFiles, Gateway.cache_lookup, Gateway.now, run, bind, gets, ret.
  rewrite Hentry. apply Z.ltb_ge in Hage. now rewrite Hage.
Qed.

Lemma listFiles_stores acct st files st1 :
  Gateway.listFiles W acct st = (files, st1) -> files <> [] ->
  exists stamp, Gateway.fileListCache st1 !! ("files_" +:+ acct) = Some (stamp, files).
Proof.
  intros H Hne.
  unfold Gateway.listFiles, Gateway.cache_lookup, Gateway.refetch,
    Gateway.listFiles_fetch, Gateway.listFiles_request,
    Gateway.listFiles_receive, Gateway.bucketId_of, Gateway.fetch, Gateway.json,
    Gateway.now in H.
  eff_run H; try congruence; eauto; eexists; apply lookup_insert_eq.
Qed.

Lemma insert_by_perm {A} (cmp : A -> A -> Z) (x : A) (l : list A) :
  Permutation (JsArray.insert_by cmp x l) (x :: l).
Proof.
  induction l as [|y l IH]; cbn; [reflexivity|].
  destruct (cmp x y <=? 0)%Z; [reflexivity|].
  rewrite IH. apply perm_swap.
Qed.

Lemma sort_perm {A} (cmp : A -> A -> Z) (l : list A) :
  Permutation (JsArray.sort cmp l) l.
Proof.
  induction l as [|x l IH]; [reflexivity|].
  unfold JsArray.sort in *. cbn. rewrite insert_by_perm. now constructor.
Qed.

End ListingCache.

(** X5. A non-empty listing returned by [listFiles] is cached for the
    account; while that entry is younger than 300000 ms a further
    [listFiles] returns it without any remote call, and from 300000 ms on
    it runs the remote fetch. *)
Theorem listing_is_cached_for_ttl
    (W : B2.World) (acct : string) (st st1 : Gateway.state)
    (files : list Gateway.fileView) :
  Gateway.listFiles W acct st = (files, st1) -> files <> [] ->
  exists stamp,
    Gateway.fileListCache st1 !! ("files_" +:+ acct) = Some (stamp, files)
    /\ forall st2,
         Gateway.fileListCache st2 !! ("files_" +:+ acct) = Some (stamp, files) ->
         let age := (Z.of_N (B2.Date_now W (Gateway.ticks st2)) - Z.of_N stamp)%Z in
         ((age < 300000)%Z -> Gateway.listFiles W acct st2 = (files, Gateway.tick st2))
         /\ ((300000 <= age)%Z ->
             Gateway.listFiles W acct st2
             = Eff.run (Gateway.refetch W acct) (fun _ => []) (Gateway.tick st2)).
Proof.
  intros H Hne.
  destruct (listFiles_stores W acct st files st1 H Hne) as [stamp Hs].
  exists stamp. split; [exact Hs|].
  intros st2 H2 age. split; intros Hage.
  - now apply (listFiles_hit W acct st2 stamp files).
  - now apply (listFiles_stale W acct st2 stamp files).
Qed.

Lemma listing_is_cached_for_ttl_witness :
  let first := Gateway.listFiles Scenario.steady "account1" Scenario.authorized in
  Gateway.listFiles Scenario.steady "account1" (snd first)
  = (fst first, Gateway.tick (snd first)).
Proof.
  intros first.
  destruct first as [files st1] eqn:E. subst first.
  destruct (listing_is_cached_for_ttl Scenario.steady "account1" Scenario.authorized
              st1 files E) as (stamp & Hs & Hnext).
  { vm_compute in E. injection E as <- _. discriminate. }
  apply (Hnext st1 Hs).
  vm_compute in E. injection E as _ <-.
  vm_compute in Hs. injection Hs as <-. reflexivity.
Defined.

(** X6. When the cache does not answer and the store lists the objects of
    the account, [listFiles] returns one view per listed object, none
    dropped and none repeated, and caches that list with the clock reading
    taken after the listing. *)
Theorem listing_shows_every_object
    (W : B2.World) (acct : string) (st st0 st1 : Gateway.state)
    (a : B2.authData) (cfg : B2.bucket) (r : B2.response (list B2.remoteFile))
    (remote : list B2.remoteFile) :
  Gateway.cache_lookup W ("files_" +:+ acct) st = (Eff.Return None, st0) ->
  Gateway.getAuthToken W acct st0 = (Eff.Return a, st1) ->
  B2.bucketConfig W !! acct = Some cfg ->
  B2.on_list W (Gateway.calls st1)
    (B2.ListFileNames (B2.apiUrl a) (B2.authorizationToken a) (B2.bucketId cfg)
       "files/" 1000) = B2.Resolves r ->
  B2.ok r = true ->
  B2.payload r = B2.Json remote ->
  let files := fst (Gateway.listFiles W acct st) in
  let st' := snd (Gateway.listFiles W acct st) in
  Permutation files (List.map (Gateway.view acct) remote)
  /\ List.length files = List.length remote
  /\ Gateway.fileListCache st' !! ("files_" +:+ acct)
     = Some (B2.Date_now W (Gateway.ticks st1), files).
Proof.
  intros Hmiss Hauth Hcfg Hlist Hok Hbody.
  unfold Gateway.listFiles, Gateway.refetch, Gateway.listFiles_fetch, Gateway.listFiles_request,
    Gateway.listFiles_receive,
    Gateway.bucketId_of, Gateway.fetch, Gateway.json, Gateway.now,
    Eff.run, Eff.bind, Eff.try_catch, Eff.ret, Eff.modify.
  rewrite Hmiss, Hauth, Hcfg. cbn. rewrite Hlist, Hok, Hbody. cbn.
  split; [apply sort_perm|]. split.
  - rewrite (Permutation_length (sort_perm _ _)). apply length_map.
  - apply lookup_insert_eq.
Qed.

Lemma listing_shows_every_object_witness :
  List.length (fst (Gateway.listFiles Scenario.steady "account1" Scenario.authorized))
  = 3%nat.
Proof.
  pose proof (listing_shows_every_object Scenario.steady "account1"
                Scenario.authorized Scenario.authorized Scenario.authorized
                Scenario.session
                {| B2.bucketId := Some "bucket-1"; B2.bucketName := Some "media" |}
                {| B2.status := 200;
                   B2.payload :=
                     B2.Json [Scenario.picture "files/b_1.png" 5;
                              Scenario.picture "files/a_1.png" 5;
                              Scenario.picture "files/c_2.png" 9] |}
                [Scenario.picture "files/b_1.png" 5;
                 Scenario.picture "files/a_1.png" 5;
                 Scenario.picture "files/c_2.png" 9]
                eq_refl eq_refl eq_refl eq_refl eq_refl eq_refl) as (_ & Hlen & _).
  exact Hlen.
Defined.

Section Refusals.
Import B2 Eff.
Variable W : World.

Ltac frame_token :=
  repeat match goal with
    | Hx : Gateway.getAuthToken W _ _ = _ |- _ =>
        apply getAuthToken_frame in Hx as (? & ? & ?)
    end.

Ltac settle_reply E :=
  eff_run E; frame_token; cbn in *;
  (split;
   [ intros; first [ reflexivity | discriminate ]
   | split;
     [ intros; first [ discriminate | split; congruence ]
     | intros; simplify_eq; first [ reflexivity | congruence ] ] ]).

Lemma perform_reply_spec op st r st' :
  Gateway.perform W op st = (Gateway.Reply r, st') ->
  (Traffic.status_of_reply r = 400%N -> st' = st)
  /\ (Gateway.failed (Gateway.Reply r) = true ->
      Gateway.fileListCache st' = Gateway.fileListCache st
      /\ Gateway.bucketInfoCache st' = Gateway.bucketInfoCache st)
  /\ (forall acct,
        Traffic.account_of op = Some acct -> bucketConfig W !! acct = None ->
        Traffic.status_of_reply r = 400%N).
Proof.
  intros H.
  destruct op as [acct | b | b | b | acct filename]; cbn in H.
  - destruct (Gateway.listFiles W acct st). discriminate.
  - destruct (Gateway.upload W b st) as [x s] eqn:E. simplify_eq.
    unfold Gateway.upload, Gateway.fetch, Gateway.json, Gateway.now in E.
    settle_reply E.
  - destruct (Gateway.rename_file W b st) as [x s] eqn:E. simplify_eq.
    unfold Gateway.rename_file, Gateway.fetch, Gateway.json in E.
    settle_reply E.
  - destruct (Gateway.delete_file W b st) as [x s] eqn:E. simplify_eq.
    unfold Gateway.delete_file, Gateway.fetch, Gateway.json in E.
    settle_reply E.
  - destruct (Gateway.serve_file W acct filename st) as [x s] eqn:E. simplify_eq.
    unfold Gateway.serve_file, Gateway.fetch, Gateway.json in E.
    settle_reply E.
Qed.

End Refusals.

Section Passing.
Import B2 Eff.
Variable W : World.

(** A download for a name the account check lets through is not
    answered 400. *)
Lemma serve_file_passes acct filename st r st' :
  Gateway.serve_file W acct filename st = (r, st') ->
  is_Some (bucketConfig W !! acct) ->
  Traffic.status_of_reply r <> 400%N.
Proof.
  intros H [cfg Hcfg].
  unfold Gateway.serve_file, Gateway.fetch, Gateway.json in H. rewrite Hcfg in H.
  eff_run H; cbn; discriminate.
Qed.

End Passing.

(** X7. An upload, rename, deletion or download answered with status 400
    leaves the state of the process untouched (no remote call, no clock
    reading, no cache change); every such operation that names an account
    for which [bucketConfig] holds nothing truthy is answered 400, and a
    download for any other account name, the names of the members of
    [Object.prototype] included, is not. *)
Theorem refusal_has_no_effect
    (W : B2.World) (op : Gateway.operation) (st st' : Gateway.state)
    (r : Gateway.reply) :
  Gateway.perform W op st = (Gateway.Reply r, st') ->
  (Traffic.status_of_reply r = 400%N -> st' = st)
  /\ (forall acct,
        Traffic.account_of op = Some acct -> B2.bucketConfig W !! acct = None ->
        Traffic.status_of_reply r = 400%N)
  /\ (forall acct filename,
        op = Gateway.Serve acct filename -> is_Some (B2.bucketConfig W !! acct) ->
        Traffic.status_of_reply r <> 400%N).
Proof.
  intros H. destruct (perform_reply_spec W op st r st' H) as (Ha & _ & Hb).
  split; [exact Ha|]. split; [exact Hb|].
  intros acct filename -> Hcfg. cbn in H.
  destruct (Gateway.serve_file W acct filename st) as [x s] eqn:E.
  injection H as <- <-. exact (serve_file_passes W _ _ _ _ _ E Hcfg).
Qed.

Lemma refusal_has_no_effect_witness :
  Gateway.perform Scenario.steady (Gateway.Serve "account2" "a_1.png") Scenario.warm
  = (Gateway.Reply (Gateway.SendText 400 "Invalid account"), Scenario.warm)
  /\ fst (Gateway.perform Scenario.steady (Gateway.Serve "constructor" "a_1.png")
            Scenario.warm)
     = Gateway.Reply (Gateway.SendText 500 "Error serving file: Invalid account").
Proof.
  split.
  - destruct (Gateway.perform Scenario.steady (Gateway.Serve "account2" "a_1.png")
                Scenario.warm) as [[files|r] st'] eqn:E; [discriminate E|].
    destruct (refusal_has_no_effect Scenario.steady _ _ _ _ E) as (Hsame & Hstatus & _).
    rewrite (Hsame (Hstatus "account2" eq_refl eq_refl)).
    vm_compute in E. injection E as <- _. reflexivity.
  - vm_compute. reflexivity.
Defined.

(** X8. An upload, rename, deletion or download that answers an error
    leaves the listing cache and the bucket-info cache as they were,
    whatever remote calls it made before it failed. *)
Theorem failed_operation_keeps_caches
    (W : B2.World) (op : Gateway.operation) (st st' : Gateway.state)
    (r : Gateway.reply) :
  Gateway.perform W op st = (Gateway.Reply r, st') ->
  Gateway.failed (Gateway.Reply r) = true ->
  Gateway.fileListCache st' = Gateway.fileListCache st
  /\ Gateway.bucketInfoCache st' = Gateway.bucketInfoCache st.
Proof.
  intros H. now destruct (perform_reply_spec W op st r st' H) as (_ & Hb & _).
Qed.

Section Isolation.
Import B2.

Lemma new_calls_prefix (new : list request) (st st' : Gateway.state) :
  Gateway.calls st' = new ++ Gateway.calls st -> Gateway.new_calls st st' = new.
Proof.
  unfold Gateway.new_calls. intros ->.
  rewrite length_app, Nat.add_sub. apply take_app_length.
Qed.

End Isolation.

(** The calls an operation has made, read off its final state. *)
Ltac recent_calls :=
  lazymatch goal with
  | |- context [Gateway.new_calls ?s ?s'] =>
      let c := eval cbn in (Gateway.calls s') in
      lazymatch c with
      | ?q1 :: ?q2 :: ?q3 :: Gateway.calls s =>
          rewrite (new_calls_prefix [q1; q2; q3] s s') by reflexivity
      | ?q1 :: ?q2 :: Gateway.calls s =>
          rewrite (new_calls_prefix [q1; q2] s s') by reflexivity
      | ?q1 :: Gateway.calls s =>
          rewrite (new_calls_prefix [q1] s s') by reflexivity
      | Gateway.calls s => rewrite (new_calls_prefix [] s s') by reflexivity
      end
  end.

Ltac own_account :=
  let q := fresh "q" in
  let Hin := fresh "Hin" in
  intros q Hin; cbn in Hin;
  repeat (destruct Hin as [<-|Hin]); [..|destruct Hin];
  (split; [intros ? ? [= <- <-] | intros ? [= <-]]);
  eexists;
  (split; [cbn; first [eassumption | reflexivity | apply lookup_insert_eq]|]); auto.

Ltac settle_isolation E := eff_run E; recent_calls; own_account.

(** X9. Every call an operation on an account makes to a data endpoint is
    sent to the API host and with the token cached for that account, and
    every bucket it names is the bucket configured for that account. *)
Theorem calls_use_own_account
    (W : B2.World) (op : Gateway.operation) (acct : string)
    (st st' : Gateway.state) (r : Gateway.result) :
  Gateway.perform W op st = (r, st') ->
  Traffic.account_of op = Some acct ->
  forall q,
    In q (Gateway.new_calls st st') ->
    (forall api auth,
       Traffic.credentials q = Some (api, auth) ->
       exists a, Gateway.authTokenCache st' !! acct = Some a
                 /\ api = B2.apiUrl a /\ auth = B2.authorizationToken a)
    /\ (forall b,
          Traffic.bucket_named q = Some b ->
          exists cfg, B2.bucketConfig W !! acct = Some cfg /\ b = B2.bucketId cfg).
Proof.
  intros H Hacct.
  destruct op as [a | b | b | b | a filename]; cbn in H, Hacct.
  - destruct (Gateway.listFiles W a st) as [x s] eqn:E. simplify_eq.
    unfold Gateway.listFiles, Gateway.cache_lookup, Gateway.refetch,
      Gateway.listFiles_fetch, Gateway.listFiles_request,
    Gateway.listFiles_receive, Gateway.getAuthToken, Gateway.bucketId_of,
      Gateway.fetch, Gateway.json, Gateway.now in E.
    settle_isolation E.
  - destruct (Gateway.upload W b st) as [x s] eqn:E. simplify_eq.
    unfold Gateway.upload, Gateway.getAuthToken, Gateway.fetch, Gateway.json,
      Gateway.now in E. rewrite Hacct in E.
    settle_isolation E.
  - destruct (Gateway.rename_file W b st) as [x s] eqn:E. simplify_eq.
    unfold Gateway.rename_file, Gateway.getAuthToken, Gateway.fetch,
      Gateway.json in E. rewrite Hacct in E.
    settle_isolation E.
  - destruct (Gateway.delete_file W b st) as [x s] eqn:E. simplify_eq.
    unfold Gateway.delete_file, Gateway.getAuthToken, Gateway.fetch,
      Gateway.json in E. rewrite Hacct in E.
    settle_isolation E.
  - destruct (Gateway.serve_file W a filename st) as [x s] eqn:E. simplify_eq.
    unfold Gateway.serve_file, Gateway.getAuthToken, Gateway.fetch,
      Gateway.json in E.
    settle_isolation E.
Qed.

Lemma calls_use_own_account_witness :
  let st' := snd (Gateway.perform Scenario.steady
                    (Gateway.Rename Scenario.rename_a_to_b) Scenario.idle) in
  exists a,
    Gateway.authTokenCache st' !! "account1" = Some a
    /\ "https://api001.backblazeb2.com" = B2.apiUrl a
    /\ "token-1" = B2.authorizationToken a.
Proof.
  destruct (Gateway.perform Scenario.steady (Gateway.Rename Scenario.rename_a_to_b)
              Scenario.idle) as [r st'] eqn:E.
  destruct (calls_use_own_account Scenario.steady _ "account1" _ _ _ E eq_refl
              (B2.CopyFile "https://api001.backblazeb2.com" "token-1" "X"
                 "files/b_111.png" (Some "bucket-1"))) as [Hcred _].
  - vm_compute in E. injection E as _ <-. vm_compute. tauto.
  - exact (Hcred _ _ eq_refl).
Defined.

(** ** The catalogue of the metadata server *)
Section Breadcrumbs.
Import B2 Eff Server.
Variable W : World.
Hypothesis Hdb : forall k, db_error W k = None.

(** The names of a breadcrumb, joined as a path. *)
Lemma join_snoc (l : list string) (n : string) :
  l <> [] -> Js.join "/" (l ++ [n]) = Js.join "/" l +:+ "/" +:+ n.
Proof.
  unfold Js.join. induction l as [|a l IH]; [congruence|]. intros _.
  destruct l as [|b l]; [reflexivity|].
  cbn [app String.concat] in *. rewrite IH by discriminate.
  now rewrite !app_assoc_s.
Qed.

Lemma findById_run id st :
  Folder_findById W id st
  = (Return (List.find (fun f => (f_id f =? id)%N) (folders st)), db_tick st).
Proof. unfold Folder_findById. now rewrite (db_run W Hdb). Qed.

Lemma climb_spec fuel : forall cur rest st,
  path_invariant (folders st) -> In cur (folders st) ->
  (String.length (path cur) <= fuel)%nat ->
  exists chain st',
    Catalog.climb W fuel cur ((f_id cur, name cur) :: rest) st
    = (Return (Some (chain ++ rest)), st')
    /\ folders st' = folders st
    /\ files st' = files st
    /\ calls st' = calls st
    /\ chain <> []
    /\ Js.join "/" (List.map snd chain) = path cur
    /\ List.last chain (0%N, "") = (f_id cur, name cur).
Proof.
  induction fuel as [|fuel IH]; intros cur rest st Hinv Hin Hfuel.
  - pose proof (proj1 (List.Forall_forall _ _) Hinv cur Hin) as Hcur.
    unfold expected_path in Hcur. cbn [Catalog.climb].
    destruct (parent cur) as [p|].
    + destruct (List.find _ (folders st)) as [pf|]; [|discriminate].
      injection Hcur as Hcur. rewrite <- Hcur, !length_app_s in Hfuel.
      cbn in Hfuel. lia.
    + injection Hcur as Hcur.
      exists [(f_id cur, name cur)], st. repeat split; auto; discriminate.
  - pose proof (proj1 (List.Forall_forall _ _) Hinv cur Hin) as Hcur.
    unfold expected_path in Hcur. cbn [Catalog.climb].
    destruct (parent cur) as [p|].
    + unfold bind. rewrite findById_run.
      destruct (List.find (fun g => (f_id g =? p)%N) (folders st)) as [pf|] eqn:Hf;
        [|discriminate].
      injection Hcur as Hcur.
      destruct (IH pf ((f_id cur, name cur) :: rest) (db_tick st))
        as (chain & st' & Hrun & Hfs & Hfiles & Hcalls & Hne & Hjoin & Hlast).
      { exact Hinv. }
      { now apply find_some in Hf as [Hf _]. }
      { rewrite <- Hcur, !length_app_s in Hfuel. cbn in Hfuel. lia. }
      exists (chain ++ [(f_id cur, name cur)]), st'.
      rewrite <- app_assoc. split; [exact Hrun|].
      repeat split; auto.
      * now destruct chain.
      * rewrite List.map_app. cbn [List.map snd].
        rewrite join_snoc, Hjoin; [exact Hcur|].
        now destruct chain.
      * apply List.last_last.
    + injection Hcur as Hcur.
      exists [(f_id cur, name cur)], st. repeat split; auto; discriminate.
Qed.

End Breadcrumbs.

(** X10. On a store whose folder paths are consistent and that answers
    every query, [getBreadcrumbPath] terminates within as many iterations
    as the path has characters; the names of the breadcrumb, joined by
    slashes, spell the path of the folder, whose own entry comes last. *)
Theorem breadcrumb_spells_the_path
    (W : Server.World) (fuel : nat) (id : N) (f : Server.folder)
    (st : Server.state) :
  (forall k, Server.db_error W k = None) ->
  Server.path_invariant (Server.folders st) ->
  List.find (fun g => (Server.f_id g =? id)%N) (Server.folders st) = Some f ->
  (String.length (Server.path f) <= fuel)%nat ->
  exists crumbs st',
    Catalog.getBreadcrumbPath W fuel (Some id) st = (Eff.Return (Some crumbs), st')
    /\ Js.join "/" (List.map snd crumbs) = Server.path f
    /\ List.last crumbs (0%N, "") = (id, Server.name f)
    /\ Server.folders st' = Server.folders st
    /\ Server.calls st' = Server.calls st.
Proof.
  intros Hdb Hinv Hfind Hfuel.
  pose proof (find_some _ _ Hfind) as [Hin Hid]. apply N.eqb_eq in Hid. subst id.
  destruct (climb_spec W Hdb fuel f [] (Server.db_tick st) Hinv Hin Hfuel)
    as (chain & st' & Hrun & Hfs & _ & Hcalls & _ & Hjoin & Hlast).
  rewrite app_nil_r in Hrun. cbn in Hfs, Hcalls.
  exists chain, st'. split; [|now repeat split].
  unfold Catalog.getBreadcrumbPath, Eff.bind.
  rewrite (findById_run W Hdb), Hfind. exact Hrun.
Qed.

Lemma breadcrumb_spells_the_path_witness :
  exists crumbs st',
    Catalog.getBreadcrumbPath Scenario.studio 3 (Some 2%N) Scenario.shelves
    = (Eff.Return (Some crumbs), st')
    /\ Js.join "/" (List.map snd crumbs) = "a/x".
Proof.
  destruct (breadcrumb_spells_the_path Scenario.studio 3 2
              (Scenario.folder_of 2 "x" (Some 1%N) "a/x") Scenario.shelves)
    as (crumbs & st' & Hrun & Hjoin & _).
  - reflexivity.
  - repeat constructor.
  - reflexivity.
  - vm_compute. lia.
  - exists crumbs, st'. split; [exact Hrun|exact Hjoin].
Defined.

Section FolderDeletion.
Import B2 Eff Server.
Variable W : World.

Lemma count_positive {A} (P : A -> bool) (l : list A) :
  (0 <? List.length (List.filter P l))%nat = true <-> exists x, In x l /\ P x = true.
Proof.
  rewrite Nat.ltb_lt. split.
  - destruct (List.filter P l) as [|x k] eqn:E; cbn; [lia|]. intros _.
    exists x. apply filter_In. rewrite E. now left.
  - intros (x & Hx & HP).
    assert (Hin : In x (List.filter P l)) by (apply filter_In; auto).
    destruct (List.filter P l); [destruct Hin|cbn; lia].
Qed.

Lemma count_zero {A} (P : A -> bool) (l : list A) (x : A) :
  (0 <? List.length (List.filter P l))%nat = false -> In x l -> P x = false.
Proof.
  intros H Hx. destruct (P x) eqn:HP; [|reflexivity].
  assert (Hpos : (0 <? List.length (List.filter P l))%nat = true)
    by (apply count_positive; eauto).
  congruence.
Qed.

Lemma delete_one_subset {A} (id_of : A -> N) (id : N) (l : list A) (x : A) :
  In x (Catalog.delete_one id_of id l) -> In x l.
Proof.
  induction l as [|y l IH]; cbn; [auto|].
  destruct (id_of y =? id)%N; cbn; tauto.
Qed.

Lemma delete_one_keeps {A} (id_of : A -> N) (id : N) (l : list A) (x : A) :
  In x l -> id_of x <> id -> In x (Catalog.delete_one id_of id l).
Proof.
  induction l as [|y l IH]; cbn; [auto|]. intros [->|Hin] Hne.
  - destruct (N.eqb_spec (id_of x) id); [contradiction|now left].
  - destruct (id_of y =? id)%N; [exact Hin|right; auto].
Qed.

Lemma find_delete_one (id p : N) (l : list folder) :
  p <> id ->
  List.find (fun g => (f_id g =? p)%N) (Catalog.delete_one f_id id l)
  = List.find (fun g => (f_id g =? p)%N) l.
Proof.
  intros Hne. induction l as [|y l IH]; cbn; [reflexivity|].
  destruct (N.eqb_spec (f_id y) id) as [E|E].
  - destruct (N.eqb_spec (f_id y) p); [congruence|reflexivity].
  - cbn. now rewrite IH.
Qed.

Lemma delete_one_invariant (id : N) (fs : list folder) :
  (forall g, In g fs -> Catalog.child_of id g = false) ->
  path_invariant fs -> path_invariant (Catalog.delete_one f_id id fs).
Proof.
  intros Hleaf Hinv. apply List.Forall_forall. intros g Hg.
  apply delete_one_subset in Hg.
  pose proof (proj1 (List.Forall_forall _ _) Hinv g Hg) as Hpath.
  specialize (Hleaf g Hg). unfold Catalog.child_of in Hleaf.
  unfold expected_path in *.
  destruct (parent g) as [p|]; [|exact Hpath].
  apply N.eqb_neq in Hleaf. now rewrite find_delete_one.
Qed.

End FolderDeletion.

Ltac unfold_catalog H :=
  unfold Catalog.delete_folder, Catalog.move_files, Catalog.delete_file,
    Catalog.rename_file, Catalog.File_findById, Catalog.File_countDocuments_folder,
    Catalog.Folder_countDocuments_parent, Catalog.Folder_deleteOne,
    Catalog.File_deleteOne, Catalog.File_updateMany_folder, Catalog.File_save_title,
    Server.File_save, Server.Folder_findById, Server.db in H.

Lemma delete_folder_refusal
    (W : Server.World) (id : N) (st st' : Server.state) (r : Catalog.reply) :
  Catalog.delete_folder W id st = (r, st') ->
  (exists x, In x (Server.files st) /\ Catalog.in_folder id x = true)
  \/ (exists g, In g (Server.folders st) /\ Catalog.child_of id g = true) ->
  r <> Catalog.FolderDeleted
  /\ Server.folders st' = Server.folders st
  /\ Server.files st' = Server.files st.
Proof.
  intros H Hused. unfold_catalog H.
  eff_run H; try (split; [discriminate|split; reflexivity]).
  exfalso. destruct Hused as [Hx|Hg].
  - apply count_positive in Hx. congruence.
  - apply count_positive in Hg. congruence.
Qed.

(** X11. [DELETE /api/folders/:id] never deletes a folder that holds a
    file or a subfolder: both collections stay as they were. *)
Theorem folder_in_use_is_kept
    (W : Server.World) (id : N) (st st' : Server.state) (r : Catalog.reply) :
  Catalog.delete_folder W id st = (r, st') ->
  (exists x, In x (Server.files st) /\ Catalog.in_folder id x = true)
  \/ (exists g, In g (Server.folders st) /\ Catalog.child_of id g = true) ->
  r <> Catalog.FolderDeleted
  /\ Server.folders st' = Server.folders st
  /\ Server.files st' = Server.files st.
Proof. apply delete_folder_refusal. Qed.

(** X12. A successful folder deletion removes that folder only, makes no
    remote call, and keeps the store consistent: folder paths stay
    consistent and every file reference still names a stored folder. *)
Theorem folder_deletion_keeps_store_consistent
    (W : Server.World) (id : N) (st st' : Server.state) :
  Catalog.delete_folder W id st = (Catalog.FolderDeleted, st') ->
  Server.folders st' = Catalog.delete_one Server.f_id id (Server.folders st)
  /\ Server.files st' = Server.files st
  /\ Server.calls st' = Server.calls st
  /\ (Server.path_invariant (Server.folders st) ->
      Server.path_invariant (Server.folders st'))
  /\ (Catalog.references_valid st -> Catalog.references_valid st').
Proof.
  intros H. unfold_catalog H.
  eff_run H.
  match goal with
  | Hf : List.find _ _ = Some ?f |- _ =>
      apply find_some in Hf as [Hin Hid]; apply N.eqb_eq in Hid; subst id
  end.
  split; [reflexivity|]. split; [reflexivity|]. split; [reflexivity|]. split.
  - apply delete_one_invariant. intros g Hg. eapply count_zero; eauto.
  - intros Hrefs r s Hr Hs. destruct (Hrefs r s Hr Hs) as (g & Hg & Htext).
    exists g. split; [|exact Htext].
    apply delete_one_keeps; [exact Hg|]. intros E.
    assert (Hno : Catalog.in_folder (Server.f_id f) r = false)
      by (eapply count_zero; eauto).
    unfold Catalog.in_folder in Hno. rewrite Hs, <- Htext, E in Hno.
    now rewrite N.eqb_refl in Hno.
Qed.

Lemma folder_in_use_is_kept_witness :
  fst (Catalog.delete_folder Scenario.studio 1 Scenario.shelves)
  <> Catalog.FolderDeleted
  /\ Server.folders (snd (Catalog.delete_folder Scenario.studio 1 Scenario.shelves))
     = Server.folders Scenario.shelves.
Proof.
  destruct (Catalog.delete_folder Scenario.studio 1 Scenario.shelves)
    as [r st'] eqn:E.
  destruct (folder_in_use_is_kept Scenario.studio 1 Scenario.shelves st' r E)
    as (Hr & Hf & _).
  - right. exists (Scenario.folder_of 2 "x" (Some 1%N) "a/x").
    split; [cbn; tauto|reflexivity].
  - split; [exact Hr|exact Hf].
Defined.

Lemma folder_deletion_keeps_store_consistent_witness :
  Server.path_invariant
    (Server.folders (snd (Catalog.delete_folder Scenario.studio 2 Scenario.shelves))).
Proof.
  destruct (Catalog.delete_folder Scenario.studio 2 Scenario.shelves)
    as [r st'] eqn:E.
  assert (Hr : r = Catalog.FolderDeleted)
    by (pose proof E as E'; vm_compute in E'; now injection E').
  subst r.
  destruct (folder_deletion_keeps_store_consistent Scenario.studio 2
              Scenario.shelves st' E) as (_ & _ & _ & Hinv & _).
  apply Hinv. repeat constructor.
Defined.

Section Moving.
Import B2 Eff Server.
Variable W : World.

Lemma listed_with_folder ids r f :
  Catalog.listed ids (Catalog.with_folder r f) = Catalog.listed ids r.
Proof. reflexivity. Qed.

End Moving.

Lemma move_files_spec
    (W : Server.World) (b : Catalog.move_body) (st st' : Server.state) (n : nat) :
  Catalog.move_files W b st = (Catalog.FilesMoved n, st') ->
  exists ids,
    Catalog.mv_fileIds b = Some ids
    /\ Server.files st'
       = List.map (fun r => if Catalog.listed ids r
                            then Catalog.with_folder r
                                   (Catalog.folder_of_destination (Catalog.mv_folderId b))
                            else r)
                  (Server.files st)
    /\ n = List.length (List.filter (Catalog.listed ids) (Server.files st))
    /\ Server.folders st' = Server.folders st
    /\ Server.calls st' = Server.calls st
    /\ (Catalog.references_valid st -> Catalog.references_valid st').
Proof.
  intros H. unfold_catalog H.
  eff_run H; eexists; (split; [reflexivity|]); repeat split.
  all: intros Hrefs r s Hr Hs; cbn in Hr;
    apply in_map_iff in Hr as (r0 & <- & Hr0);
    destruct (Catalog.listed _ r0); [|exact (Hrefs r0 s Hr0 Hs)];
    cbn in Hs; simplify_eq.
  match goal with
  | Hb : negb (bool_decide (is_Some _)) = false |- _ =>
      apply negb_false_iff, bool_decide_eq_true in Hb as [f Hf];
      apply find_some in Hf as [Hin Hid]; apply N.eqb_eq in Hid;
      exists f; split; [exact Hin|now rewrite Hid]
  end.
Qed.

(** X13. A successful move changes the folder reference of the stored
    files among the ids given and nothing else; ids of no stored file are
    ignored, the count answered is the number of files matched, no remote
    call is made, and file references that named stored folders still
    do. *)
Theorem move_changes_folders_only
    (W : Server.World) (b : Catalog.move_body) (st st' : Server.state) (n : nat) :
  Catalog.move_files W b st = (Catalog.FilesMoved n, st') ->
  exists ids,
    Catalog.mv_fileIds b = Some ids
    /\ Server.files st'
       = List.map (fun r => if Catalog.listed ids r
                            then Catalog.with_folder r
                                   (Catalog.folder_of_destination (Catalog.mv_folderId b))
                            else r)
                  (Server.files st)
    /\ n = List.length (List.filter (Catalog.listed ids) (Server.files st))
    /\ Server.folders st' = Server.folders st
    /\ Server.calls st' = Server.calls st
    /\ (Catalog.references_valid st -> Catalog.references_valid st').
Proof. apply move_files_spec. Qed.

(** X14. After a move that matched at least one file, the destination
    folder cannot be deleted: the deletion leaves the folders as they
    were. *)
Theorem moved_files_pin_their_folder
    (W : Server.World) (ids : list N) (id : N) (st st1 st2 : Server.state)
    (n : nat) (r : Catalog.reply) :
  Catalog.move_files W
    {| Catalog.mv_fileIds := Some ids; Catalog.mv_folderId := Catalog.ToFolder id |} st
  = (Catalog.FilesMoved n, st1) ->
  (0 < n)%nat ->
  Catalog.delete_folder W id st1 = (r, st2) ->
  r <> Catalog.FolderDeleted /\ Server.folders st2 = Server.folders st.
Proof.
  intros Hmove Hn Hdel.
  destruct (move_files_spec W _ st st1 n Hmove)
    as (ids' & [= <-] & Hfiles & Hcount & Hfolders & _).
  cbn in Hfiles.
  assert (Hmoved : exists x, In x (Server.files st) /\ Catalog.listed ids x = true).
  { apply count_positive. apply Nat.ltb_lt. now rewrite <- Hcount. }
  destruct Hmoved as (x & Hx & Hlisted).
  destruct (delete_folder_refusal W id st1 st2 r Hdel) as (Hr & Hf & _).
  - left. exists (Catalog.with_folder x (Server.InFolder id)). split.
    + rewrite Hfiles. apply in_map_iff. exists x. now rewrite Hlisted.
    + unfold Catalog.in_folder. cbn. apply N.eqb_refl.
  - split; [exact Hr|congruence].
Qed.

Section FileRoutes.
Import B2 Eff Server.
Variable W : World.

(** The remote part of a file deletion never throws and touches no
    collection. *)
Lemma remote_deletion_is_contained (file : fileRecord) st o st' :
  try_catch
    (bind (deleteFileFromB2 W (account file) (fileId file) (fullFileName file))
       (fun _ =>
          match thumbnailUrl file with
          | Some thumbnailUrl =>
              if String.eqb thumbnailUrl "" then ret tt
              else
                try_catch
                  (deleteFileFromB2 W (account file) None
                     (Catalog.thumbnail_key thumbnailUrl))
                  (fun _ => ret tt)
          | None => ret tt
          end))
    (fun _ => ret tt) st = (o, st') ->
  o = Return tt
  /\ files st' = files st /\ folders st' = folders st /\ dbOps st' = dbOps st
  /\ tempFiles st' = tempFiles st.
Proof.
  unfold deleteFileFromB2, getAuthToken, fetch, json. intros H.
  eff_run H;
    repeat match goal with u : unit |- _ => destruct u end;
    repeat split; reflexivity.
Qed.

Lemma upsert_same_address (x file : fileRecord) (l : list fileRecord) :
  List.find (fun r => (r_id r =? r_id x)%N) l = Some file ->
  Catalog.address x = Catalog.address file ->
  List.map Catalog.address (upsert r_id x l) = List.map Catalog.address l.
Proof.
  intros Hfind Haddr. induction l as [|y l IH]; [discriminate|].
  cbn in Hfind |- *. destruct (r_id y =? r_id x)%N.
  - cbn. injection Hfind as ->. now rewrite Haddr.
  - cbn. f_equal. auto.
Qed.

End FileRoutes.

(** A document that passes validation has a title. *)
Lemma validated_title (W : Server.World) (r : Server.fileRecord) :
  Server.validate_file W r = None -> Server.title r <> "".
Proof.
  unfold Server.validate_file, Server.file_errors, Server.required.
  intros H Ht. rewrite Ht in H. cbn in H.
  destruct (Server.folderRef r), (Server.duration r) as [[]|];
    cbn in H; discriminate H.
Qed.

(** X15. With a document store that answers, [POST /api/files/delete]
    removes the record of the file and answers success whatever the object
    store answers to the deletion of the object and of its thumbnail. *)
Theorem record_is_removed_whatever_the_store_answers
    (W : Server.World) (id : N) (file : Server.fileRecord) (st : Server.state) :
  (forall k, Server.db_error W k = None) ->
  List.find (fun r => (Server.r_id r =? id)%N) (Server.files st) = Some file ->
  exists st',
    Catalog.delete_file W (Some id) st = (Catalog.FileDeleted, st')
    /\ Server.files st' = Catalog.delete_one Server.r_id id (Server.files st)
    /\ Server.folders st' = Server.folders st
    /\ Server.tempFiles st' = Server.tempFiles st.
Proof.
  intros Hdb Hfind.
  pose proof (find_some _ _ Hfind) as [_ Hid]. apply N.eqb_eq in Hid.
  unfold Catalog.delete_file, Catalog.File_findById, Catalog.File_deleteOne,
    Eff.run.
  unfold Eff.bind at 1. rewrite (db_run W Hdb). cbn [fst snd Server.files Server.db_tick].
  rewrite Hfind. unfold Eff.bind at 1.
  match goal with
  | |- context [Eff.try_catch ?m ?h (Server.db_tick st)] =>
      destruct (Eff.try_catch m h (Server.db_tick st)) as [o s] eqn:Hremote
  end.
  apply remote_deletion_is_contained in Hremote as (-> & Hf & Hfo & Hops & Ht).
  unfold Eff.bind. rewrite (db_run W Hdb). cbn.
  eexists. split; [reflexivity|]. cbn. rewrite Hf, Hfo, Ht, Hid. auto.
Qed.

(** X16. [POST /api/files/rename] makes no remote call and changes no
    folder; the id, names, storage key, remote id, account, URL and folder
    of every record stay as they were, and a renamed record differs from
    the stored one by its trimmed title only. *)
Theorem rename_touches_the_title_only
    (W : Server.World) (fileId : option N) (newTitle : option string)
    (st st' : Server.state) (r : Catalog.reply) :
  Catalog.rename_file W fileId newTitle st = (r, st') ->
  Server.calls st' = Server.calls st
  /\ Server.folders st' = Server.folders st
  /\ List.map Catalog.address (Server.files st')
     = List.map Catalog.address (Server.files st)
  /\ forall f,
       r = Catalog.FileRenamed f ->
       exists id file t,
         fileId = Some id /\ newTitle = Some t
         /\ List.find (fun x => (Server.r_id x =? id)%N) (Server.files st) = Some file
         /\ f = Catalog.with_title file t
         /\ Server.title f <> ""
         /\ In f (Server.files st').
Proof.
  intros H. unfold_catalog H.
  eff_run H; (split; [reflexivity|]); (split; [reflexivity|]);
    (split; [first [reflexivity | idtac]|]); try (intros ? [=]).
  all: try match goal with
         | Hp : Gateway.present ?o = Some _ |- _ =>
             unfold Gateway.present in Hp; destruct (Js.truthy o) eqn:Htruthy;
             [|discriminate Hp]; subst o
         end.
  - match goal with
    | Hf : List.find _ _ = Some ?file |- _ =>
        apply (upsert_same_address _ file); [|reflexivity];
        pose proof (find_some _ _ Hf) as [_ Hid]; apply N.eqb_eq in Hid;
        cbn; now rewrite Hid
    end.
  - subst. do 3 eexists. repeat split; eauto.
    + match goal with
      | Hv : Server.validate_file _ _ = None |- _ =>
          exact (validated_title _ _ Hv)
      end.
    + cbn. apply In_upsert.
Qed.

(** ** Addresses of uploaded records *)
Section Addresses.
Import B2 Eff Server.
Variable W : World.

Lemma stage_names acct title folderId file st filename record st' :
  stage W acct title folderId file st = (Return (filename, record), st') ->
  (exists ts, filename = upload_filename (fileTitle title (originalname file)) ts)
  /\ fullFileName record = "files/" +:+ fileName record
  /\ url record = "/files/" +:+ acct +:+ "/" +:+ fileName record
  /\ account record = acct.
Proof.
  unfold stage, uploadFileToB2, getAuthToken, bucketId_of, readFileSync, new_id,
    now, fetch, json.
  intros H.
  eff_run H; repeat split; eauto.
Qed.

Lemma thumbnail_uploaded p acct out st res st' :
  generateVideoThumbnail W p acct out st = (Return (Some res), st') ->
  exists url token data,
    In (UploadFile url token ("thumbnails/" +:+ out) "image/jpeg" data) (calls st').
Proof.
  unfold generateVideoThumbnail, uploadFileToB2, getAuthToken, bucketId_of,
    readFileSync, unlinkSync, existsSync, fetch, json.
  intros H.
  eff_run H; do 3 eexists; cbn; eauto.
Qed.

Lemma enrich_names file acct filename record st record' st' :
  enrich W file acct filename record st = (Return record', st') ->
  Catalog.address record' = Catalog.address record
  /\ (thumbnailUrl record' = thumbnailUrl record
      \/ (thumbnailUrl record'
          = Some ("/thumbnails/" +:+ acct +:+ "/" +:+ filename +:+ ".jpg")
          /\ exists url token data,
               In (UploadFile url token ("thumbnails/" +:+ filename +:+ ".jpg")
                     "image/jpeg" data) (calls st'))).
Proof.
  unfold enrich, getVideoDuration. intros H.
  eff_run H.
  all: repeat match goal with
         | |- context [match ?x with _ => _ end] => destruct x eqn:?
         end.
  all: split; [reflexivity|]; cbn; auto.
  all: right; split; [reflexivity|];
    match goal with
    | Hx : generateVideoThumbnail _ _ _ _ _ = (Return (Some _), _) |- _ =>
        exact (thumbnail_uploaded _ _ _ _ _ _ Hx)
    end.
Qed.

End Addresses.

Section ThumbnailKeys.
Import B2 Eff Server.

Lemma replace_non_alnum_free (t : string) :
  Text.free_of "/" (Js.replace_non_alnum t) = true.
Proof.
  unfold Text.free_of, Js.replace_non_alnum.
  induction t as [|c t IH]; [reflexivity|].
  cbn [Js.smap Js.every]. rewrite IH, andb_true_r.
  destruct c as [[] [] [] [] [] [] [] []]; vm_compute; reflexivity.
Qed.

Lemma upload_filename_free (t : string) (ts : N) :
  Text.free_of "/" (upload_filename t ts +:+ ".jpg") = true.
Proof.
  unfold upload_filename.
  rewrite !free_of_app, replace_non_alnum_free,
    (digits_free_of "/" _ eq_refl (decimal_digits ts)).
  reflexivity.
Qed.

Lemma thumbnail_key_of_url (acct name : string) :
  Text.free_of "/" name = true -> name <> "" ->
  Catalog.thumbnail_key ("/thumbnails/" +:+ acct +:+ "/" +:+ name)
  = "thumbnails/" +:+ name.
Proof.
  intros Hfree Hne. unfold Catalog.thumbnail_key. f_equal.
  rewrite <- app_assoc_s, (app_cons_s "/" ""), app_nil_l_s, pop_split_app.
  unfold Js.pop. rewrite (split_free _ _ Hfree). cbn [List.last].
  unfold Js.basename, Js.last_portion.
  rewrite String.eqb_refl, (split_free _ _ Hfree). cbn [List.filter].
  apply String.eqb_neq in Hne. rewrite Hne. reflexivity.
Qed.

End ThumbnailKeys.

(** X17. A record created by an upload is addressable: its key is
    [files/] followed by its file name, its URL ends with that file name
    under its account, the object was uploaded under that key, and the
    key a deletion derives from its thumbnail URL is the key the thumbnail
    was uploaded under. *)
Theorem uploaded_record_is_addressable
    (W : Server.World) (b : Server.upload_body) (st st' : Server.state)
    (r : Server.fileRecord) :
  Server.upload W b st = (Server.FileCreated r, st') ->
  Server.fullFileName r = "files/" +:+ Server.fileName r
  /\ Server.url r = "/files/" +:+ Server.account r +:+ "/" +:+ Server.fileName r
  /\ (exists url token contentType data,
        In (B2.UploadFile url token (Server.fullFileName r) contentType data)
           (Server.calls st'))
  /\ forall u,
       Server.thumbnailUrl r = Some u ->
       exists name,
         u = "/thumbnails/" +:+ Server.account r +:+ "/" +:+ name
         /\ Catalog.thumbnail_key u = "thumbnails/" +:+ name
         /\ exists url token data,
              In (B2.UploadFile url token (Catalog.thumbnail_key u) "image/jpeg" data)
                 (Server.calls st').
Proof.
  intros H.
  unfold Server.upload, Server.upload_body_of, Server.commit, Server.File_save,
    Server.db, Server.unlinkSync, Server.existsSync in H.
  eff_run H.
  match goal with
  | Hs : Server.stage W _ _ _ _ _ = (Eff.Return ?a, _) |- _ =>
      destruct a as [filename record0]; cbn [fst snd] in *
  end.
  match goal with
  | Hs : Server.stage W _ _ _ _ _ = (Eff.Return _, _),
    He : Server.enrich W _ _ _ _ _ = (Eff.Return _, _) |- _ =>
      destruct (stage_names W _ _ _ _ _ _ _ _ Hs) as ((ts & Hname) & Hfull & Hurl & Hacct);
      destruct (stage_spec W _ _ _ _ _ _ _ _ Hs)
        as (_ & _ & _ & _ & _ & Hnone & (u0 & t0 & c0 & d0 & Hup));
      destruct (enrich_names W _ _ _ _ _ _ _ He) as (Haddr & Hthumb);
      destruct (enrich_spec W _ _ _ _ _ _ _ He)
        as (? & [= <-] & _ & _ & _ & _ & _ & _ & _ & _ & Hgrow)
  end.
  unfold Catalog.address in Haddr. simplify_eq/=.
  split; [congruence|]. split; [congruence|]. split.
  - exists u0, t0, c0, d0. apply Hgrow.
    match goal with Hx : Server.fullFileName _ = Server.fullFileName _ |- _ =>
      now rewrite Hx end.
  - intros thumb Hu. destruct Hthumb as [Hsame|[Hset Hin]]; [congruence|].
    rewrite Hu in Hset. injection Hset as ->.
    eexists. split; [|split].
    + match goal with Hx : Server.account r = Server.account _ |- _ =>
        rewrite Hx end.
      reflexivity.
    + apply thumbnail_key_of_url; [apply upload_filename_free|].
      intros E. apply (f_equal String.length) in E.
      rewrite length_app_s in E. cbn in E. lia.
    + rewrite thumbnail_key_of_url; [exact Hin|apply upload_filename_free|].
      intros E. apply (f_equal String.length) in E.
      rewrite length_app_s in E. cbn in E. lia.
Qed.

Section Serving.
Import B2 Eff Server.
Variable W : World.

Lemma getAuthToken_calls acct st o st1 :
  getAuthToken W acct st = (o, st1) ->
  files st1 = files st /\ folders st1 = folders st
  /\ forall q, In q (calls st1) -> In q (calls st) \/ endpoint_of q = b2_authorize_account.
Proof.
  unfold getAuthToken, fetch, json. intros H.
  eff_run H; (split; [reflexivity|split; [reflexivity|]]); intros q Hin; cbn in Hin;
    repeat (destruct Hin as [<-|Hin]; [now right|]); auto.
Qed.

End Serving.

(** X18. Serving a file or a thumbnail touches no collection and calls
    the store for an authorization or for a one-day download authorization
    of exactly the key asked for.  An account for which [bucketConfig]
    holds nothing truthy is answered 400 with nothing done; any other
    account name, the names of the members of [Object.prototype]
    included, is answered a redirect or status 500.  A redirect goes to
    the download host of the account's authorization, under the
    configured bucket name and the key asked for, with the token the
    store gave for that key. *)
Theorem serving_reads_one_key
    (W : Server.World) (directory what acct filename : string)
    (st st' : Server.state) (r : Catalog.reply) :
  Catalog.serve W directory what acct filename st = (r, st') ->
  (forall q,
     In q (Server.calls st') ->
     In q (Server.calls st)
     \/ B2.endpoint_of q = B2.b2_authorize_account
     \/ exists api token bucket,
          q = B2.GetDownloadAuthorization api token bucket
                (directory +:+ filename) 86400)
  /\ Server.files st' = Server.files st
  /\ Server.folders st' = Server.folders st
  /\ (B2.bucketConfig (Server.b2 W) !! acct = None ->
      r = Catalog.SendText 400 "Invalid account" /\ st' = st)
  /\ (is_Some (B2.bucketConfig (Server.b2 W) !! acct) ->
      (exists url, r = Catalog.Redirect url)
      \/ exists message,
           r = Catalog.SendText 500 ("Error serving " +:+ what +:+ ": " +:+ message))
  /\ (forall url,
        r = Catalog.Redirect url ->
        exists a st1 cfg resp auth,
          Server.getAuthToken W acct st = (Eff.Return a, st1)
          /\ B2.bucketConfig (Server.b2 W) !! acct = Some cfg
          /\ B2.on_download_auth (Server.b2 W) (Server.calls st1)
               (B2.GetDownloadAuthorization (B2.apiUrl a) (B2.authorizationToken a)
                  (B2.bucketId cfg) (directory +:+ filename) 86400)
             = B2.Resolves resp
          /\ B2.ok resp = true
          /\ B2.payload resp = B2.Json auth
          /\ url = B2.downloadUrl a +:+ "/file/" +:+ Js.template (B2.bucketName cfg)
                     +:+ "/" +:+ (directory +:+ filename) +:+ "?Authorization="
                     +:+ B2.da_authorizationToken auth).
Proof.
  intros H.
  unfold Catalog.serve, Catalog.getDownloadUrl, Server.bucketId_of, Server.fetch,
    Server.json in H.
  eff_run H;
    try match goal with
      | Hx : Server.getAuthToken W _ _ = _ |- _ =>
          let Hy := fresh "Htoken" in
          pose proof (getAuthToken_calls W _ _ _ _ Hx) as Hy;
          destruct Hy as (? & ? & ?)
      end;
    (split; [|split; [cbn; congruence|split; [cbn; congruence|split; [|split]]]]).
  all: try solve [ intros [=] | intros ? [=] | intros [? [=]]
                 | intros; split; reflexivity | intros _; eauto ].
  all: try solve [ intros q Hin; cbn in Hin;
                   repeat (destruct Hin as [<-|Hin]; [eauto 6|]);
                   first [ now left
                         | match goal with
                           | Hc : forall q, In q _ -> _ |- _ =>
                               destruct (Hc q Hin); auto
                           end ] ].
  all: intros url [= <-]; do 5 eexists;
    (split; [reflexivity|]); (split; [reflexivity|]); (split; [eassumption|]);
    (split; [|split; [eassumption|reflexivity]]);
    match goal with
    | Hn : negb (B2.ok _) = false |- _ => now apply negb_false_iff in Hn
    end.
Qed.

Section Staging.
Import B2 Eff Server.
Variable W : World.

Lemma stage_frame acct title folderId file st o st' :
  stage W acct title folderId file st = (o, st') ->
  files st' = files st /\ tempFiles st' = tempFiles st.
Proof.
  unfold stage, uploadFileToB2, getAuthToken, bucketId_of, readFileSync, new_id,
    now, fetch, json.
  intros H. eff_run H; split; reflexivity.
Qed.

Lemma stage_staged acct title folderId file st a st' :
  stage W acct title folderId file st = (Return a, st') ->
  is_Some (tempFiles st' !! file_path file).
Proof.
  destruct a as [filename record]. intros H.
  now apply stage_spec in H as (_ & _ & Hstaged & _).
Qed.

Lemma not_staged (st : state) (p : string) :
  bool_decide (is_Some (tempFiles st !! p)) = false -> tempFiles st !! p = None.
Proof. intros H. apply bool_decide_eq_false in H. now apply eq_None_not_Some. Qed.

End Staging.

(** X19. Whatever a validated upload answers, the staged file is gone
    afterwards; an error answer wrote no record and a success wrote the
    record answered. *)
Theorem upload_clears_staging
    (W : Server.World) (b : Server.upload_body) (acct : string)
    (file : Server.uploadedFile) (st st' : Server.state) (r : Server.reply) :
  Server.upload W b st = (r, st') ->
  Gateway.present (Server.up_account b) = Some acct ->
  Server.up_file b = Some file ->
  is_Some (B2.bucketConfig (Server.b2 W) !! acct) ->
  Server.tempFiles st' !! Server.file_path file = None
  /\ (forall code message,
        r = Server.JsonError code message -> Server.files st' = Server.files st)
  /\ (forall record,
        r = Server.FileCreated record ->
        Server.files st' = Server.upsert Server.r_id record (Server.files st)).
Proof.
  intros H Hacct Hfile [cfg Hcfg].
  unfold Server.upload, Server.upload_body_of, Server.commit, Server.File_save,
    Server.db, Server.unlinkSync, Server.existsSync in H.
  rewrite Hacct, Hfile, Hcfg in H.
  eff_run H.
  all: try match goal with
         | Hs : Server.stage _ _ _ _ _ _ = (Eff.Return _, _) |- _ =>
             pose proof (stage_staged _ _ _ _ _ _ _ _ Hs) as [? ?]
         end.
  all: repeat match goal with
         | Hs : Server.stage _ _ _ _ _ _ = _ |- _ =>
             apply stage_frame in Hs as [? ?]
         | He : Server.enrich _ _ _ _ _ _ = _ |- _ =>
             apply enrich_spec in He as (? & ? & ? & ? & ? & _)
         | Hb : bool_decide (is_Some (Server.tempFiles _ !! _)) = false |- _ =>
             apply not_staged in Hb
         end.
  all: cbn in *; simplify_eq.
  all: split; [first [apply lookup_delete_eq | assumption | congruence]|].
  all: split; intros; simplify_eq; cbn; congruence.
Qed.

(** ** The properties above on concrete stores *)
Lemma failed_operation_keeps_caches_witness :
  let st' := snd (Gateway.perform Cases.delete_refused
                    (Gateway.Rename Scenario.rename_a_to_b) Scenario.warm) in
  Gateway.fileListCache st' = Gateway.fileListCache Scenario.warm
  /\ Gateway.bucketInfoCache st' = Gateway.bucketInfoCache Scenario.warm.
Proof.
  destruct (Gateway.perform Cases.delete_refused
              (Gateway.Rename Scenario.rename_a_to_b) Scenario.warm)
    as [[files|r] st'] eqn:E; [discriminate E|].
  apply (failed_operation_keeps_caches Cases.delete_refused _ _ _ _ E).
  vm_compute in E. injection E as <- _. reflexivity.
Defined.

Lemma move_changes_folders_only_witness :
  Server.files
    (snd (Catalog.move_files Scenario.studio Cases.move_holiday_to_x Cases.library))
  = [Catalog.with_folder Cases.holiday (Server.InFolder 2)].
Proof.
  destruct (Catalog.move_files Scenario.studio Cases.move_holiday_to_x Cases.library)
    as [r st'] eqn:E.
  assert (Hr : r = Catalog.FilesMoved 1)
    by (pose proof E as E'; vm_compute in E'; now injection E').
  subst r.
  destruct (move_changes_folders_only Scenario.studio _ Cases.library st' 1%nat E)
    as (ids & [= <-] & Hfiles & _).
  exact Hfiles.
Defined.

Lemma moved_files_pin_their_folder_witness :
  let st1 := snd (Catalog.move_files Scenario.studio Cases.move_holiday_to_x
                    Cases.library) in
  fst (Catalog.delete_folder Scenario.studio 2 st1) <> Catalog.FolderDeleted.
Proof.
  destruct (Catalog.move_files Scenario.studio Cases.move_holiday_to_x Cases.library)
    as [r st1] eqn:E.
  assert (Hr : r = Catalog.FilesMoved 1)
    by (pose proof E as E'; vm_compute in E'; now injection E').
  subst r. cbn [snd].
  destruct (Catalog.delete_folder Scenario.studio 2 st1) as [r st2] eqn:E2.
  apply (moved_files_pin_their_folder Scenario.studio [7%N] 2 Cases.library st1 st2
           1 r E); [lia|exact E2].
Defined.

Lemma record_is_removed_whatever_the_store_answers_witness :
  exists st',
    Catalog.delete_file Cases.archive (Some 7%N) Cases.library
    = (Catalog.FileDeleted, st')
    /\ Server.files st' = [].
Proof.
  destruct (record_is_removed_whatever_the_store_answers Cases.archive 7
              Cases.holiday Cases.library) as (st' & Hrun & Hfiles & _).
  - reflexivity.
  - reflexivity.
  - exists st'. split; [exact Hrun|exact Hfiles].
Defined.

Lemma rename_touches_the_title_only_witness :
  let st' := snd (Catalog.rename_file Scenario.studio (Some 7%N) (Some " Summer ")
                    Cases.library) in
  List.map Catalog.address (Server.files st')
  = List.map Catalog.address (Server.files Cases.library)
  /\ Server.calls st' = [].
Proof.
  destruct (Catalog.rename_file Scenario.studio (Some 7%N) (Some " Summer ")
              Cases.library) as [r st'] eqn:E.
  destruct (rename_touches_the_title_only Scenario.studio _ _ _ _ _ E)
    as (Hcalls & _ & Haddr & _).
  split; [exact Haddr|exact Hcalls].
Defined.

Lemma uploaded_record_is_addressable_witness :
  exists r st',
    Server.upload Scenario.studio Scenario.upload_clip Scenario.shelves
    = (Server.FileCreated r, st')
    /\ Server.fullFileName r = "files/" +:+ Server.fileName r.
Proof.
  destruct (Server.upload Scenario.studio Scenario.upload_clip Scenario.shelves)
    as [r st'] eqn:E.
  assert (Hr : exists record, r = Server.FileCreated record)
    by (pose proof E as E'; vm_compute in E'; injection E' as <- _; eauto).
  destruct Hr as [record ->].
  exists record, st'. split; [reflexivity|].
  now destruct (uploaded_record_is_addressable Scenario.studio _ _ _ _ E).
Defined.

Lemma serving_reads_one_key_witness :
  Server.files (snd (Catalog.serve_thumbnail Scenario.studio "account1"
                       "Holiday_1700000000000.jpg" Cases.library))
  = Server.files Cases.library
  /\ fst (Catalog.serve_file Scenario.studio "constructor" "Holiday_1700000000000.mp4"
            Cases.library)
     = Catalog.SendText 500 "Error serving file: Invalid account".
Proof.
  split.
  - destruct (Catalog.serve_thumbnail Scenario.studio "account1"
                "Holiday_1700000000000.jpg" Cases.library) as [r st'] eqn:E.
    unfold Catalog.serve_thumbnail in E.
    now destruct (serving_reads_one_key Scenario.studio _ _ _ _ _ _ _ E)
      as (_ & Hfiles & _).
  - vm_compute. reflexivity.
Defined.

Lemma upload_clears_staging_witness :
  Server.tempFiles
    (snd (Server.upload Scenario.store_down Scenario.upload_clip Scenario.shelves))
    !! "temp/1700000000000-7-clip.mp4" = None.
Proof.
  destruct (Server.upload Scenario.store_down Scenario.upload_clip Scenario.shelves)
    as [r st'] eqn:E.
  destruct (upload_clears_staging Scenario.store_down Scenario.upload_clip "account1"
              Scenario.clip Scenario.shelves st' r E) as (Hgone & _).
  - reflexivity.
  - reflexivity.
  - eexists. reflexivity.
  - exact Hgone.
Defined.
